(** * The benchmark harness of project-euler, embedded in Rocq

    Source files:
    - [benchmark/benchmark.py]: discovery, sampling, result store, orchestrator;
    - [python/problem-3/main.py], [python/problem-4/main.py]: two payloads.

    Conventions of the embedding.
    - Python [str] is [string] (a byte string: directory names and process
      output are taken as ASCII; the Unicode digits and spaces that [int] and
      [str.strip] also accept lie outside the model).
    - Python [int] is [Z].
    - A finite [float] denotes a rational, so durations are [Q]; the
      comparisons [<] and [>] on finite floats are exact on the rationals they
      denote.  [statistics.mean] and [statistics.stdev] are parameters of the
      sampler; the functions of CPython (3.11 and later), which compute the
      exact fraction and round it once to the nearest binary64 number, are
      [PyStatistics.mean] and [PyStatistics.stdev].
    - A Python [int] bound to a parameter of an SQL statement, or stored in
      an [INTEGER] column, is a signed 64-bit integer.
    - Exceptions are values of [exn]; code that may raise returns [result].
    - External state (the process table, the clock, the database file) is
      passed explicitly. *)

From Stdlib Require Import List String Ascii ZArith QArith Qpower Qabs.
From Stdlib Require Import Lia Lqa Bool.
From Stdlib Require Import Permutation Sorted Mergesort Orders DecimalString.
Import ListNotations.

Close Scope Q_scope.
Open Scope string_scope.
Open Scope list_scope.

(** ** Exceptions and results *)

Inductive exn : Type :=
| AttributeError (msg : string)
| ValueError (msg : string)
| IndexError
| KeyError (key : string)
| CalledProcessError (returncode : Z)
| OSError
| StatisticsError
| OperationalError
| IntegrityError
| OverflowError.

Inductive result (A : Type) : Type :=
| Ok (a : A)
| Raise (e : exn).

Arguments Ok {A} a.
Arguments Raise {A} e.

Definition is_ok {A} (r : result A) : bool :=
  match r with Ok _ => true | Raise _ => false end.

(** ** Python string primitives *)

Module Py.

(** [str.isspace] on the ASCII range: TAB..CR, FS..US and SPACE; the
    characters that [str.strip] removes. *)
Definition isspace (c : ascii) : bool :=
  let n := N_of_ascii c in
  ((9 <=? n) && (n <=? 13) || (28 <=? n) && (n <=? 32))%N.

Fixpoint lstrip (s : string) : string :=
  match s with
  | EmptyString => EmptyString
  | String c s' => if isspace c then lstrip s' else s
  end.

Fixpoint rstrip (s : string) : string :=
  match s with
  | EmptyString => EmptyString
  | String c s' =>
      match rstrip s' with
      | EmptyString => if isspace c then EmptyString else String c EmptyString
      | r => String c r
      end
  end.

(** [s.strip()] *)
Definition strip (s : string) : string := rstrip (lstrip s).

(** [s.split(sep)] for a one-character separator: the first field and the
    remaining ones. *)
Fixpoint split_fields (sep : ascii) (s : string) : string * list string :=
  match s with
  | EmptyString => (EmptyString, [])
  | String c s' =>
      let '(h, t) := split_fields sep s' in
      if Ascii.eqb c sep then (EmptyString, h :: t) else (String c h, t)
  end.

Definition split (sep : ascii) (s : string) : list string :=
  let '(h, t) := split_fields sep s in h :: t.

Definition digit_val (c : ascii) : option Z :=
  let n := N_of_ascii c in
  if ((48 <=? n) && (n <=? 57))%N then Some (Z.of_N n - 48)%Z else None.

(** Decimal digits, with single underscores allowed between digits. *)
Fixpoint parse_digits (s : string) (acc : Z) (after_digit : bool) : option Z :=
  match s with
  | EmptyString => if after_digit then Some acc else None
  | String c s' =>
      match digit_val c with
      | Some d => parse_digits s' (10 * acc + d)%Z true
      | None =>
          if Ascii.eqb c "_"
          then (if after_digit then parse_digits s' acc false else None)
          else None
      end
  end.

(** The whitespace that [int] skips around an ASCII literal: TAB..CR and
    SPACE.  The separators FS..US, which [str.strip] removes, are not
    skipped: [int] rejects a literal that holds one. *)
Definition int_space (c : ascii) : bool :=
  let n := N_of_ascii c in
  ((9 <=? n) && (n <=? 13) || (n =? 32))%N.

Fixpoint skip_leading (s : string) : string :=
  match s with
  | EmptyString => EmptyString
  | String c s' => if int_space c then skip_leading s' else s
  end.

Fixpoint skip_trailing (s : string) : string :=
  match s with
  | EmptyString => EmptyString
  | String c s' =>
      match skip_trailing s' with
      | EmptyString => if int_space c then EmptyString else String c EmptyString
      | r => String c r
      end
  end.

(** [int(s)] in base 10: whitespace around the literal is skipped, one sign
    is allowed; anything else raises [ValueError]. *)
Definition int (s : string) : result Z :=
  let t := skip_trailing (skip_leading s) in
  let body :=
    match t with
    | String "+" r => parse_digits r 0%Z false
    | String "-" r => option_map Z.opp (parse_digits r 0%Z false)
    | _ => parse_digits t 0%Z false
    end in
  match body with
  | Some z => Ok z
  | None => Raise (ValueError ("invalid literal for int() with base 10: " ++ s))
  end.

(** [str(z)] for an integer. *)
Definition str (z : Z) : string := NilEmpty.string_of_int (Z.to_int z).

(** Truth value of a string: non-empty. *)
Definition truthy (s : string) : bool :=
  match s with EmptyString => false | _ => true end.

End Py.

(** ** Floating-point numbers

    A finite binary64 number is [m * 2^e] with [|m| < 2^53] and
    [-1074 <= e <= 971]; it is kept as the rational it denotes.  The
    conversions round to the nearest binary64 number, ties to the even
    mantissa. *)

Module Float.
Section Rounding.
Local Open Scope Z_scope.

(** [m * 2^e] as a rational. *)
Definition scale (m e : Z) : Q :=
  if 0 <=? e then inject_Z (m * 2 ^ e) else Qmake m (Z.to_pos (2 ^ (- e))).

(** The integer part of the binary logarithm of [n / d], for positive [n]
    and [d]. *)
Definition ilog2 (n d : Z) : Z :=
  let k := Z.log2 n - Z.log2 d in
  if d * 2 ^ Z.max 0 k <=? n * 2 ^ Z.max 0 (- k) then k else k - 1.

(** [n / d] rounded to the nearest integer, ties to even, for [n >= 0] and
    [d > 0]. *)
Definition round_half_even (n d : Z) : Z :=
  let q := n / d in
  match 2 * (n mod d) ?= d with
  | Lt => q
  | Gt => q + 1
  | Eq => if Z.even q then q else q + 1
  end.

(** Mantissa and exponent of the binary64 number nearest to [n / d], for
    positive [n] and [d]: the exponent is that of the binade of [n / d], and
    not below the least exponent (subnormal numbers). *)
Definition nearest_ratio (n d : Z) : Z * Z :=
  let e := Z.max (ilog2 n d - 52) (-1074) in
  (round_half_even (n * 2 ^ Z.max 0 (- e)) (d * 2 ^ Z.max 0 e), e).

(** Mantissa and exponent of the binary64 number nearest to the square root
    of [n / d], for positive [n] and [d]. *)
Definition nearest_sqrt (n d : Z) : Z * Z :=
  let e := Z.max (ilog2 n d / 2 - 52) (-1074) in
  let n' := n * 4 ^ Z.max 0 (- e) in
  let d' := d * 4 ^ Z.max 0 e in
  let m := Z.sqrt (n' / d') in
  (match (2 * m + 1) ^ 2 * d' ?= 4 * n' with
   | Lt => m + 1
   | Gt => m
   | Eq => if Z.even m then m else m + 1
   end, e).

(** The float [m * 2^e]; [OverflowError] when its magnitude is [2^1024] or
    more. *)
Definition finite (me : Z * Z) : result Q :=
  let '(m, e) := me in
  if 2 ^ 1024 * 2 ^ Z.max 0 (- e) <=? Z.abs m * 2 ^ Z.max 0 e
  then Raise OverflowError
  else Ok (Qred (scale m e)).

(** [float(x)] for a [Fraction], that is [numerator / denominator] on Python
    ints: the quotient correctly rounded. *)
Definition of_fraction (x : Q) : result Q :=
  let x := Qred x in
  match Qnum x with
  | Z0 => Ok 0%Q
  | Zpos n => finite (nearest_ratio (Zpos n) (Zpos (Qden x)))
  | Zneg n =>
      let '(m, e) := nearest_ratio (Zpos n) (Zpos (Qden x)) in finite (- m, e)
  end.

(** [statistics._float_sqrt_of_frac(numerator, denominator)]: the square
    root of a fraction as a float, correctly rounded. *)
Definition sqrt_of_frac (x : Q) : result Q :=
  let x := Qred x in
  match Qnum x with
  | Z0 => Ok 0%Q
  | Zpos n => finite (nearest_sqrt (Zpos n) (Zpos (Qden x)))
  | Zneg n => Raise (ValueError "isqrt() argument must be nonnegative")
  end.

End Rounding.
End Float.

(** ** The [statistics] module, on lists of floats *)

Module PyStatistics.

(** [_sum(data)]: the exact sum of the data, as a fraction. *)
Definition exact_sum (data : list Q) : Q := fold_left Qplus data 0%Q.

(** [len(data)] as a fraction. *)
Definition count (data : list Q) : Q := inject_Z (Z.of_nat (List.length data)).

(** [statistics.mean(data)]: the exact sum, divided by the number of data,
    converted to a float. *)
Definition mean (data : list Q) : result Q :=
  match data with
  | [] => Raise StatisticsError
  | _ => Float.of_fraction (exact_sum data / count data)
  end.

(** [_ss(data)]: the exact sum of the squares of the deviations from the
    mean, computed from the sum [sx] and the sum of squares [sxx]. *)
Definition ss (data : list Q) : Q :=
  let sx := exact_sum data in
  let sxx := exact_sum (map (fun x => x * x)%Q data) in
  ((count data * sxx - sx * sx) / count data)%Q.

(** [statistics.stdev(data)] *)
Definition stdev (data : list Q) : result Q :=
  if (List.length data <? 2)%nat then Raise StatisticsError
  else Float.sqrt_of_frac (ss data / (count data - 1))%Q.

End PyStatistics.

(** ** benchmark/benchmark.py *)

Module Benchmark.

Definition RUNS : nat := 20.
Definition WARMUP : nat := 5.

Record language_config : Type := {
  dir : string;
  command_prefix : list string;
  file_pattern : string
}.

Definition LANGUAGE_CONFIGS : list (string * language_config) :=
  [ ("python",
     {| dir := "python";
        command_prefix := ["uv"; "run"; "python"];
        file_pattern := "main.py" |}) ].

(** [d.get(key)] on a dict kept in insertion order; also the lookup of a
    name in a directory. *)
Fixpoint lookup {A : Type} (key : string) (d : list (string * A)) : option A :=
  match d with
  | [] => None
  | (k, v) :: d' => if String.eqb k key then Some v else lookup key d'
  end.

(** *** The file tree under the project root *)

#[warnings="-register-all"] Inductive node : Type :=
| File
| Dir (entries : list (string * node)).

Definition directory : Type := list (string * node).

(** Paths of one directory compare as their last components do. *)
Definition name_leb (x y : string * node) : bool := String.leb (fst x) (fst y).

Lemma name_leb_total : forall x y, name_leb x y = true \/ name_leb y x = true.
Proof. intros x y. apply String.leb_total. Qed.

Module NameOrder <: TotalLeBool'.
Definition t : Type := (string * node)%type.
Definition leb : t -> t -> bool := name_leb.
Definition leb_total : forall x y, leb x y = true \/ leb y x = true :=
  name_leb_total.
End NameOrder.

Module NameSort := Sort NameOrder.

(** [sorted(lang_dir.glob("problem-*"))]: the entries whose name starts with
    [problem-], in ascending order of name. *)
Definition glob_problems (d : directory) : list (string * node) :=
  filter (fun e => String.prefix "problem-" (fst e)) d.

Definition sorted_paths (l : list (string * node)) : list (string * node) :=
  NameSort.sort l.

Record problem_entry : Type := {
  number : Z;
  path : string
}.

Definition join (a b : string) : string := a ++ "/" ++ b.

(** One turn of the loop of [discover_problems], lines 65-79. *)
Definition discover_step (config : language_config)
    (problems : list problem_entry) (e : string * node)
  : result (list problem_entry) :=
  let '(name, nd) := e in
  match nd with
  | File => Ok problems
  | Dir children =>
      match nth_error (Py.split "-" name) 1 with
      | None => Raise IndexError
      | Some problem_num =>
          match Py.int problem_num with
          | Ok n =>
              match lookup (file_pattern config) children with
              | Some _ =>
                  Ok (problems ++
                      [ {| number := n; path := join (dir config) name |} ])
              | None => Ok problems
              end
          | Raise (ValueError _) => Ok problems
          | Raise e => Raise e
          end
      end
  end.

Fixpoint discover_loop (config : language_config)
    (problems : list problem_entry) (l : list (string * node))
  : result (list problem_entry) :=
  match l with
  | [] => Ok problems
  | e :: l' =>
      match discover_step config problems e with
      | Ok problems' => discover_loop config problems' l'
      | Raise x => Raise x
      end
  end.

Definition discover_problems (language : string) (project_root : directory)
  : result (list problem_entry) :=
  match lookup language LANGUAGE_CONFIGS with
  | None => Ok []
  | Some config =>
      match lookup (dir config) project_root with
      | None => Ok []
      | Some File => Ok []
      | Some (Dir d) => discover_loop config [] (sorted_paths (glob_problems d))
      end
  end.

(** *** External processes and the clock *)

Inductive completed : Type :=
| Completed (returncode : Z) (stdout : string)
| NotLaunched.

(** What one [subprocess.run] does, and the difference of the two
    [time.perf_counter] readings taken around it. *)
Record invocation : Type := {
  process : completed;
  elapsed : Q
}.

(** The machine the harness runs on: the k-th process spawned since the start
    of the run, for each command line, and the wall clock at that point. *)
Record env : Type := {
  spawn : list string -> nat -> invocation;
  now : nat -> string
}.

(** [subprocess.run(cmd, stdout=PIPE, stderr=DEVNULL, check=True, text=True)] *)
Definition subprocess_run (p : completed) : result string :=
  match p with
  | NotLaunched => Raise OSError
  | Completed rc out => if (rc =? 0)%Z then Ok out else Raise (CalledProcessError rc)
  end.

(** The state is the number of processes spawned so far. *)
Definition run_command (E : env) (cmd : list string) (k : nat)
  : result string * nat :=
  match subprocess_run (process (spawn E cmd k)) with
  | Ok out => (Ok (Py.strip out), S k)
  | Raise e => (Raise e, S k)
  end.

(** *** Timing sampler *)

(** [statistics.mean] and [statistics.stdev] of the standard library, called
    on a non-empty list and on a list of at least two values; either call
    may raise.  The functions of CPython are [PyStatistics.mean] and
    [PyStatistics.stdev] (instance [python_statistics]). *)
Class Statistics : Type := {
  statistics_mean : list Q -> result Q;
  statistics_stdev : list Q -> result Q
}.

Definition python_statistics : Statistics :=
  {| statistics_mean := PyStatistics.mean;
     statistics_stdev := PyStatistics.stdev |}.

Definition Qltb (x y : Q) : bool := negb (Qle_bool y x).

(** Built-in [min] and [max] of a non-empty list: one pass, the running value
    is replaced when the next item is strictly smaller (greater). *)
Definition py_min (x : Q) (l : list Q) : Q :=
  fold_left (fun best item => if Qltb item best then item else best) l x.

Definition py_max (x : Q) (l : list Q) : Q :=
  fold_left (fun best item => if Qltb best item then item else best) l x.

Record stats : Type := {
  s_avg : Q;
  s_min : Q;
  s_max : Q;
  s_stdev : Q;
  s_answer : option string
}.

Definition inconsistent_output (answer output : string) : string :=
  "Inconsistent output detected: expected '" ++ answer ++ "', got '" ++ output ++ "'".

Section Sampler.
Context {S : Statistics}.
Variable E : env.
Variable cmd : list string.

  (** Lines 99-100. *)
Fixpoint warmup_loop (n : nat) (k : nat) : result unit * nat :=
    match n with
    | O => (Ok tt, k)
    | Datatypes.S n' =>
        match run_command E cmd k with
        | (Ok _, k') => warmup_loop n' k'
        | (Raise e, k') => (Raise e, k')
        end
    end.

  (** Lines 104-116. *)
Fixpoint measure_loop (n : nat) (times : list Q) (answer : option string)
      (k : nat) : result (list Q * option string) * nat :=
    match n with
    | O => (Ok (times, answer), k)
    | Datatypes.S n' =>
        match run_command E cmd k with
        | (Raise e, k') => (Raise e, k')
        | (Ok output, k') =>
            let times := times ++ [elapsed (spawn E cmd k)] in
            match answer with
            | None => measure_loop n' times (Some output) k'
            | Some a =>
                if negb (String.eqb a output)
                then (Raise (ValueError (inconsistent_output a output)), k')
                else measure_loop n' times answer k'
            end
        end
    end.

  (** Lines 118-124, the entries of the dict in their order;
      [statistics.mean] raises on no data. *)
Definition summarise (times : list Q) (answer : option string) : result stats :=
    match times with
    | [] => Raise StatisticsError
    | t :: ts =>
        match statistics_mean times with
        | Raise e => Raise e
        | Ok avg =>
            match (if (1 <? List.length times)%nat
                   then statistics_stdev times else Ok 0%Q) with
            | Raise e => Raise e
            | Ok sd =>
                Ok {| s_avg := avg;
                      s_min := py_min t ts;
                      s_max := py_max t ts;
                      s_stdev := sd;
                      s_answer := answer |}
            end
        end
    end.

Definition benchmark (runs warmup : nat) (k : nat) : result stats * nat :=
    match warmup_loop warmup k with
    | (Raise e, k') => (Raise e, k')
    | (Ok _, k') =>
        match measure_loop runs [] None k' with
        | (Raise e, k'') => (Raise e, k'')
        | (Ok (times, answer), k'') => (summarise times answer, k'')
        end
    end.
End Sampler.

(** *** Result store *)

(** The values that SQLite stores in an [INTEGER] column, and the Python
    ints that can be bound to a parameter: the signed 64-bit integers. *)
Definition in_int64 (z : Z) : bool := (- 2 ^ 63 <=? z)%Z && (z <? 2 ^ 63)%Z.

Record int64 : Type := {
  int64_val : Z;
  int64_range : in_int64 int64_val = true
}.

(** The column value of a Python int that has been bound.  A statement
    whose int is out of range raises at the binding (see [bound]) and stores
    nothing, so the value given here out of range is never stored. *)
Definition to_int64 (z : Z) : int64 :=
  match Bool.bool_dec (in_int64 z) true with
  | left H => {| int64_val := z; int64_range := H |}
  | right _ => {| int64_val := 0; int64_range := eq_refl |}
  end.

(** A row of table [benchmarks]; [answer] is the only column read as
    nullable ([answer IS NOT NULL], line 133). *)
Record row : Type := {
  problem_col : int64;
  language : string;
  min_time : Q;
  avg_time : Q;
  max_time : Q;
  stdev : Q;
  timestamp : string;
  answer : option string
}.

Definition problem (r : row) : Z := int64_val (problem_col r).

(** The rows in the order of their insertion (the order of [rowid]). *)
Definition table : Type := list row.

(** The database file: [None] until table [benchmarks] is created. *)
Definition database : Type := option table.

(** What a Python variable meant to hold a connection may hold. *)
Inductive handle : Type :=
| PyNone
| Connection.

(** Lines 32-51: connect, create the table when it is missing; the function
    has no [return], so the caller receives [None]. *)
Definition init_database (db : database) : handle * database :=
  let db' := match db with None => Some [] | Some t => Some t end in
  (PyNone, db').

(** Computations on the database file. *)
Definition DB (A : Type) : Type := database -> result A * database.

Definition ret {A} (a : A) : DB A := fun db => (Ok a, db).

Definition raise {A} (e : exn) : DB A := fun db => (Raise e, db).

Definition bind {A B} (c : DB A) (k : A -> DB B) : DB B :=
  fun db =>
    match c db with
    | (Ok a, db') => k a db'
    | (Raise e, db') => (Raise e, db')
    end.

Notation "x <- c ;; k" := (bind c (fun x => k))
  (at level 61, c at next level, right associativity).
Notation "c ;;; k" := (bind c (fun _ => k))
  (at level 61, right associativity).

(** [conn.cursor()] *)
Definition cursor (conn : handle) : DB unit :=
  match conn with
  | PyNone => raise (AttributeError "'NoneType' object has no attribute 'cursor'")
  | Connection => ret tt
  end.

(** [cursor.execute(SELECT ...)] followed by [fetchone()] or [fetchall()]. *)
Definition query {A} (q : table -> A) : DB A :=
  fun db =>
    match db with
    | None => (Raise OperationalError, db)
    | Some t => (Ok (q t), db)
    end.

(** [cursor.execute(INSERT or UPDATE ...)] followed by [conn.commit()]. *)
Definition execute (w : table -> result table) : DB unit :=
  fun db =>
    match db with
    | None => (Raise OperationalError, db)
    | Some t =>
        match w t with
        | Ok t' => (Ok tt, Some t')
        | Raise e => (Raise e, db)
        end
    end.

(** A statement with the Python int [p] among its parameters: the statement
    is prepared first (a missing table raises there), then [p] is bound,
    which raises [OverflowError] unless [p] fits a signed 64-bit integer. *)
Definition bound {A} (p : Z) (c : DB A) : DB A :=
  fun db =>
    match db with
    | None => c db
    | Some _ => if in_int64 p then c db else (Raise OverflowError, db)
    end.

Definition is_some {A} (o : option A) : bool :=
  match o with Some _ => true | None => false end.

Definition has_key (p : Z) (l : string) (r : row) : bool :=
  (problem r =? p)%Z && String.eqb (language r) l.

(** [WHERE problem = ? AND answer IS NOT NULL] *)
Definition answered (p : Z) (r : row) : bool :=
  (problem r =? p)%Z && is_some (answer r).

(** The row at which the search stops.  SQLite runs the search through the
    index of the primary key, which lists the rows of one problem in
    ascending order of [language] (compared byte by byte), and rows of equal
    key, which [insert] never makes, in the order of their insertion. *)
Fixpoint first_answered (p : Z) (t : table) : option row :=
  match t with
  | [] => None
  | r :: t' =>
      if answered p r
      then match first_answered p t' with
           | Some r' => if String.ltb (language r') (language r)
                        then Some r' else Some r
           | None => Some r
           end
      else first_answered p t'
  end.

(** [SELECT answer FROM benchmarks WHERE problem = ? AND answer IS NOT NULL
    LIMIT 1], then [fetchone()]. *)
Definition select_answer (p : Z) (t : table) : option string :=
  match first_answered p t with
  | Some r => answer r
  | None => None
  end.

(** [SELECT min_time FROM benchmarks WHERE problem = ? AND language = ?],
    then [fetchone()]. *)
Definition select_min_time (p : Z) (l : string) (t : table) : option Q :=
  option_map min_time (find (has_key p l) t).

(** [INSERT INTO benchmarks ...] under [PRIMARY KEY (problem, language)]. *)
Definition insert (r : row) (t : table) : result table :=
  if existsb (has_key (problem r) (language r)) t
  then Raise IntegrityError
  else Ok (t ++ [r]).

(** [UPDATE benchmarks SET ... WHERE problem = ? AND language = ?] *)
Definition update (r : row) (t : table) : result table :=
  Ok (map (fun old => if has_key (problem r) (language r) old then r else old) t).

Definition option_string_eqb (a b : option string) : bool :=
  match a, b with
  | Some x, Some y => String.eqb x y
  | None, None => true
  | _, _ => false
  end.

(** How an f-string shows a value that is a [str] or [None]. *)
Definition show (a : option string) : string :=
  match a with Some x => x | None => "None" end.

Definition answer_mismatch (p : Z) (expected : string) (got : option string) : string :=
  "Answer mismatch for problem " ++ Py.str p ++ ": expected '" ++ expected
  ++ "', got '" ++ show got ++ "'".

Definition row_of (p : Z) (l : string) (s : stats) (ts : string) : row :=
  {| problem_col := to_int64 p; language := l;
     min_time := s_min s; avg_time := s_avg s; max_time := s_max s;
     stdev := s_stdev s; timestamp := ts; answer := s_answer s |}.

(** Lines 127-194; [ts] is [datetime.datetime.now().isoformat()]. *)
Definition update_database (conn : handle) (p : Z) (l : string) (s : stats)
    (ts : string) : DB (bool * string) :=
  cursor conn ;;;
  existing_answer <- bound p (query (select_answer p)) ;;
  match existing_answer with
  | Some a =>
      if negb (option_string_eqb (s_answer s) (Some a))
      then raise (ValueError (answer_mismatch p a (s_answer s)))
      else ret tt
  | None => ret tt
  end ;;;
  existing <- bound p (query (select_min_time p l)) ;;
  match existing with
  | None =>
      bound p (execute (insert (row_of p l s ts))) ;;;
      ret (true, "new")
  | Some m =>
      if Qltb (s_min s) m
      then bound p (execute (update (row_of p l s ts))) ;;; ret (true, "improved")
      else ret (false, "slower")
  end.

(** [ORDER BY problem, language] *)
Definition key_leb (x y : row) : bool :=
  (problem x <? problem y)%Z
  || (problem x =? problem y)%Z && String.leb (language x) (language y).

Lemma key_leb_total : forall x y, key_leb x y = true \/ key_leb y x = true.
Proof.
  intros x y. unfold key_leb.
  destruct (Z.compare_spec (problem x) (problem y)) as [H | H | H].
  - rewrite H, Z.ltb_irrefl, Z.eqb_refl. simpl. apply String.leb_total.
  - left. apply Z.ltb_lt in H. now rewrite H.
  - right. apply Z.ltb_lt in H. now rewrite H.
Qed.

Module KeyOrder <: TotalLeBool'.
Definition t : Type := row.
Definition leb : t -> t -> bool := key_leb.
Definition leb_total : forall x y, leb x y = true \/ leb y x = true :=
  key_leb_total.
End KeyOrder.

Module KeySort := Sort KeyOrder.

(** A result row: the seven columns that [get_all_results] selects. *)
Definition result_row : Type := (Z * string * Q * Q * Q * Q * string)%type.

Definition columns (r : row) : result_row :=
  (problem r, language r, min_time r, avg_time r, max_time r, stdev r, timestamp r).

(** Lines 197-207: all rows, [ORDER BY problem, language]. *)
Definition get_all_results (conn : handle) : DB (list result_row) :=
  cursor conn ;;;
  query (fun t => map columns (KeySort.sort t)).

(** [conn.close()] *)
Definition close (conn : handle) : DB unit :=
  match conn with
  | PyNone => raise (AttributeError "'NoneType' object has no attribute 'close'")
  | Connection => ret tt
  end.

(** *** Orchestrator *)

(** The namespace returned by [parser.parse_args()]. *)
Record args : Type := {
  arg_language : option string;
  arg_problem : option Z
}.

(** What the run prints and writes, in order. *)
Inductive event : Type :=
| NoProblemsFound (language : string) (suffix : option Z)
| Running (number : Z) (language : string)
| ReportNew (t : Q)
| ReportImproved (t : Q)
| ReportNotFaster (t : Q)
| ReportFailed (e : exn)
| WroteCsv (results : list result_row)
| WroteMarkdown (results : list result_row)
| Summary (total new improved : nat).

(** The state threaded through [main]: processes spawned so far, the database
    file, the output so far and the three counters. *)
Record run : Type := {
  spawned : nat;
  store : database;
  printed : list event;
  total_benchmarks : nat;
  improved_count : nat;
  new_count : nat
}.

Definition start (db : database) : run :=
  {| spawned := 0; store := db; printed := [];
     total_benchmarks := 0; improved_count := 0; new_count := 0 |}.

Definition print (e : event) (r : run) : run :=
  {| spawned := spawned r; store := store r; printed := printed r ++ [e];
     total_benchmarks := total_benchmarks r;
     improved_count := improved_count r; new_count := new_count r |}.

Definition set_external (k : nat) (db : database) (r : run) : run :=
  {| spawned := k; store := db; printed := printed r;
     total_benchmarks := total_benchmarks r;
     improved_count := improved_count r; new_count := new_count r |}.

Definition count_benchmark (r : run) : run :=
  {| spawned := spawned r; store := store r; printed := printed r;
     total_benchmarks := Datatypes.S (total_benchmarks r);
     improved_count := improved_count r; new_count := new_count r |}.

Definition count_improved (r : run) : run :=
  {| spawned := spawned r; store := store r; printed := printed r;
     total_benchmarks := total_benchmarks r;
     improved_count := Datatypes.S (improved_count r); new_count := new_count r |}.

Definition count_new (r : run) : run :=
  {| spawned := spawned r; store := store r; printed := printed r;
     total_benchmarks := total_benchmarks r;
     improved_count := improved_count r; new_count := Datatypes.S (new_count r) |}.

(** Lines 210-239 and 242-260: each call rewrites its file from [results];
    the file written is recorded in the output of the run. *)
Definition export_csv (results : list result_row) (r : run) : run :=
  print (WroteCsv results) r.

Definition export_markdown (results : list result_row) (r : run) : run :=
  print (WroteMarkdown results) r.

Definition command (language : string) (config : language_config)
    (p : problem_entry) : list string :=
  if String.eqb language "python"
  then command_prefix config ++ [join (path p) (file_pattern config)]
  else command_prefix config ++ [path p].

Section Orchestrator.
Context {S : Statistics}.
Variable E : env.
Variable project_root : directory.
Variable a : args.
Variable conn : handle.

(** Lines 298-326: one problem; every exception raised by the sampler or the
    store is caught by [except Exception]. *)
Definition attempt (language : string) (config : language_config)
    (r : run) (p : problem_entry) : run :=
  let r := print (Running (number p) language) (count_benchmark r) in
  let cmd := command language config p in
  match benchmark E cmd RUNS WARMUP (spawned r) with
  | (Raise e, k) => print (ReportFailed e) (set_external k (store r) r)
  | (Ok st, k) =>
      match update_database conn (number p) language st (now E k) (store r) with
      | (Raise e, db) => print (ReportFailed e) (set_external k db r)
      | (Ok (_, status), db) =>
          let r := set_external k db r in
          if String.eqb status "new"
          then print (ReportNew (s_min st)) (count_new r)
          else if String.eqb status "improved"
          then print (ReportImproved (s_min st)) (count_improved r)
          else print (ReportNotFaster (s_min st)) r
      end
  end.

(** Line 277. *)
Definition languages : list string :=
  match arg_language a with
  | Some l => if Py.truthy l then [l] else map fst LANGUAGE_CONFIGS
  | None => map fst LANGUAGE_CONFIGS
  end.

(** Lines 286-287. *)
Definition select (problems : list problem_entry) : list problem_entry :=
  match arg_problem a with
  | Some n => filter (fun p => (number p =? n)%Z) problems
  | None => problems
  end.

Definition suffix : option Z :=
  match arg_problem a with
  | Some n => if (n =? 0)%Z then None else Some n
  | None => None
  end.

(** Lines 283-326. *)
Fixpoint language_loop (ls : list string) (r : run) : result unit * run :=
  match ls with
  | [] => (Ok tt, r)
  | language :: ls' =>
      match discover_problems language project_root with
      | Raise e => (Raise e, r)
      | Ok problems =>
          match select problems with
          | [] => language_loop ls' (print (NoProblemsFound language suffix) r)
          | problems' =>
              match lookup language LANGUAGE_CONFIGS with
              | None => (Raise (KeyError language), r)
              | Some config =>
                  language_loop ls' (fold_left (attempt language config) problems' r)
              end
          end
      end
  end.

(** Lines 276-341, with the handle bound at line 274 as a variable. *)
Definition orchestrate (db : database) : result unit * run :=
  match language_loop languages (start db) with
  | (Raise e, r) => (Raise e, r)
  | (Ok _, r) =>
      match get_all_results conn (store r) with
      | (Raise e, db') => (Raise e, set_external (spawned r) db' r)
      | (Ok results, db') =>
          let r := export_markdown results
                     (export_csv results (set_external (spawned r) db' r)) in
          match close conn (store r) with
          | (Raise e, db'') => (Raise e, set_external (spawned r) db'' r)
          | (Ok _, db'') =>
              (Ok tt,
               print (Summary (total_benchmarks r) (new_count r) (improved_count r))
                 (set_external (spawned r) db'' r))
          end
      end
  end.
End Orchestrator.

(** Lines 263-341. *)
Definition main {S : Statistics} (E : env) (project_root : directory)
    (a : args) (db : database) : result unit * run :=
  let '(conn, db') := init_database db in
  orchestrate E project_root a conn db'.

(** The exit status of the interpreter: 0 when [main] returns, 1 when an
    exception reaches the top level. *)
Definition exit_code (r : result unit) : Z :=
  match r with Ok _ => 0%Z | Raise _ => 1%Z end.

Definition exported (r : run) : bool :=
  existsb (fun e => match e with WroteCsv _ => true | _ => false end) (printed r)
  && existsb (fun e => match e with WroteMarkdown _ => true | _ => false end) (printed r).

End Benchmark.

(** ** python/problem-3/main.py *)

Module Problem3.

(** [int(a / b)]: true division, then truncation, for [- 2^53 < a < 2^53]
    and [b > 0] such that [b] is 2 or divides [a], as in the two calls of
    the script: there the float quotient is exact, so that it truncates to
    the integer quotient.  Every value the script divides is at most
    600851475143.  Beyond [2^53] the float quotient is rounded, and from
    [2^1024] on the division raises [OverflowError]; the statements about
    arbitrary numbers are made below [2^53]. *)
Definition int_truediv (a b : Z) : Z := Z.quot a b.

(** [s.add(x)] on a set kept as a duplicate-free list. *)
Definition set_add (x : Z) (s : list Z) : list Z :=
  if existsb (Z.eqb x) s then s else s ++ [x].

(** A loop given by its step, run for at most [2 ^ d] steps, stopping at the
    first result. *)
Fixpoint iterate {St R : Type} (step : St -> St + R) (d : nat) (s : St) : St + R :=
  match d with
  | O => step s
  | S d' =>
      match iterate step d' s with
      | inl s' => iterate step d' s'
      | inr r => inr r
      end
  end.

(** One turn of [for n in range(2, stop): if factor % n == 0: ... break]. *)
Definition range_step (factor stop n : Z) : Z + option Z :=
  if (stop <=? n)%Z then inr None
  else if (factor mod n =? 0)%Z then inr (Some n)
  else inl (n + 1)%Z.

(** Lines 9-14: the [n] at which the inner loop breaks, if it does. *)
Definition first_divisor (factor : Z) : option Z :=
  let stop := int_truediv factor 2 in
  match iterate (range_step factor stop) (Z.to_nat (Z.log2_up stop)) 2%Z with
  | inr r => r
  | inl _ => None
  end.

(** Lines 8-14 for one [factor]: the state is [updated_factors] and
    [factor_found]. *)
Definition visit (state : list Z * bool) (factor : Z) : list Z * bool :=
  match first_divisor factor with
  | Some n => (set_add (int_truediv factor n) (set_add n (fst state)), true)
  | None => state
  end.

(** Lines 5-17; [None] when the fuel runs out before the loop exits. *)
Fixpoint while_loop (fuel : nat) (factors : list Z) : option (list Z) :=
  match fuel with
  | O => None
  | S fuel' =>
      let '(updated_factors, factor_found) := fold_left visit factors ([], false) in
      let factors' :=
        match updated_factors with [] => factors | _ => updated_factors end in
      if factor_found then while_loop fuel' factors' else Some factors'
  end.

(** The order of [sorted(..., reverse=True)]. *)
Definition descending_leb (x y : Z) : bool := (y <=? x)%Z.

Lemma descending_leb_total :
  forall x y, descending_leb x y = true \/ descending_leb y x = true.
Proof. intros x y. unfold descending_leb. rewrite !Z.leb_le. lia. Qed.

Module Descending <: TotalLeBool'.
Definition t : Type := Z.
Definition leb : t -> t -> bool := descending_leb.
Definition leb_total : forall x y, leb x y = true \/ leb y x = true :=
  descending_leb_total.
End Descending.

Module DescendingSort := Sort Descending.

(** What a script leaves behind: how it ended and the lines on its standard
    output. *)
Definition script_run : Type := (result unit * list string)%type.

(** Lines 1-20. *)
Definition main (fuel : nat) : option script_run :=
  match while_loop fuel [600851475143%Z] with
  | None => None
  | Some factors =>
      match DescendingSort.sort factors with
      | [] => Some (Raise IndexError, [])
      | x :: _ => Some (Ok tt, [Py.str x])
      end
  end.

End Problem3.

(** ** python/problem-4/main.py *)

Module Problem4.

(** [s[::-1]] *)
Definition reversed (s : string) : string :=
  string_of_list_ascii (rev (list_ascii_of_string s)).

(** Lines 16-22. *)
Definition check_palindrome (num : Z) : bool :=
  let num_str := Py.str num in
  String.eqb num_str (reversed num_str).

(** Lines 6-11: [for j in range(j, 0, -1)] with its [break]. *)
Fixpoint inner_loop (j : nat) (i : Z) (largest : Z) : Z :=
  match j with
  | O => largest
  | S j' =>
      let prod := (i * Z.of_nat j)%Z in
      if (prod <=? largest)%Z then largest
      else inner_loop j' i (if check_palindrome prod then prod else largest)
  end.

(** Lines 5-11: [for i in range(i, 0, -1)]. *)
Fixpoint outer_loop (i : nat) (num2 : nat) (largest : Z) : Z :=
  match i with
  | O => largest
  | S i' => outer_loop i' num2 (inner_loop num2 (Z.of_nat i) largest)
  end.

(** Lines 1-13. *)
Definition main : Problem3.script_run :=
  let num1 := 999%nat in
  let num2 := 999%nat in
  let largest := outer_loop num1 num2 0%Z in
  (Ok tt, [Py.str largest]).

End Problem4.

(** * Vocabulary of the statements *)

Import Benchmark.

(** The value [run_command] returns for the [i]-th process, when that process
    is launched and exits with status 0. *)
Definition output_of (E : env) (cmd : list string) (i : nat) : option string :=
  match subprocess_run (process (spawn E cmd i)) with
  | Ok out => Some (Py.strip out)
  | Raise _ => None
  end.

(** The durations measured around processes [first], ..., [first + n - 1]. *)
Definition durations (E : env) (cmd : list string) (first n : nat) : list Q :=
  map (fun i => elapsed (spawn E cmd i)) (seq first n).

Definition Qsum (l : list Q) : Q := fold_right Qplus 0%Q l.

(** The arithmetic mean: the sum divided by the number of values. *)
Definition exact_mean (l : list Q) : Q :=
  (Qsum l / inject_Z (Z.of_nat (List.length l)))%Q.

(** The sample variance: the sum of the squared deviations from the
    arithmetic mean, divided by the number of values less one. *)
Definition sample_variance (l : list Q) : Q :=
  let m := exact_mean l in
  (Qsum (map (fun x => (x - m) * (x - m)) l)
   / inject_Z (Z.of_nat (List.length l) - 1))%Q.

(** A rendering of the two library functions without rounding to floats,
    to run the sampler on concrete inputs where the rounding does not
    matter: the exact mean, and the square root of the sample variance cut
    after nine decimals. *)
Definition sqrt_9 (q : Q) : Q :=
  Qmake (Z.sqrt (Qnum q * 10 ^ 18 / Zpos (Qden q))) (10 ^ 9).

Definition rational_statistics : Statistics :=
  {| statistics_mean := fun l => Ok (exact_mean l);
     statistics_stdev := fun l => Ok (sqrt_9 (sample_variance l)) |}.

(** The finite binary64 numbers. *)
Definition binary64 (f : Q) : Prop :=
  exists m e : Z,
    (Z.abs m < 2 ^ 53)%Z /\ (-1074 <= e <= 971)%Z
    /\ (f == inject_Z m * 2 ^ e)%Q.

(** The largest binary64 number. *)
Definition max_float : Q := inject_Z ((2 ^ 53 - 1) * 2 ^ 971).

(** [f] is a binary64 number nearest to [x]. *)
Definition nearest_binary64 (x f : Q) : Prop :=
  binary64 f /\ forall g, binary64 g -> (Qabs (f - x) <= Qabs (g - x))%Q.

(** [f] is a non-negative binary64 number nearest to the square root of
    [v]: the midpoint of [f] and a binary64 number below it is at most the
    root, the midpoint of [f] and one above it is at least the root. *)
Definition nearest_binary64_sqrt (v f : Q) : Prop :=
  binary64 f /\ (0 <= f)%Q
  /\ forall g, binary64 g ->
       ((g < f -> f + g <= 0 \/ (f + g) * (f + g) <= 4 * v)
        /\ (f < g -> 4 * v <= (f + g) * (f + g)))%Q.

(** A machine on which every process prints [out] and the [i]-th process
    takes [1 / 2^i] seconds. *)
Definition halving (out : string) : env :=
  {| spawn := fun _ i =>
       {| process := Completed 0 out; elapsed := 1 # Pos.of_nat (2 ^ i) |};
     now := fun _ => "2025-01-01T00:00:00" |}.

(** A machine on which every process prints [out] and takes [d] seconds. *)
Definition steady (out : string) (d : Q) : env :=
  {| spawn := fun _ _ => {| process := Completed 0 out; elapsed := d |};
     now := fun _ => "2025-01-01T00:00:00" |}.

(** A machine on which the processes print [out] until the [n]-th one, which
    prints [out'], as do the later ones. *)
Definition drifting (out out' : string) (n : nat) : env :=
  {| spawn := fun _ i =>
       {| process := Completed 0 (if (i <? n)%nat then out else out');
          elapsed := Qmake (Z.of_nat i + 1) 100 |};
     now := fun _ => "2025-01-01T00:00:00" |}.

(** Stored answers of one problem agree wherever they are not NULL. *)
Definition answers_agree (t : table) : Prop :=
  forall r r' a a',
    In r t -> In r' t -> problem r = problem r' ->
    answer r = Some a -> answer r' = Some a' -> a = a'.

(** The non-NULL answers stored for problem [p] agree with one another. *)
Definition agree_on (p : Z) (t : table) : Prop :=
  forall r r' a a',
    In r t -> In r' t -> problem r = p -> problem r' = p ->
    answer r = Some a -> answer r' = Some a' -> a = a'.

(** The cross-record invariant: the records of one problem carry one answer. *)
Definition one_answer_per_problem (t : table) : Prop :=
  forall r r', In r t -> In r' t -> problem r = problem r' -> answer r = answer r'.

(** No stored answer of problem [p] conflicts with the answer of [s]. *)
Definition no_conflict (p : Z) (s : stats) (t : table) : Prop :=
  forall r, In r t -> problem r = p -> answer r <> None -> answer r = s_answer s.

(** The tables that successful calls of [update_database] build from the
    empty table, with statistics that carry an answer (as those returned by
    [benchmark] do); a scan may meet the rows in any order. *)
Inductive reachable : table -> Prop :=
| reach_empty : reachable []
| reach_call (t t' : table) (p : Z) (l : string) (s : stats) (ts : string)
    (status : bool * string) :
    reachable t ->
    s_answer s <> None ->
    update_database Connection p l s ts (Some t) = (Ok status, Some t') ->
    reachable t'
| reach_scan (t t' : table) :
    reachable t -> Permutation t t' -> reachable t'.

(** The tables that successful calls of [update_database] build from the
    empty table, whatever the statistics. *)
Inductive written : table -> Prop :=
| written_empty : written []
| written_call (t t' : table) (p : Z) (l : string) (s : stats) (ts : string)
    (status : bool * string) :
    written t ->
    update_database Connection p l s ts (Some t) = (Ok status, Some t') ->
    written t'.

(** The table after [UPDATE ... WHERE problem = p AND language = l]: the rows
    with that key hold the new values, in place. *)
Definition replace_row (p : Z) (l : string) (new : row) (t : table) : table :=
  map (fun old => if has_key p l old then new else old) t.

(** Sample data. *)
Definition sample_stats (m : Q) (a : string) : stats :=
  {| s_avg := m; s_min := m; s_max := m; s_stdev := 0%Q; s_answer := Some a |}.

Definition sample_row (p : Z) (l : string) (m : Q) (a : string) : row :=
  row_of p l (sample_stats m a) "2025-01-01T00:00:00".

(** The entry that the loop of [discover_problems] adds for a directory
    entry: the entry is a directory, the text between its first and second
    dash is accepted by [int], and the entry-point file is inside. *)
Definition candidate (config : language_config) (e : string * node)
  : option problem_entry :=
  match snd e, nth_error (Py.split "-" (fst e)) 1 with
  | Dir children, Some field =>
      match Py.int field, lookup (file_pattern config) children with
      | Ok n, Some _ =>
          Some {| number := n; path := join (dir config) (fst e) |}
      | _, _ => None
      end
  | _, _ => None
  end.

Definition candidates (config : language_config) (l : list (string * node))
  : list problem_entry :=
  flat_map (fun e => match candidate config e with Some p => [p] | None => [] end) l.

(** The naming convention as the specification words it: [problem-] followed
    by decimal digits and nothing else. *)
Definition problem_integer_name (name : string) : bool :=
  String.prefix "problem-" name
  && negb (String.length name =? 8)%nat
  && forallb (fun c => is_some (Py.digit_val c))
       (list_ascii_of_string (substring 8 (String.length name - 8) name)).

(** Sample trees. *)
Definition script_dir : node := Dir [("main.py", File)].

Definition sample_root : directory :=
  [ ("benchmark", Dir [("benchmark.py", File)]);
    ("python",
     Dir [ ("problem-abc", script_dir);
           ("problem-4", script_dir);
           ("problem-3", script_dir) ]) ].

Definition odd_root : directory :=
  [ ("python",
     Dir [ ("problem-3-old", script_dir);
           ("problem-10", script_dir) ]) ].

(** The run has written neither report so far. *)
Definition no_report (r : run) : Prop :=
  forall e, In e (printed r) ->
    match e with WroteCsv _ | WroteMarkdown _ => False | _ => True end.

(** [c in s] *)
Fixpoint contains (c : ascii) (s : string) : bool :=
  match s with
  | EmptyString => false
  | String a s' => Ascii.eqb a c || contains c s'
  end.

(** How many printed lines are of a given kind. *)
Definition count_events (f : event -> bool) (l : list event) : nat :=
  List.length (filter f l).

Definition is_running (e : event) : bool :=
  match e with Running _ _ => true | _ => false end.

Definition is_new (e : event) : bool :=
  match e with ReportNew _ => true | _ => false end.

Definition is_improved (e : event) : bool :=
  match e with ReportImproved _ => true | _ => false end.

Definition is_not_faster (e : event) : bool :=
  match e with ReportNotFaster _ => true | _ => false end.

Definition is_failed (e : event) : bool :=
  match e with ReportFailed _ => true | _ => false end.

(** The counters of a run agree with what it has printed, and every
    [Running] line has got its outcome line. *)
Definition tally (r : run) : Prop :=
  total_benchmarks r = count_events is_running (printed r)
  /\ new_count r = count_events is_new (printed r)
  /\ improved_count r = count_events is_improved (printed r)
  /\ count_events is_running (printed r)
     = (count_events is_new (printed r) + count_events is_improved (printed r)
        + count_events is_not_faster (printed r)
        + count_events is_failed (printed r))%nat.

(** [v] is a palindrome that is the product of a number in [1..n1] and a
    number in [1..n2]. *)
Definition palindrome_product (n1 n2 : nat) (v : Z) : Prop :=
  exists i j : nat,
    (1 <= i <= n1)%nat /\ (1 <= j <= n2)%nat
    /\ v = (Z.of_nat i * Z.of_nat j)%Z
    /\ Problem4.check_palindrome v = true.

(** The greatest element of a list of integers, 0 for the empty list. *)
Definition lmax (l : list Z) : Z := fold_right Z.max 0%Z l.

(** * Properties *)

(** ** Python primitives on samples *)

Example int_3 : Py.int "3" = Ok 3%Z.
Proof. reflexivity. Qed.

Example int_padded : Py.int " +1_0 " = Ok 10%Z.
Proof. reflexivity. Qed.

Example int_separator : is_ok (Py.int (String "028" "7")) = false.
Proof. reflexivity. Qed.

Example int_abc : is_ok (Py.int "abc") = false.
Proof. reflexivity. Qed.

Example int_empty : is_ok (Py.int "") = false.
Proof. reflexivity. Qed.

Example int_trailing_underscore : is_ok (Py.int "1_") = false.
Proof. reflexivity. Qed.

Example split_name : Py.split "-" "problem-3-old" = ["problem"; "3"; "old"].
Proof. reflexivity. Qed.

Example strip_answer : Py.strip (String "010" " 6857 " ++ String "010" "") = "6857".
Proof. reflexivity. Qed.

Example str_negative : Py.str (-42) = "-42".
Proof. reflexivity. Qed.

Example palindrome_9009 : Problem4.check_palindrome 9009 = true.
Proof. reflexivity. Qed.

Example palindrome_9010 : Problem4.check_palindrome 9010 = false.
Proof. reflexivity. Qed.

(** ** Floating-point rounding *)

Section RoundingFacts.
Local Open Scope Z_scope.

Lemma Qpow2_inject (e : Z) : 0 <= e -> (inject_Z (2 ^ e) == 2 ^ e)%Q.
Proof. intros H. now rewrite Zpower_Qpower. Qed.

Lemma Qpow2_pos (e : Z) : (0 < 2 ^ e)%Q.
Proof. apply Qpower_0_lt. reflexivity. Qed.

Lemma Qpow2_add (a b : Z) : (2 ^ (a + b) == 2 ^ a * 2 ^ b)%Q.
Proof. apply Qpower_plus. discriminate. Qed.

Lemma Qpow2_le (a b : Z) : a <= b -> (2 ^ a <= 2 ^ b)%Q.
Proof. intros H. apply Qpower_le_compat_l; [exact H | discriminate]. Qed.

Lemma Qpow2_lt (a b : Z) : a < b -> (2 ^ a < 2 ^ b)%Q.
Proof. intros H. apply Qpower_lt_compat_l; [exact H | reflexivity]. Qed.

Lemma Qpow2_max (e : Z) :
  (inject_Z (2 ^ Z.max 0 e) == 2 ^ e * inject_Z (2 ^ Z.max 0 (- e)))%Q.
Proof.
  destruct (Z_le_gt_dec 0 e) as [H | H].
  - rewrite (Z.max_r 0 e), (Z.max_l 0 (- e)) by lia.
    rewrite Qpow2_inject by exact H. change (inject_Z (2 ^ 0)) with 1%Q. ring.
  - rewrite (Z.max_l 0 e), (Z.max_r 0 (- e)) by lia.
    rewrite (Qpow2_inject (- e)) by lia.
    pose proof (Qpow2_add e (- e)) as H2. replace (e + - e) with 0 in H2 by lia.
    rewrite <- H2. reflexivity.
Qed.

Lemma scale_spec (m e : Z) : (Float.scale m e == inject_Z m * 2 ^ e)%Q.
Proof.
  unfold Float.scale. destruct (0 <=? e) eqn:He.
  - apply Z.leb_le in He. rewrite inject_Z_mult, Qpow2_inject by exact He. reflexivity.
  - apply Z.leb_gt in He.
    assert (Hp : 0 < 2 ^ (- e)) by (apply Z.pow_pos_nonneg; lia).
    rewrite Qmake_Qdiv. rewrite Z2Pos.id by exact Hp.
    rewrite Qpow2_inject by lia. rewrite Qpower_opp. unfold Qdiv.
    rewrite Qinv_involutive. reflexivity.
Qed.

(** Rounding a quotient of integers to the nearest integer. *)
Lemma round_half_even_spec (n d : Z) :
  0 < d ->
  let m := Float.round_half_even n d in
  2 * m * d - d <= 2 * n <= 2 * m * d + d.
Proof.
  intros Hd. unfold Float.round_half_even.
  pose proof (Z.div_mod n d ltac:(lia)) as Hdm.
  pose proof (Z.mod_pos_bound n d Hd) as Hr.
  set (q := n / d) in *. set (r := n mod d) in *.
  assert (Hq : d * q = q * d) by ring.
  destruct (Z.compare_spec (2 * r) d) as [H | H | H];
    [destruct (Z.even q) |..]; cbn zeta; nia.
Qed.

Lemma round_half_even_le (n d hi : Z) :
  0 < d -> n <= hi * d -> Float.round_half_even n d <= hi.
Proof.
  intros Hd H. pose proof (round_half_even_spec n d Hd) as Hs. cbn zeta in Hs.
  unfold Float.round_half_even in *.
  pose proof (Z.div_mod n d ltac:(lia)) as Hdm.
  pose proof (Z.mod_pos_bound n d Hd) as Hr.
  set (q := n / d) in *. set (r := n mod d) in *.
  assert (Hq : q <= hi) by nia.
  destruct (Z.compare_spec (2 * r) d) as [Hc | Hc | Hc];
    [destruct (Z.even q) |..]; try lia.
  - assert (q < hi) by nia. lia.
  - assert (q < hi) by nia. lia.
Qed.

Lemma round_half_even_ge (n d lo : Z) :
  0 < d -> lo * d <= n -> lo <= Float.round_half_even n d.
Proof.
  intros Hd H. unfold Float.round_half_even.
  pose proof (Z.div_mod n d ltac:(lia)) as Hdm.
  pose proof (Z.mod_pos_bound n d Hd) as Hr.
  set (q := n / d) in *. set (r := n mod d) in *.
  assert (Hq : lo <= q) by nia.
  destruct (Z.compare_spec (2 * r) d) as [Hc | Hc | Hc];
    [destruct (Z.even q) |..]; lia.
Qed.

Lemma Qpow2_max_pos (e : Z) : (0 < inject_Z (2 ^ Z.max 0 e))%Q.
Proof.
  rewrite Qpow2_inject by lia. apply Qpow2_pos.
Qed.

Lemma scaled_le (a b e : Z) :
  a * 2 ^ Z.max 0 e <= b * 2 ^ Z.max 0 (- e)
  <-> (inject_Z a * 2 ^ e <= inject_Z b)%Q.
Proof.
  rewrite Zle_Qle, !inject_Z_mult, (Qpow2_max e).
  pose proof (Qpow2_max_pos (- e)) as Hp.
  set (P := inject_Z (2 ^ Z.max 0 (- e))) in *.
  set (A := inject_Z a). set (B := inject_Z b). set (K := (2 ^ e)%Q).
  split; intros H.
  - apply (Qmult_le_r _ _ P Hp). lra.
  - apply (Qmult_le_r _ _ P Hp) in H. lra.
Qed.

Lemma scaled_lt (a b e : Z) :
  a * 2 ^ Z.max 0 e < b * 2 ^ Z.max 0 (- e)
  <-> (inject_Z a * 2 ^ e < inject_Z b)%Q.
Proof.
  rewrite Zlt_Qlt, !inject_Z_mult, (Qpow2_max e).
  pose proof (Qpow2_max_pos (- e)) as Hp.
  set (P := inject_Z (2 ^ Z.max 0 (- e))) in *.
  set (A := inject_Z a). set (B := inject_Z b). set (K := (2 ^ e)%Q).
  split; intros H.
  - apply (Qmult_lt_r _ _ P Hp). lra.
  - apply (Qmult_lt_r _ _ P Hp) in H. lra.
Qed.

Lemma scaled_gt (a b e : Z) :
  b * 2 ^ Z.max 0 (- e) < a * 2 ^ Z.max 0 e
  <-> (inject_Z b < inject_Z a * 2 ^ e)%Q.
Proof.
  rewrite Zlt_Qlt, !inject_Z_mult, (Qpow2_max e).
  pose proof (Qpow2_max_pos (- e)) as Hp.
  set (P := inject_Z (2 ^ Z.max 0 (- e))) in *.
  set (A := inject_Z a). set (B := inject_Z b). set (K := (2 ^ e)%Q).
  split; intros H.
  - apply (Qmult_lt_r _ _ P Hp). lra.
  - apply (Qmult_lt_r _ _ P Hp) in H. lra.
Qed.

Lemma scaled_ge (a b e : Z) :
  b * 2 ^ Z.max 0 (- e) <= a * 2 ^ Z.max 0 e
  <-> (inject_Z b <= inject_Z a * 2 ^ e)%Q.
Proof.
  rewrite Zle_Qle, !inject_Z_mult, (Qpow2_max e).
  pose proof (Qpow2_max_pos (- e)) as Hp.
  set (P := inject_Z (2 ^ Z.max 0 (- e))) in *.
  set (A := inject_Z a). set (B := inject_Z b). set (K := (2 ^ e)%Q).
  split; intros H.
  - apply (Qmult_le_r _ _ P Hp). lra.
  - apply (Qmult_le_r _ _ P Hp) in H. lra.
Qed.

Lemma log2_Q (n : Z) :
  0 < n -> (2 ^ Z.log2 n <= inject_Z n < 2 ^ (Z.log2 n + 1))%Q.
Proof.
  intros H. pose proof (Z.log2_spec n H) as [Hl Hu].
  pose proof (Z.log2_nonneg n) as Hn.
  rewrite <- !Qpow2_inject by lia. rewrite <- Zle_Qle, <- Zlt_Qlt.
  split; [exact Hl | exact Hu].
Qed.

(** [Float.ilog2 n d] is the integer part of the binary logarithm of [n / d]. *)
Lemma ilog2_spec (n d : Z) :
  0 < n -> 0 < d ->
  (inject_Z d * 2 ^ Float.ilog2 n d <= inject_Z n
   /\ inject_Z n < inject_Z d * 2 ^ (Float.ilog2 n d + 1))%Q.
Proof.
  intros Hn Hd. unfold Float.ilog2.
  pose proof (log2_Q n Hn) as [Hnl Hnu]. pose proof (log2_Q d Hd) as [Hdl Hdu].
  set (a := Z.log2 n) in *. set (b := Z.log2 d) in *.
  pose proof (Qpow2_pos (a - b)) as Hk.
  pose proof (Qpow2_pos (a - b - 1)) as Hk1.
  pose proof (Qpow2_pos (a - b + 1)) as Hk2.
  assert (Ha1 : (2 ^ (a + 1) == 2 ^ (a - b + 1) * 2 ^ b)%Q)
    by (rewrite <- Qpow2_add; now replace (a - b + 1 + b) with (a + 1) by lia).
  assert (Ha2 : (2 ^ a == 2 ^ (a - b - 1) * 2 ^ (b + 1))%Q)
    by (rewrite <- Qpow2_add; now replace (a - b - 1 + (b + 1)) with a by lia).
  destruct (d * 2 ^ Z.max 0 (a - b) <=? n * 2 ^ Z.max 0 (- (a - b))) eqn:Ht.
  - apply Z.leb_le, scaled_le in Ht. split; [exact Ht |].
    rewrite Ha1 in Hnu. nra.
  - apply Z.leb_gt, scaled_gt in Ht.
    replace (a - b - 1 + 1) with (a - b) by lia. split; [| lra].
    rewrite Ha2 in Hnl. nra.
Qed.

(** The mantissa and exponent chosen for a positive quotient [x = n / d]:
    the exponent is that of the binade of [x], or the least exponent, and
    the mantissa is [x / 2^e] rounded to the nearest integer. *)
Lemma nearest_ratio_spec (n d : Z) (x : Q) :
  0 < n -> 0 < d -> (x * inject_Z d == inject_Z n)%Q ->
  let m := fst (Float.nearest_ratio n d) in
  let e := snd (Float.nearest_ratio n d) in
  -1074 <= e
  /\ 0 <= m <= 2 ^ 53
  /\ (e = -1074 \/ (2 ^ 52 <= m /\ (2 ^ (52 + e) <= x)%Q))
  /\ (x < 2 ^ (53 + e))%Q
  /\ ((2 * inject_Z m - 1) * 2 ^ e <= 2 * x <= (2 * inject_Z m + 1) * 2 ^ e)%Q.
Proof.
  intros Hn Hd Hx. unfold Float.nearest_ratio. cbn [fst snd].
  destruct (ilog2_spec n d Hn Hd) as [Hlo Hhi].
  set (k := Float.ilog2 n d) in *.
  set (e := Z.max (k - 52) (-1074)).
  assert (He : -1074 <= e) by lia.
  assert (HD : (0 < inject_Z d)%Q)
    by (change 0%Q with (inject_Z 0); now rewrite <- Zlt_Qlt).
  pose proof (Qpow2_pos e) as Hpe.
  assert (Hd' : 0 < d * 2 ^ Z.max 0 e)
    by (apply Z.mul_pos_pos; [exact Hd | apply Z.pow_pos_nonneg; lia]).
  assert (Hup : (x < 2 ^ (53 + e))%Q).
  { assert (H1 : (2 ^ (k + 1) <= 2 ^ (53 + e))%Q) by (apply Qpow2_le; lia).
    pose proof (Qpow2_pos (k + 1)). nra. }
  assert (H53 : (2 ^ (53 + e) == inject_Z (2 ^ 53) * 2 ^ e)%Q)
    by (rewrite Qpow2_add, <- (Qpow2_inject 53) by lia; reflexivity).
  assert (H52 : (2 ^ (52 + e) == inject_Z (2 ^ 52) * 2 ^ e)%Q)
    by (rewrite Qpow2_add, <- (Qpow2_inject 52) by lia; reflexivity).
  set (n' := n * 2 ^ Z.max 0 (- e)). set (d' := d * 2 ^ Z.max 0 e) in *.
  split; [exact He |]. split; [| split; [| split; [exact Hup |]]].
  - split.
    + apply round_half_even_ge; [exact Hd' |].
      unfold n'. pose proof (Z.pow_pos_nonneg 2 (Z.max 0 (- e))). nia.
    + apply round_half_even_le; [exact Hd' |].
      unfold n', d'. apply Z.lt_le_incl.
      replace (2 ^ 53 * (d * 2 ^ Z.max 0 e)) with ((2 ^ 53 * d) * 2 ^ Z.max 0 e)
        by ring.
      apply scaled_gt. rewrite inject_Z_mult. rewrite H53 in Hup. nra.
  - destruct (Z.eq_dec e (-1074)) as [-> | Hne]; [now left |]. right.
    assert (Hek : e = k - 52) by lia.
    assert (Hlow : (2 ^ (52 + e) <= x)%Q).
    { replace (52 + e) with k by lia. pose proof (Qpow2_pos k). nra. }
    split; [| exact Hlow].
    apply round_half_even_ge; [exact Hd' |].
    unfold n', d'.
    replace (2 ^ 52 * (d * 2 ^ Z.max 0 e)) with ((2 ^ 52 * d) * 2 ^ Z.max 0 e)
      by ring.
    apply scaled_le. rewrite inject_Z_mult. rewrite H52 in Hlow. nra.
  - pose proof (round_half_even_spec n' d' Hd') as Hr. cbn zeta in Hr.
    set (m := Float.round_half_even n' d') in *.
    destruct Hr as [Hr1 Hr2].
    assert (Hq1 : (2 * m + -1) * d * 2 ^ Z.max 0 e <= (2 * n) * 2 ^ Z.max 0 (- e))
      by (unfold n', d' in Hr1; nia).
    assert (Hq2 : (2 * n) * 2 ^ Z.max 0 (- e) <= (2 * m + 1) * d * 2 ^ Z.max 0 e)
      by (unfold n', d' in Hr2; nia).
    apply scaled_le in Hq1. apply scaled_ge in Hq2.
    rewrite !inject_Z_mult in Hq1, Hq2.
    rewrite inject_Z_plus in Hq1, Hq2.
    rewrite !inject_Z_mult in Hq1, Hq2.
    change (inject_Z 2) with 2%Q in *. change (inject_Z 1) with 1%Q in *.
    change (inject_Z (-1)) with (-1)%Q in *.
    set (M := inject_Z m) in *. set (D := inject_Z d) in *.
    set (K := (2 ^ e)%Q) in *.
    split.
    + apply (Qmult_le_r _ _ D HD). nra.
    + apply (Qmult_le_r _ _ D HD). nra.
Qed.

Lemma Qabs_le_bound (a b : Q) : (- b <= a -> a <= b -> Qabs a <= b)%Q.
Proof. intros H1 H2. apply Qabs_Qle_condition. split; assumption. Qed.

Lemma Qabs_ge_pos (a b : Q) : (b <= a -> b <= Qabs a)%Q.
Proof. intros H. apply Qle_trans with a; [exact H | apply Qle_Qabs]. Qed.

Lemma Qabs_ge_neg (a b : Q) : (b <= - a -> b <= Qabs a)%Q.
Proof.
  intros H. rewrite <- Qabs_opp. apply Qle_trans with (- a)%Q;
    [exact H | apply Qle_Qabs].
Qed.

Lemma inject_Z_le (a b : Z) : a <= b -> (inject_Z a <= inject_Z b)%Q.
Proof. intros H. now rewrite <- Zle_Qle. Qed.

Lemma inject_Z_pred (a b : Z) : a < b -> (inject_Z a <= inject_Z b - 1)%Q.
Proof.
  intros H. unfold Qminus. change 1%Q with (inject_Z 1).
  rewrite <- inject_Z_opp, <- inject_Z_plus. apply inject_Z_le. lia.
Qed.

Lemma inject_Z_succ (a b : Z) : a < b -> (inject_Z a + 1 <= inject_Z b)%Q.
Proof.
  intros H. change 1%Q with (inject_Z 1).
  rewrite <- inject_Z_plus. apply inject_Z_le. lia.
Qed.

Lemma Qpow2_half (e : Z) : (2 ^ e == 2 * 2 ^ (e - 1))%Q.
Proof.
  pose proof (Qpow2_add 1 (e - 1)) as H. replace (1 + (e - 1)) with e in H by lia.
  rewrite H. reflexivity.
Qed.

(** A number on the grid of step [2^e], within half a step of [x], whose
    exponent is that of the binade of [x] or the least one, is a binary64
    number nearest to [x], unless it is beyond the largest one. *)
Lemma grid_nearest (x : Q) (m e : Z) :
  -1074 <= e ->
  0 <= m <= 2 ^ 53 ->
  (e = -1074 \/ (2 ^ 52 <= m /\ (2 ^ (52 + e) <= x)%Q)) ->
  ((2 * inject_Z m - 1) * 2 ^ e <= 2 * x <= (2 * inject_Z m + 1) * 2 ^ e)%Q ->
  (inject_Z m * 2 ^ e < 2 ^ 1024)%Q ->
  nearest_binary64 x (inject_Z m * 2 ^ e).
Proof.
  intros He Hm Hnorm [Hlo Hhi] Hfin.
  pose proof (Qpow2_pos e) as HK.
  assert (He971 : m = 2 ^ 53 /\ e <= 970 \/ m < 2 ^ 53 /\ e <= 971).
  { destruct (Z_lt_le_dec e 971) as [Hlt | Hge].
    - destruct (Z.eq_dec m (2 ^ 53)); [left | right]; lia.
    - right. destruct Hnorm as [-> | [Hm52 _]]; [lia |].
      destruct (Z_le_gt_dec e 971) as [Hle | Hgt].
      + assert (e = 971) by lia. subst e.
        split; [| lia]. destruct (Z.eq_dec m (2 ^ 53)) as [-> | Hne]; [| lia].
        exfalso. rewrite (Qpow2_inject 53) in Hfin by lia. rewrite <- Qpow2_add in Hfin.
        exact (Qlt_irrefl _ Hfin).
      + exfalso. apply inject_Z_le in Hm52. rewrite (Qpow2_inject 52) in Hm52 by lia.
        assert (H1 : (2 ^ 52 * 2 ^ e <= inject_Z m * 2 ^ e)%Q) by nra.
        rewrite <- Qpow2_add in H1.
        assert (H2 : (2 ^ 1024 <= 2 ^ (52 + e))%Q) by (apply Qpow2_le; lia).
        lra. }
  split.
  - destruct He971 as [[-> He'] | [Hm' He']].
    + exists (2 ^ 52), (e + 1). split; [reflexivity |]. split; [lia |].
      rewrite (Qpow2_inject 53), (Qpow2_inject 52) by lia. rewrite <- !Qpow2_add.
      now replace (52 + (e + 1)) with (53 + e) by lia.
    + exists m, e. split; [lia |]. split; [lia | reflexivity].
  - intros g [m' [e' [Hm' [He' Hg]]]].
    set (f := (inject_Z m * 2 ^ e)%Q) in *.
    assert (Hnear : (Qabs (f - x) <= 2 ^ e * (1 # 2))%Q)
      by (apply Qabs_le_bound; unfold f; lra).
    destruct (Z_le_gt_dec e e') as [Hee | Hee].
    + (* [g] lies on the grid *)
      set (j := m' * 2 ^ (e' - e)).
      assert (Hgj : (g == inject_Z j * 2 ^ e)%Q).
      { rewrite Hg. unfold j. rewrite inject_Z_mult, Qpow2_inject by lia.
        rewrite <- Qmult_assoc, <- Qpow2_add.
        now replace (e' - e + e) with e' by lia. }
      destruct (Z_lt_le_dec j m) as [Hjm | Hjm].
      * apply Qle_trans with (2 ^ e * (1 # 2))%Q; [exact Hnear |].
        apply Qabs_ge_neg. rewrite Hgj.
        pose proof (inject_Z_pred j m Hjm) as Hj.
        nra.
      * destruct (Z.eq_dec j m) as [Hjeq | Hjne].
        -- assert (Hgf : (g == f)%Q) by (rewrite Hgj, Hjeq; reflexivity).
           rewrite Hgf. apply Qle_refl.
        -- apply Qle_trans with (2 ^ e * (1 # 2))%Q; [exact Hnear |].
           apply Qabs_ge_pos. rewrite Hgj.
           pose proof (inject_Z_succ m j ltac:(lia)) as Hj.
           nra.
    + (* [g] lies below the binade of [x] *)
      destruct Hnorm as [-> | [Hm52 Hx52]]; [lia |].
      apply Qle_trans with (2 ^ e * (1 # 2))%Q; [exact Hnear |].
      apply Qabs_ge_neg.
      pose proof (inject_Z_pred m' (2 ^ 53) ltac:(lia)) as Hm''.
      rewrite (Qpow2_inject 53) in Hm'' by lia.
      assert (Hpe' : (2 ^ e' <= 2 ^ (e - 1))%Q) by (apply Qpow2_le; lia).
      pose proof (Qpow2_pos e') as Hpe'0.
      pose proof (Qpow2_half e) as Hh. pose proof (Qpow2_pos (e - 1)) as Hh0.
      assert (H52 : (2 ^ (52 + e) == 2 ^ 53 * 2 ^ (e - 1))%Q)
        by (rewrite <- Qpow2_add; now replace (53 + (e - 1)) with (52 + e) by lia).
      assert (Hg' : (g <= (2 ^ 53 - 1) * 2 ^ (e - 1))%Q).
      { rewrite Hg. apply Qle_trans with ((2 ^ 53 - 1) * 2 ^ e')%Q.
        - apply Qmult_le_compat_r; [exact Hm'' | lra].
        - apply Qmult_le_l; [| exact Hpe'].
          pose proof (Qpow2_lt 0 53 ltac:(lia)) as H0. change (2 ^ 0)%Q with 1%Q in H0.
          lra. }
      rewrite H52 in Hx52. lra.
Qed.

Lemma pow4_max (e : Z) :
  (inject_Z (4 ^ Z.max 0 e)
   == (2 ^ e * 2 ^ e) * inject_Z (4 ^ Z.max 0 (- e)))%Q.
Proof.
  assert (H4 : forall j, 4 ^ j = 2 ^ j * 2 ^ j)
    by (intros j; change 4 with (2 * 2); apply Z.pow_mul_l).
  rewrite !H4, !inject_Z_mult, (Qpow2_max e). ring.
Qed.

Lemma pow4_max_pos (e : Z) : (0 < inject_Z (4 ^ Z.max 0 e))%Q.
Proof.
  change 0%Q with (inject_Z 0). rewrite <- Zlt_Qlt.
  apply Z.pow_pos_nonneg; lia.
Qed.

Lemma scaled4_le (a b e : Z) :
  a * 4 ^ Z.max 0 e <= b * 4 ^ Z.max 0 (- e)
  <-> (inject_Z a * (2 ^ e * 2 ^ e) <= inject_Z b)%Q.
Proof.
  rewrite Zle_Qle, !inject_Z_mult, (pow4_max e).
  pose proof (pow4_max_pos (- e)) as Hp.
  set (P := inject_Z (4 ^ Z.max 0 (- e))) in *.
  set (A := inject_Z a). set (B := inject_Z b). set (K := (2 ^ e)%Q).
  split; intros H.
  - apply (Qmult_le_r _ _ P Hp). lra.
  - apply (Qmult_le_r _ _ P Hp) in H. lra.
Qed.

Lemma scaled4_ge (a b e : Z) :
  b * 4 ^ Z.max 0 (- e) <= a * 4 ^ Z.max 0 e
  <-> (inject_Z b <= inject_Z a * (2 ^ e * 2 ^ e))%Q.
Proof.
  rewrite Zle_Qle, !inject_Z_mult, (pow4_max e).
  pose proof (pow4_max_pos (- e)) as Hp.
  set (P := inject_Z (4 ^ Z.max 0 (- e))) in *.
  set (A := inject_Z a). set (B := inject_Z b). set (K := (2 ^ e)%Q).
  split; intros H.
  - apply (Qmult_le_r _ _ P Hp). lra.
  - apply (Qmult_le_r _ _ P Hp) in H. lra.
Qed.

Lemma scaled4_gt (a b e : Z) :
  b * 4 ^ Z.max 0 (- e) < a * 4 ^ Z.max 0 e
  <-> (inject_Z b < inject_Z a * (2 ^ e * 2 ^ e))%Q.
Proof.
  rewrite Zlt_Qlt, !inject_Z_mult, (pow4_max e).
  pose proof (pow4_max_pos (- e)) as Hp.
  set (P := inject_Z (4 ^ Z.max 0 (- e))) in *.
  set (A := inject_Z a). set (B := inject_Z b). set (K := (2 ^ e)%Q).
  split; intros H.
  - apply (Qmult_lt_r _ _ P Hp). lra.
  - apply (Qmult_lt_r _ _ P Hp) in H. lra.
Qed.

(** The integer part of a square root of a quotient, and its rounding. *)
Lemma sqrt_round_spec (n d : Z) :
  0 <= n -> 0 < d ->
  let m := Z.sqrt (n / d) in
  let r := match (2 * m + 1) ^ 2 * d ?= 4 * n with
           | Lt => m + 1
           | Gt => m
           | Eq => if Z.even m then m else m + 1
           end in
  0 <= m /\ m * m * d <= n < (m + 1) * (m + 1) * d
  /\ m <= r <= m + 1
  /\ (1 <= r -> (2 * r - 1) * (2 * r - 1) * d <= 4 * n)
  /\ 4 * n <= (2 * r + 1) * (2 * r + 1) * d.
Proof.
  intros Hn Hd. cbn zeta.
  pose proof (Z.div_mod n d ltac:(lia)) as Hdm.
  pose proof (Z.mod_pos_bound n d Hd) as Hr.
  assert (Hq : 0 <= n / d) by (apply Z.div_pos; lia).
  pose proof (Z.sqrt_spec (n / d) Hq) as Hs.
  pose proof (Z.sqrt_nonneg (n / d)) as Hm.
  set (q := n / d) in *. set (m := Z.sqrt q) in *.
  unfold Z.succ in Hs.
  assert (H1 : m * m * d <= n) by nia.
  assert (H2 : n < (m + 1) * (m + 1) * d) by nia.
  split; [exact Hm |]. split; [split; assumption |].
  replace ((2 * m + 1) ^ 2) with ((2 * m + 1) * (2 * m + 1)) by ring.
  destruct (Z.compare_spec ((2 * m + 1) * (2 * m + 1) * d) (4 * n)) as [H | H | H];
    [destruct (Z.even m) |..]; (split; [lia |]); split; intros; nia.
Qed.

Lemma Qpow2_double (a : Z) : (2 ^ (2 * a) == 2 ^ a * 2 ^ a)%Q.
Proof. replace (2 * a) with (a + a) by lia. apply Qpow2_add. Qed.

(** The mantissa and exponent chosen for the square root of a positive
    quotient [v = n / d]. *)
Lemma nearest_sqrt_spec (n d : Z) (v : Q) :
  0 < n -> 0 < d -> (v * inject_Z d == inject_Z n)%Q ->
  let m := fst (Float.nearest_sqrt n d) in
  let e := snd (Float.nearest_sqrt n d) in
  -1074 <= e
  /\ 0 <= m <= 2 ^ 53
  /\ (e = -1074 \/ (2 ^ 52 <= m /\ (2 ^ (52 + e) * 2 ^ (52 + e) <= v)%Q))
  /\ (1 <= m ->
      (((2 * inject_Z m - 1) * 2 ^ e) * ((2 * inject_Z m - 1) * 2 ^ e)
       <= 4 * v)%Q)
  /\ (4 * v <= ((2 * inject_Z m + 1) * 2 ^ e) * ((2 * inject_Z m + 1) * 2 ^ e))%Q.
Proof.
  intros Hn Hd Hv. unfold Float.nearest_sqrt. cbn [fst snd].
  destruct (ilog2_spec n d Hn Hd) as [Hlo Hhi].
  set (k := Float.ilog2 n d) in *.
  pose proof (Z.div_mod k 2 ltac:(lia)) as Hk2.
  pose proof (Z.mod_pos_bound k 2 ltac:(lia)) as Hk2'.
  set (h := k / 2) in *.
  set (e := Z.max (h - 52) (-1074)).
  assert (He : -1074 <= e) by lia.
  assert (HD : (0 < inject_Z d)%Q)
    by (change 0%Q with (inject_Z 0); now rewrite <- Zlt_Qlt).
  pose proof (Qpow2_pos e) as Hpe.
  assert (Hd' : 0 < d * 4 ^ Z.max 0 e)
    by (apply Z.mul_pos_pos; [exact Hd | apply Z.pow_pos_nonneg; lia]).
  assert (Hn' : 0 <= n * 4 ^ Z.max 0 (- e))
    by (pose proof (Z.pow_pos_nonneg 4 (Z.max 0 (- e))); nia).
  assert (Hup : (v < 2 ^ (53 + e) * 2 ^ (53 + e))%Q).
  { rewrite <- Qpow2_double.
    assert (H1 : (2 ^ (k + 1) <= 2 ^ (2 * (53 + e)))%Q) by (apply Qpow2_le; lia).
    pose proof (Qpow2_pos (k + 1)). nra. }
  assert (H53 : (2 ^ (53 + e) == inject_Z (2 ^ 53) * 2 ^ e)%Q)
    by (rewrite Qpow2_add, <- (Qpow2_inject 53) by lia; reflexivity).
  assert (H52 : (2 ^ (52 + e) == inject_Z (2 ^ 52) * 2 ^ e)%Q)
    by (rewrite Qpow2_add, <- (Qpow2_inject 52) by lia; reflexivity).
  set (n' := n * 4 ^ Z.max 0 (- e)) in *. set (d' := d * 4 ^ Z.max 0 e) in *.
  pose proof (sqrt_round_spec n' d' Hn' Hd') as Hs. cbn zeta in Hs.
  set (m := Z.sqrt (n' / d')) in *.
  set (r := match (2 * m + 1) ^ 2 * d' ?= 4 * n' with
            | Lt => m + 1
            | Gt => m
            | Eq => if Z.even m then m else m + 1
            end) in *.
  destruct Hs as [Hm0 [[Hm1 Hm2] [Hr [Hrl Hru]]]].
  assert (Hm53 : m < 2 ^ 53).
  { assert (Hlt : n * 4 ^ Z.max 0 (- e) < (2 ^ 53 * 2 ^ 53 * d) * 4 ^ Z.max 0 e).
    { apply scaled4_gt. rewrite !inject_Z_mult. rewrite H53 in Hup. nra. }
    fold n' in Hlt.
    replace (2 ^ 53 * 2 ^ 53 * d * 4 ^ Z.max 0 e) with (2 ^ 53 * 2 ^ 53 * d')
      in Hlt by (unfold d'; ring).
    destruct (Z_lt_le_dec m (2 ^ 53)) as [H | H]; [exact H |]. exfalso.
    assert (HB : 0 < 2 ^ 53) by reflexivity.
    set (B := 2 ^ 53) in *.
    assert (H1 : B * B <= m * m) by (apply Z.mul_le_mono_nonneg; lia).
    assert (H2 : B * B * d' <= m * m * d')
      by (apply Z.mul_le_mono_nonneg_r; lia).
    lia. }
  split; [exact He |]. split; [lia |]. split; [| split].
  - destruct (Z.eq_dec e (-1074)) as [-> | Hne]; [now left |]. right.
    assert (Hlow : (2 ^ (52 + e) * 2 ^ (52 + e) <= v)%Q).
    { rewrite <- Qpow2_double.
      assert (H1 : (2 ^ (2 * (52 + e)) <= 2 ^ k)%Q) by (apply Qpow2_le; lia).
      pose proof (Qpow2_pos k). nra. }
    split; [| exact Hlow].
    assert (Hge : (2 ^ 52 * 2 ^ 52 * d) * 4 ^ Z.max 0 e <= n * 4 ^ Z.max 0 (- e)).
    { apply scaled4_le. rewrite !inject_Z_mult. rewrite H52 in Hlow. nra. }
    fold n' in Hge.
    replace (2 ^ 52 * 2 ^ 52 * d * 4 ^ Z.max 0 e) with (2 ^ 52 * 2 ^ 52 * d')
      in Hge by (unfold d'; ring).
    destruct (Z_le_gt_dec (2 ^ 52) m) as [H | H]; [lia |]. exfalso.
    assert (HB : 0 < 2 ^ 52) by reflexivity.
    set (B := 2 ^ 52) in *.
    assert (H1 : (m + 1) * (m + 1) <= B * B)
      by (apply Z.mul_le_mono_nonneg; lia).
    assert (H2 : (m + 1) * (m + 1) * d' <= B * B * d')
      by (apply Z.mul_le_mono_nonneg_r; lia).
    lia.
  - intros Hr1. specialize (Hrl Hr1).
    assert (Hq : ((2 * r + -1) * (2 * r + -1) * d) * 4 ^ Z.max 0 e
                 <= (4 * n) * 4 ^ Z.max 0 (- e))
      by (unfold n', d' in Hrl; nia).
    apply scaled4_le in Hq. rewrite !inject_Z_mult in Hq.
    rewrite inject_Z_plus, inject_Z_mult in Hq.
    change (inject_Z 2) with 2%Q in *. change (inject_Z 4) with 4%Q in *.
    change (inject_Z (-1)) with (-1)%Q in *.
    set (M := inject_Z r) in *. set (D := inject_Z d) in *. set (K := (2 ^ e)%Q) in *.
    apply (Qmult_le_r _ _ D HD). nra.
  - assert (Hq : (4 * n) * 4 ^ Z.max 0 (- e)
                 <= ((2 * r + 1) * (2 * r + 1) * d) * 4 ^ Z.max 0 e)
      by (unfold n', d' in Hru; nia).
    apply scaled4_ge in Hq. rewrite !inject_Z_mult in Hq.
    rewrite inject_Z_plus, inject_Z_mult in Hq.
    change (inject_Z 2) with 2%Q in *. change (inject_Z 4) with 4%Q in *.
    change (inject_Z 1) with 1%Q in *.
    set (M := inject_Z r) in *. set (D := inject_Z d) in *. set (K := (2 ^ e)%Q) in *.
    apply (Qmult_le_r _ _ D HD). nra.
Qed.

Lemma grid_binary64 (m e : Z) :
  -1074 <= e ->
  0 <= m <= 2 ^ 53 ->
  (e = -1074 \/ 2 ^ 52 <= m) ->
  (inject_Z m * 2 ^ e < 2 ^ 1024)%Q ->
  binary64 (inject_Z m * 2 ^ e).
Proof.
  intros He Hm Hnorm Hfin.
  pose proof (Qpow2_pos e) as HK.
  assert (He971 : m = 2 ^ 53 /\ e <= 970 \/ m < 2 ^ 53 /\ e <= 971).
  { destruct (Z_lt_le_dec e 971) as [Hlt | Hge].
    - destruct (Z.eq_dec m (2 ^ 53)); [left | right]; lia.
    - right. destruct Hnorm as [-> | Hm52]; [lia |].
      destruct (Z_le_gt_dec e 971) as [Hle | Hgt].
      + assert (e = 971) by lia. subst e.
        split; [| lia]. destruct (Z.eq_dec m (2 ^ 53)) as [-> | Hne]; [| lia].
        exfalso. rewrite (Qpow2_inject 53) in Hfin by lia. rewrite <- Qpow2_add in Hfin.
        exact (Qlt_irrefl _ Hfin).
      + exfalso. apply inject_Z_le in Hm52. rewrite (Qpow2_inject 52) in Hm52 by lia.
        assert (H1 : (2 ^ 52 * 2 ^ e <= inject_Z m * 2 ^ e)%Q) by nra.
        rewrite <- Qpow2_add in H1.
        assert (H2 : (2 ^ 1024 <= 2 ^ (52 + e))%Q) by (apply Qpow2_le; lia).
        lra. }
  destruct He971 as [[-> He'] | [Hm' He']].
  - exists (2 ^ 52), (e + 1). split; [reflexivity |]. split; [lia |].
    rewrite (Qpow2_inject 53), (Qpow2_inject 52) by lia. rewrite <- !Qpow2_add.
    now replace (52 + (e + 1)) with (53 + e) by lia.
  - exists m, e. split; [lia |]. split; [lia | reflexivity].
Qed.

Lemma Qsquare_le (a b : Q) : (0 <= a -> a <= b -> a * a <= b * b)%Q.
Proof. intros H1 H2. nra. Qed.

Lemma grid_nearest_sqrt (v : Q) (m e : Z) :
  -1074 <= e ->
  0 <= m <= 2 ^ 53 ->
  (e = -1074 \/ (2 ^ 52 <= m /\ (2 ^ (52 + e) * 2 ^ (52 + e) <= v)%Q)) ->
  (1 <= m ->
   (((2 * inject_Z m - 1) * 2 ^ e) * ((2 * inject_Z m - 1) * 2 ^ e)
    <= 4 * v)%Q) ->
  (4 * v <= ((2 * inject_Z m + 1) * 2 ^ e) * ((2 * inject_Z m + 1) * 2 ^ e))%Q ->
  (inject_Z m * 2 ^ e < 2 ^ 1024)%Q ->
  nearest_binary64_sqrt v (inject_Z m * 2 ^ e).
Proof.
  intros He Hm Hnorm Hlo Hhi Hfin.
  pose proof (Qpow2_pos e) as HK.
  assert (HM0 : (0 <= inject_Z m)%Q)
    by (change 0%Q with (inject_Z 0); apply inject_Z_le; lia).
  split; [| split].
  - apply grid_binary64; try assumption. destruct Hnorm as [H | [H _]]; auto.
  - nra.
  - intros g [m' [e' [Hm' [He' Hg]]]].
    set (f := (inject_Z m * 2 ^ e)%Q) in *.
    destruct (Z_le_gt_dec e e') as [Hee | Hee].
    + set (j := m' * 2 ^ (e' - e)).
      assert (Hgj : (g == inject_Z j * 2 ^ e)%Q).
      { rewrite Hg. unfold j. rewrite inject_Z_mult, Qpow2_inject by lia.
        rewrite <- Qmult_assoc, <- Qpow2_add.
        now replace (e' - e + e) with e' by lia. }
      split; intros Hlt.
      * assert (Hjm : j < m).
        { destruct (Z_lt_le_dec j m) as [H | H]; [exact H |]. exfalso.
          apply inject_Z_le in H. rewrite Hgj in Hlt. unfold f in Hlt. nra. }
        pose proof (inject_Z_pred j m Hjm) as Hj.
        destruct (Qlt_le_dec 0 (f + g)) as [Hpos | Hneg]; [right | now left].
        assert (H1 : (1 <= m)).
        { destruct (Z_le_gt_dec 1 m) as [H | H]; [exact H |]. exfalso.
          assert (m = 0) by lia. subst m. unfold f in *.
          rewrite Hgj in Hpos. change (inject_Z 0) with 0%Q in *. nra. }
        specialize (Hlo H1).
        assert (Hsum : (f + g <= (2 * inject_Z m - 1) * 2 ^ e)%Q)
          by (rewrite Hgj; unfold f; nra).
        apply Qle_trans with
          (((2 * inject_Z m - 1) * 2 ^ e) * ((2 * inject_Z m - 1) * 2 ^ e))%Q;
          [| exact Hlo].
        apply Qsquare_le; [lra | exact Hsum].
      * assert (Hjm : m < j).
        { destruct (Z_lt_le_dec m j) as [H | H]; [exact H |]. exfalso.
          apply inject_Z_le in H. rewrite Hgj in Hlt. unfold f in Hlt. nra. }
        pose proof (inject_Z_succ m j Hjm) as Hj.
        assert (Hsum : ((2 * inject_Z m + 1) * 2 ^ e <= f + g)%Q)
          by (rewrite Hgj; unfold f; nra).
        apply Qle_trans with
          (((2 * inject_Z m + 1) * 2 ^ e) * ((2 * inject_Z m + 1) * 2 ^ e))%Q;
          [exact Hhi |].
        apply Qsquare_le; [| exact Hsum].
        apply Qmult_le_0_compat; lra.
    + destruct Hnorm as [-> | [Hm52 Hv52]]; [lia |].
      pose proof (inject_Z_pred m' (2 ^ 53) ltac:(lia)) as Hm''.
      rewrite (Qpow2_inject 53) in Hm'' by lia.
      assert (Hpe' : (2 ^ e' <= 2 ^ (e - 1))%Q) by (apply Qpow2_le; lia).
      pose proof (Qpow2_pos e') as Hpe'0.
      pose proof (Qpow2_half e) as Hh. pose proof (Qpow2_pos (e - 1)) as Hh0.
      assert (H52 : (2 ^ (52 + e) == 2 ^ 53 * 2 ^ (e - 1))%Q)
        by (rewrite <- Qpow2_add; now replace (53 + (e - 1)) with (52 + e) by lia).
      pose proof (Qpow2_lt 0 53 ltac:(lia)) as H530.
      change (2 ^ 0)%Q with 1%Q in H530.
      assert (Hg' : (g <= (2 ^ 53 - 1) * 2 ^ (e - 1))%Q).
      { rewrite Hg. apply Qle_trans with ((2 ^ 53 - 1) * 2 ^ e')%Q.
        - apply Qmult_le_compat_r; [exact Hm'' | lra].
        - apply Qmult_le_l; [lra | exact Hpe']. }
      apply inject_Z_le in Hm52. rewrite (Qpow2_inject 52) in Hm52 by lia.
      assert (H5253 : (2 ^ 53 == 2 * 2 ^ 52)%Q) by (apply (Qpow2_half 53)).
      assert (Hf52 : (2 ^ 53 * 2 ^ (e - 1) <= f)%Q) by (unfold f; nra).
      split; intros Hlt; [| exfalso; lra].
      destruct (Qlt_le_dec 0 (f + g)) as [Hpos | Hneg]; [right | now left].
      assert (H1 : 1 <= m).
      { destruct (Z_le_gt_dec 1 m) as [H | H]; [exact H |]. exfalso.
        assert (m = 0) by lia. subst m. change (inject_Z 0) with 0%Q in *. lra. }
      specialize (Hlo H1). rewrite H52 in Hv52.
      set (A := ((2 * inject_Z m - 1) * 2 ^ (e - 1))%Q).
      set (B := (2 ^ 53 * 2 ^ (e - 1))%Q) in *.
      assert (HA : (A * A <= v)%Q) by (unfold A; nra).
      assert (HA0 : (0 <= A)%Q).
      { unfold A. apply Qmult_le_0_compat; [| lra].
        pose proof (inject_Z_le 1 m H1) as Hm1.
        change (inject_Z 1) with 1%Q in Hm1. lra. }
      assert (Hsum : (f + g <= A + B)%Q) by (unfold A, B, f; nra).
      assert (HAB : ((A + B) * (A + B) <= 4 * v)%Q) by nra.
      apply Qle_trans with ((A + B) * (A + B))%Q; [| exact HAB].
      apply Qsquare_le; lra.
Qed.

Lemma finite_ok (m e : Z) (f : Q) :
  0 <= m ->
  Float.finite (m, e) = Ok f ->
  (f == inject_Z m * 2 ^ e)%Q /\ (inject_Z m * 2 ^ e < 2 ^ 1024)%Q.
Proof.
  intros Hm. unfold Float.finite.
  destruct (2 ^ 1024 * 2 ^ Z.max 0 (- e) <=? Z.abs m * 2 ^ Z.max 0 e) eqn:Ht;
    [discriminate |].
  intros H. inversion H. split; [rewrite Qred_correct; apply scale_spec |].
  apply Z.leb_gt in Ht. rewrite Z.abs_eq in Ht by lia.
  apply scaled_lt in Ht. rewrite (Qpow2_inject 1024) in Ht by lia. exact Ht.
Qed.

Lemma finite_total (m e : Z) :
  0 <= m ->
  (inject_Z m * 2 ^ e < 2 ^ 1024)%Q ->
  exists f, Float.finite (m, e) = Ok f.
Proof.
  intros Hm Hlt. unfold Float.finite.
  destruct (2 ^ 1024 * 2 ^ Z.max 0 (- e) <=? Z.abs m * 2 ^ Z.max 0 e) eqn:Ht;
    [| eexists; reflexivity].
  exfalso. apply Z.leb_le in Ht. rewrite Z.abs_eq in Ht by lia.
  apply scaled_ge in Ht. rewrite (Qpow2_inject 1024) in Ht by lia. lra.
Qed.

Lemma Qmake_mult_den (a : Z) (b : positive) :
  ((a # b) * inject_Z (Zpos b) == inject_Z a)%Q.
Proof. unfold Qeq, Qmult, inject_Z. simpl. lia. Qed.

Lemma Qred_num_den (x : Q) :
  (x * inject_Z (Zpos (Qden (Qred x))) == inject_Z (Qnum (Qred x)))%Q.
Proof.
  rewrite <- (Qred_correct x) at 1. destruct (Qred x) as [a b]. apply Qmake_mult_den.
Qed.

Lemma Qred_num_sign (x : Q) :
  ((0 < Qnum (Qred x) <-> (0 < x)%Q) /\ (Qnum (Qred x) = 0 <-> (x == 0)%Q)).
Proof.
  rewrite <- (Qred_correct x) at 2 4. destruct (Qred x) as [a b].
  unfold Qlt, Qeq. simpl. split; split; lia.
Qed.

Lemma binary64_zero : binary64 0.
Proof. exists 0, 0. repeat split; try lia. Qed.

Lemma binary64_wd (f g : Q) : (f == g)%Q -> binary64 f -> binary64 g.
Proof.
  intros H [m [e [Hm [He Hf]]]]. exists m, e. repeat split; try lia.
  now rewrite <- H.
Qed.

Lemma nearest_binary64_wd (x y f g : Q) :
  (x == y)%Q -> (f == g)%Q -> nearest_binary64 x f -> nearest_binary64 y g.
Proof.
  intros Hx Hf [Hb Hn]. split; [now apply binary64_wd with f |].
  intros h Hh. rewrite <- Hx, <- Hf. now apply Hn.
Qed.

(** [float(x)] for a non-negative fraction [x], when it returns, returns a
    binary64 number nearest to [x]. *)
Theorem of_fraction_nearest (x f : Q) :
  (0 <= x)%Q -> Float.of_fraction x = Ok f -> nearest_binary64 x f.
Proof.
  intros Hx. unfold Float.of_fraction.
  pose proof (Qred_num_den x) as Hnd. pose proof (Qred_num_sign x) as [Hpos Hzero].
  destruct (Qnum (Qred x)) as [| n | n] eqn:Hn.
  - intros H. inversion H. assert (Hx0 : (x == 0)%Q) by (now apply Hzero).
    split; [apply binary64_zero |]. intros g _. rewrite Hx0.
    unfold Qminus. rewrite Qplus_0_l. change (- 0)%Q with 0%Q.
    change (Qabs 0) with 0%Q. apply Qabs_nonneg.
  - set (d := Zpos (Qden (Qred x))) in *.
    pose proof (nearest_ratio_spec (Zpos n) d x ltac:(lia) ltac:(lia) Hnd)
      as [He [Hm [Hnorm [_ Hr]]]].
    destruct (Float.nearest_ratio (Zpos n) d) as [m e]. cbn [fst snd] in *.
    intros H. apply finite_ok in H; [| lia]. destruct H as [Hf Hfin].
    apply (nearest_binary64_wd x x (inject_Z m * 2 ^ e) f);
      [reflexivity | now symmetry |].
    now apply grid_nearest.
  - exfalso. assert (Hneg : (x < 0)%Q).
    { rewrite <- (Qred_correct x). destruct (Qred x) as [a b]. simpl in Hn.
      subst a. reflexivity. }
    lra.
Qed.

Lemma max_float_lt : (max_float < 2 ^ 1024)%Q.
Proof.
  unfold max_float. rewrite <- (Qpow2_inject 1024) by lia. rewrite <- Zlt_Qlt.
  reflexivity.
Qed.

Lemma max_float_eq : (max_float == 2 ^ 1024 - 2 ^ 971)%Q.
Proof.
  unfold max_float. rewrite <- (Qpow2_inject 1024), <- (Qpow2_inject 971) by lia.
  unfold Qminus. rewrite <- inject_Z_opp, <- inject_Z_plus.
  apply inject_Z_injective. reflexivity.
Qed.

Lemma max_float_nonneg : (0 <= max_float)%Q.
Proof.
  unfold max_float. apply (inject_Z_le 0).
  apply Z.mul_nonneg_nonneg; [vm_compute; discriminate | apply Z.pow_nonneg; lia].
Qed.

Lemma Qpow2_lt_inv (a b : Z) : (2 ^ a < 2 ^ b)%Q -> a < b.
Proof. intros H. apply (Qpower_lt_compat_l_inv 2); [exact H | reflexivity]. Qed.

(** [float(x)] returns for every fraction between 0 and the largest
    binary64 number. *)
Theorem of_fraction_total (x : Q) :
  (0 <= x <= max_float)%Q -> exists f, Float.of_fraction x = Ok f.
Proof.
  intros [Hx0 Hx1]. unfold Float.of_fraction.
  pose proof (Qred_num_den x) as Hnd. pose proof (Qred_num_sign x) as [Hpos Hzero].
  destruct (Qnum (Qred x)) as [| n | n] eqn:Hn.
  - eexists; reflexivity.
  - set (d := Zpos (Qden (Qred x))) in *.
    pose proof (nearest_ratio_spec (Zpos n) d x ltac:(lia) ltac:(lia) Hnd)
      as [He [Hm [Hnorm [_ [Hr _]]]]].
    destruct (Float.nearest_ratio (Zpos n) d) as [m e]. cbn [fst snd] in *.
    apply finite_total; [lia |].
    pose proof max_float_lt as Hmax. pose proof max_float_eq as Hmeq.
    assert (He971 : e <= 971).
    { destruct Hnorm as [-> | [_ Hlow]]; [lia |].
      assert (H : 52 + e < 1024) by (apply Qpow2_lt_inv; lra). lia. }
    assert (Hpe : (2 ^ e <= 2 ^ 971)%Q) by (now apply Qpow2_le).
    pose proof (Qpow2_pos 971). lra.
  - exfalso. assert (Hneg : (x < 0)%Q).
    { rewrite <- (Qred_correct x). destruct (Qred x) as [a b]. simpl in Hn.
      subst a. reflexivity. }
    lra.
Qed.

Lemma nearest_binary64_sqrt_wd (v w f g : Q) :
  (v == w)%Q -> (f == g)%Q ->
  nearest_binary64_sqrt v f -> nearest_binary64_sqrt w g.
Proof.
  intros Hv Hf [Hb [H0 Hn]]. split; [now apply binary64_wd with f |].
  split; [now rewrite <- Hf |].
  intros h Hh. rewrite <- Hv, <- Hf. now apply Hn.
Qed.

(** [_float_sqrt_of_frac] on a non-negative fraction [v], when it returns,
    returns a binary64 number nearest to the square root of [v]. *)
Theorem sqrt_of_frac_nearest (v f : Q) :
  (0 <= v)%Q -> Float.sqrt_of_frac v = Ok f -> nearest_binary64_sqrt v f.
Proof.
  intros Hv. unfold Float.sqrt_of_frac.
  pose proof (Qred_num_den v) as Hnd. pose proof (Qred_num_sign v) as [Hpos Hzero].
  destruct (Qnum (Qred v)) as [| n | n] eqn:Hn.
  - intros H. inversion H. assert (Hv0 : (v == 0)%Q) by (now apply Hzero).
    split; [apply binary64_zero |]. split; [apply Qle_refl |].
    intros g _. rewrite Hv0. split; intros Hg.
    + left. lra.
    + nra.
  - set (d := Zpos (Qden (Qred v))) in *.
    pose proof (nearest_sqrt_spec (Zpos n) d v ltac:(lia) ltac:(lia) Hnd)
      as [He [Hm [Hnorm [Hlo Hhi]]]].
    destruct (Float.nearest_sqrt (Zpos n) d) as [m e]. cbn [fst snd] in *.
    intros H. apply finite_ok in H; [| lia]. destruct H as [Hf Hfin].
    apply (nearest_binary64_sqrt_wd v v (inject_Z m * 2 ^ e) f);
      [reflexivity | now symmetry |].
    now apply grid_nearest_sqrt.
  - discriminate.
Qed.

(** [_float_sqrt_of_frac] returns for every fraction between 0 and half the
    square of the largest binary64 number. *)
Theorem sqrt_of_frac_total (v : Q) :
  (0 <= v)%Q -> (2 * v <= max_float * max_float)%Q ->
  exists f, Float.sqrt_of_frac v = Ok f.
Proof.
  intros Hv0 Hv1. unfold Float.sqrt_of_frac.
  pose proof (Qred_num_den v) as Hnd. pose proof (Qred_num_sign v) as [Hpos Hzero].
  destruct (Qnum (Qred v)) as [| n | n] eqn:Hn.
  - eexists; reflexivity.
  - set (d := Zpos (Qden (Qred v))) in *.
    pose proof (nearest_sqrt_spec (Zpos n) d v ltac:(lia) ltac:(lia) Hnd)
      as [He [Hm [Hnorm [Hlo _]]]].
    destruct (Float.nearest_sqrt (Zpos n) d) as [m e]. cbn [fst snd] in *.
    apply finite_total; [lia |].
    pose proof max_float_lt as Hmax.
    pose proof max_float_nonneg as Hmax0.
    pose proof (Qpow2_pos 1024) as HP. pose proof (Qpow2_pos e) as HK.
    assert (Hsq : (max_float * max_float < 2 ^ 1024 * 2 ^ 1024)%Q) by nra.
    assert (He971 : e <= 971).
    { destruct Hnorm as [-> | [_ Hlow]]; [lia |].
      assert (H : 2 * (52 + e) < 2 * 1024).
      { apply Qpow2_lt_inv. rewrite !Qpow2_double. lra. }
      lia. }
    assert (Hpe : (2 ^ e <= 2 ^ 971)%Q) by (now apply Qpow2_le).
    assert (H971 : (2 ^ 1024 == 2 ^ 53 * 2 ^ 971)%Q) by (apply (Qpow2_add 53 971)).
    assert (H53 : (4 <= 2 ^ 53)%Q) by (apply (Qpow2_le 2 53); lia).
    pose proof (Qpow2_pos 971) as H971p.
    destruct (Z_le_gt_dec 1 m) as [Hm1 | Hm1].
    + specialize (Hlo Hm1).
      set (T := ((2 * inject_Z m - 1) * 2 ^ e)%Q) in *.
      assert (HT : (2 * T <= 3 * 2 ^ 1024)%Q).
      { destruct (Qlt_le_dec (3 * 2 ^ 1024) (2 * T)) as [Hc | Hc]; [| exact Hc].
        exfalso.
        assert (Hc2 : ((3 * 2 ^ 1024) * (3 * 2 ^ 1024) <= (2 * T) * (2 * T))%Q)
          by (apply Qsquare_le; lra).
        nra. }
      unfold T in HT. nra.
    + assert (m = 0) by lia. subst m. change (inject_Z 0) with 0%Q. lra.
  - exfalso. assert (Hneg : (v < 0)%Q).
    { rewrite <- (Qred_correct v). destruct (Qred v) as [a b]. simpl in Hn.
      subst a. reflexivity. }
    lra.
Qed.

Lemma of_fraction_wd (x y : Q) :
  (x == y)%Q -> Float.of_fraction x = Float.of_fraction y.
Proof. intros H. unfold Float.of_fraction. now rewrite (Qred_complete x y H). Qed.

Lemma sqrt_of_frac_wd (x y : Q) :
  (x == y)%Q -> Float.sqrt_of_frac x = Float.sqrt_of_frac y.
Proof. intros H. unfold Float.sqrt_of_frac. now rewrite (Qred_complete x y H). Qed.

End RoundingFacts.

(** ** The statistics functions *)

Lemma Qsum_cons (x : Q) (l : list Q) : Qsum (x :: l) = (x + Qsum l)%Q.
Proof. reflexivity. Qed.

Lemma fold_left_Qplus (l : list Q) :
  forall a, (fold_left Qplus l a == a + Qsum l)%Q.
Proof.
  induction l as [| x l IH]; intros a.
  - cbn [fold_left]. change (Qsum []) with 0%Q. ring.
  - cbn [fold_left]. rewrite IH, Qsum_cons. ring.
Qed.

Lemma exact_sum_Qsum (l : list Q) : (PyStatistics.exact_sum l == Qsum l)%Q.
Proof. unfold PyStatistics.exact_sum. rewrite fold_left_Qplus. ring. Qed.

Lemma count_cons (x : Q) (l : list Q) :
  (PyStatistics.count (x :: l) == PyStatistics.count l + 1)%Q.
Proof.
  unfold PyStatistics.count. cbn [List.length]. rewrite Nat2Z.inj_succ.
  unfold Z.succ. rewrite inject_Z_plus. reflexivity.
Qed.

Lemma count_nonneg (l : list Q) : (0 <= PyStatistics.count l)%Q.
Proof.
  unfold PyStatistics.count. change 0%Q with (inject_Z 0).
  rewrite <- Zle_Qle. lia.
Qed.

(** The sum of the squares of the deviations from any [c]. *)
Lemma sum_square_deviations (c : Q) (l : list Q) :
  (Qsum (map (fun x => (x - c) * (x - c)) l)
   == Qsum (map (fun x => x * x) l) - 2 * c * Qsum l
      + PyStatistics.count l * (c * c))%Q.
Proof.
  induction l as [| x l IH].
  - cbn [map Qsum fold_right]. change (PyStatistics.count []) with 0%Q. ring.
  - rewrite count_cons. cbn [map]. rewrite !Qsum_cons, IH. ring.
Qed.

Lemma Qsum_map_ext (f g : Q -> Q) (l : list Q) :
  (forall x, f x == g x)%Q -> (Qsum (map f l) == Qsum (map g l))%Q.
Proof.
  intros H. induction l as [| x l IH]; [reflexivity |].
  cbn [map]. rewrite !Qsum_cons. now rewrite H, IH.
Qed.

(** The fraction of which [statistics.stdev] takes the root is the sample
    variance: the sum of the squared deviations from the arithmetic mean,
    divided by the number of data less one. *)
Lemma ss_sample_variance (l : list Q) :
  l <> [] ->
  (PyStatistics.ss l / (PyStatistics.count l - 1) == sample_variance l)%Q.
Proof.
  intros Hl. unfold PyStatistics.ss, sample_variance, exact_mean.
  fold (PyStatistics.count l).
  assert (Hn : ~ (PyStatistics.count l == 0)%Q).
  { destruct l as [| x l]; [congruence |]. rewrite count_cons.
    pose proof (count_nonneg l). lra. }
  assert (Hn1 : (inject_Z (Z.of_nat (List.length l) - 1)
                 == PyStatistics.count l - 1)%Q).
  { unfold PyStatistics.count, Qminus, Z.sub. rewrite inject_Z_plus. reflexivity. }
  rewrite Hn1, sum_square_deviations, !exact_sum_Qsum.
  set (S1 := Qsum l). set (S2 := Qsum (map (fun x => x * x)%Q l)).
  set (n := PyStatistics.count l) in *.
  unfold Qdiv. apply Qmult_comp; [| reflexivity].
  field. exact Hn.
Qed.

Lemma mean_exact_mean (l : list Q) :
  (PyStatistics.exact_sum l / PyStatistics.count l == exact_mean l)%Q.
Proof. unfold exact_mean. now rewrite exact_sum_Qsum. Qed.

Lemma Qsum_bounds (b : Q) (l : list Q) :
  (forall d, In d l -> 0 <= d <= b)%Q ->
  (0 <= Qsum l <= PyStatistics.count l * b)%Q.
Proof.
  induction l as [| x l IH]; intros H.
  - change (Qsum []) with 0%Q. change (PyStatistics.count []) with 0%Q. lra.
  - rewrite Qsum_cons, count_cons.
    pose proof (H x (or_introl eq_refl)) as Hx.
    assert (Hl : (0 <= Qsum l <= PyStatistics.count l * b)%Q)
      by (apply IH; intros d Hd; apply H; now right).
    lra.
Qed.

Lemma count_pos (l : list Q) : l <> [] -> (1 <= PyStatistics.count l)%Q.
Proof.
  destruct l as [| x l]; [congruence |]. intros _. rewrite count_cons.
  pose proof (count_nonneg l). lra.
Qed.

Lemma count_two (l : list Q) :
  (2 <= List.length l)%nat -> (2 <= PyStatistics.count l)%Q.
Proof.
  intros H. unfold PyStatistics.count. change 2%Q with (inject_Z 2).
  rewrite <- Zle_Qle. lia.
Qed.

(** The arithmetic mean of numbers between 0 and [b] lies between 0 and
    [b]. *)
Lemma exact_mean_bounds (b : Q) (l : list Q) :
  l <> [] ->
  (forall d, In d l -> 0 <= d <= b)%Q ->
  (0 <= exact_mean l <= b)%Q.
Proof.
  intros Hl H. pose proof (Qsum_bounds b l H) as [H0 H1].
  pose proof (count_pos l Hl) as Hn. unfold exact_mean.
  fold (PyStatistics.count l). set (n := PyStatistics.count l) in *.
  split.
  - apply Qle_shift_div_l; lra.
  - apply Qle_shift_div_r; lra.
Qed.

Lemma Qsquare_nonneg (a : Q) : (0 <= a * a)%Q.
Proof.
  destruct (Qlt_le_dec a 0) as [H | H].
  - setoid_replace (a * a)%Q with ((- a) * (- a))%Q by ring.
    apply Qmult_le_0_compat; lra.
  - apply Qmult_le_0_compat; lra.
Qed.

Lemma Qsum_squares_nonneg (c : Q) (l : list Q) :
  (0 <= Qsum (map (fun x => (x - c) * (x - c)) l))%Q.
Proof.
  induction l as [| x l IH]; [apply Qle_refl |].
  cbn [map]. rewrite Qsum_cons. pose proof (Qsquare_nonneg (x - c)). lra.
Qed.

Lemma Qsum_squares_bound (b : Q) (l : list Q) :
  (forall d, In d l -> 0 <= d <= 2 * b)%Q ->
  (Qsum (map (fun x => (x - b) * (x - b)) l) <= PyStatistics.count l * (b * b))%Q.
Proof.
  induction l as [| x l IH]; intros H.
  - change (PyStatistics.count []) with 0%Q. cbn [map]. change (Qsum []) with 0%Q. lra.
  - cbn [map]. rewrite Qsum_cons, count_cons.
    pose proof (H x (or_introl eq_refl)) as Hx.
    assert (Hl : (Qsum (map (fun x => (x - b) * (x - b)) l)
                  <= PyStatistics.count l * (b * b))%Q)
      by (apply IH; intros d Hd; apply H; now right).
    assert (Hsq : ((x - b) * (x - b) <= b * b)%Q) by nra.
    lra.
Qed.

(** The sample variance of at least two numbers between 0 and [2 * b] lies
    between 0 and [2 * b * b]. *)
Lemma sample_variance_bounds (b : Q) (l : list Q) :
  (2 <= List.length l)%nat ->
  (forall d, In d l -> 0 <= d <= 2 * b)%Q ->
  (0 <= sample_variance l <= 2 * (b * b))%Q.
Proof.
  intros Hlen H. pose proof (count_two l Hlen) as Hn.
  assert (Hn1 : (inject_Z (Z.of_nat (List.length l) - 1)
                 == PyStatistics.count l - 1)%Q).
  { unfold PyStatistics.count, Qminus, Z.sub. rewrite inject_Z_plus. reflexivity. }
  unfold sample_variance. rewrite Hn1.
  set (m := exact_mean l).
  pose proof (Qsum_squares_nonneg m l) as H0.
  pose proof (Qsum_squares_bound b l H) as Hb.
  assert (Hmin : (Qsum (map (fun x => (x - m) * (x - m)) l)
                  <= Qsum (map (fun x => (x - b) * (x - b)) l))%Q).
  { rewrite (sum_square_deviations m), (sum_square_deviations b).
    assert (Hm : (m * PyStatistics.count l == Qsum l)%Q).
    { unfold m, exact_mean. fold (PyStatistics.count l). field. lra. }
    set (n := PyStatistics.count l) in *. set (S1 := Qsum l) in *.
    set (S2 := Qsum (map (fun x => x * x)%Q l)).
    assert (Hd : (S2 - 2 * b * S1 + n * (b * b)
                  - (S2 - 2 * m * S1 + n * (m * m))
                  == n * ((m - b) * (m - b)))%Q).
    { rewrite <- Hm. ring. }
    assert (0 <= n * ((m - b) * (m - b)))%Q
      by (apply Qmult_le_0_compat; [lra | apply Qsquare_nonneg]).
    lra. }
  set (n := PyStatistics.count l) in *.
  set (V := Qsum (map (fun x => (x - m) * (x - m))%Q l)) in *.
  pose proof (Qsquare_nonneg b) as Hb0.
  split.
  - apply Qle_shift_div_l; lra.
  - apply Qle_shift_div_r; [lra |]. nra.
Qed.

Lemma max_float_half : (2 * (max_float * (1 # 2)) == max_float)%Q.
Proof. ring. Qed.

(** [statistics.mean] on a non-empty list of numbers between 0 and the
    largest float returns the float nearest to their arithmetic mean. *)
Lemma mean_spec (l : list Q) :
  l <> [] ->
  (forall d, In d l -> 0 <= d <= max_float)%Q ->
  exists f,
    PyStatistics.mean l = Ok f
    /\ Float.of_fraction (exact_mean l) = Ok f
    /\ nearest_binary64 (exact_mean l) f.
Proof.
  intros Hl H. pose proof (exact_mean_bounds max_float l Hl H) as Hb.
  destruct (of_fraction_total (exact_mean l) Hb) as [f Hf].
  exists f. split; [| split; [exact Hf |]].
  - unfold PyStatistics.mean. destruct l as [| x l]; [congruence |].
    rewrite (of_fraction_wd _ _ (mean_exact_mean (x :: l))). exact Hf.
  - apply of_fraction_nearest; [apply Hb | exact Hf].
Qed.

(** [statistics.stdev] on a list of at least two numbers between 0 and the
    largest float returns the float nearest to the square root of their
    sample variance. *)
Lemma stdev_spec (l : list Q) :
  (2 <= List.length l)%nat ->
  (forall d, In d l -> 0 <= d <= max_float)%Q ->
  exists f,
    PyStatistics.stdev l = Ok f
    /\ Float.sqrt_of_frac (sample_variance l) = Ok f
    /\ nearest_binary64_sqrt (sample_variance l) f.
Proof.
  intros Hlen H.
  assert (Hl : l <> []) by (destruct l; [simpl in Hlen; lia | discriminate]).
  assert (H' : (forall d, In d l -> 0 <= d <= 2 * (max_float * (1 # 2)))%Q).
  { intros d Hd. rewrite max_float_half. now apply H. }
  pose proof (sample_variance_bounds (max_float * (1 # 2)) l Hlen H') as [Hv0 Hv1].
  assert (Hv2 : (2 * sample_variance l <= max_float * max_float)%Q) by lra.
  destruct (sqrt_of_frac_total (sample_variance l) Hv0 Hv2) as [f Hf].
  exists f. split; [| split; [exact Hf |]].
  - unfold PyStatistics.stdev.
    replace (List.length l <? 2)%nat with false
      by (symmetry; apply Nat.ltb_ge; exact Hlen).
    rewrite (sqrt_of_frac_wd _ _ (ss_sample_variance l Hl)). exact Hf.
  - apply sqrt_of_frac_nearest; [exact Hv0 | exact Hf].
Qed.

(** ** Timing sampler *)

Section SamplerFacts.
Context {S : Statistics}.
Variable E : env.
Variable cmd : list string.

Lemma run_command_output (i : nat) (o : string) :
  output_of E cmd i = Some o -> run_command E cmd i = (Ok o, Datatypes.S i).
Proof.
  unfold output_of, run_command.
  destruct (subprocess_run (process (spawn E cmd i))); intros H; inversion H.
  reflexivity.
Qed.

Lemma run_command_some (i : nat) :
  output_of E cmd i <> None ->
  exists o, run_command E cmd i = (Ok o, Datatypes.S i).
Proof.
  intros H. destruct (output_of E cmd i) as [o |] eqn:Ho; [| congruence].
  exists o. now apply run_command_output.
Qed.

Lemma warmup_loop_ok (n k : nat) :
  (forall i, (k <= i < k + n)%nat -> output_of E cmd i <> None) ->
  warmup_loop E cmd n k = (Ok tt, (k + n)%nat).
Proof.
  revert k. induction n as [| n IH]; intros k H; simpl.
  - f_equal. lia.
  - destruct (run_command_some k) as [o Ho]; [apply H; lia |].
    rewrite Ho, IH.
    + f_equal. lia.
    + intros i Hi. apply H. lia.
Qed.

Lemma measure_loop_latched (n : nat) :
  forall (times : list Q) (a : string) (k : nat),
  (forall i, (k <= i < k + n)%nat -> output_of E cmd i = Some a) ->
  measure_loop E cmd n times (Some a) k
  = (Ok (times ++ durations E cmd k n, Some a), (k + n)%nat).
Proof.
  induction n as [| n IH]; intros times a k H; simpl.
  - unfold durations. simpl. rewrite app_nil_r. do 2 f_equal. lia.
  - rewrite (run_command_output k a) by (apply H; lia).
    rewrite String.eqb_refl. simpl. rewrite IH.
    + unfold durations. simpl. rewrite <- app_assoc. simpl. do 2 f_equal. lia.
    + intros i Hi. apply H. lia.
Qed.

Lemma measure_loop_mismatch (n j : nat) :
  forall (times : list Q) (a b : string) (k : nat),
  (j < n)%nat ->
  (forall i, (k <= i < k + j)%nat -> output_of E cmd i = Some a) ->
  output_of E cmd (k + j) = Some b ->
  a <> b ->
  measure_loop E cmd n times (Some a) k
  = (Raise (ValueError (inconsistent_output a b)), (k + j + 1)%nat).
Proof.
  revert n. induction j as [| j IH]; intros n times a b k Hj Hsame Hb Hab.
  - destruct n as [| n]; [lia |]. simpl.
    rewrite Nat.add_0_r in Hb. rewrite (run_command_output k b Hb).
    apply String.eqb_neq in Hab. rewrite Hab. simpl. do 2 f_equal. lia.
  - destruct n as [| n]; [lia |]. simpl.
    rewrite (run_command_output k a) by (apply Hsame; lia).
    rewrite String.eqb_refl. simpl.
    rewrite (IH n _ a b (Datatypes.S k)).
    + f_equal. lia.
    + lia.
    + intros i Hi. apply Hsame. lia.
    + rewrite <- Hb. f_equal. lia.
    + exact Hab.
Qed.

End SamplerFacts.

Lemma Qltb_lt (x y : Q) : Qltb x y = true -> (x < y)%Q.
Proof.
  unfold Qltb. intros H. apply negb_true_iff in H.
  apply Qnot_le_lt. intros Hle. apply Qle_bool_iff in Hle. congruence.
Qed.

Lemma Qltb_ge (x y : Q) : Qltb x y = false -> (y <= x)%Q.
Proof.
  unfold Qltb. intros H. apply negb_false_iff in H. now apply Qle_bool_iff.
Qed.

Lemma py_min_In (l : list Q) : forall x, In (py_min x l) (x :: l).
Proof.
  unfold py_min. induction l as [| y l IH]; intros x; simpl.
  - now left.
  - destruct (Qltb y x); destruct (IH y) as [H | H], (IH x) as [H' | H'];
      simpl in *; auto.
Qed.

Lemma py_min_le (l : list Q) :
  forall x d, In d (x :: l) -> (py_min x l <= d)%Q.
Proof.
  unfold py_min. induction l as [| y l IH]; intros x d Hd; simpl.
  - destruct Hd as [<- | []]. apply Qle_refl.
  - destruct (Qltb y x) eqn:Hyx.
    + destruct Hd as [<- | Hd].
      * apply Qle_trans with y; [apply IH; now left |].
        apply Qlt_le_weak. now apply Qltb_lt.
      * apply IH. exact Hd.
    + destruct Hd as [<- | [<- | Hd]].
      * apply IH. now left.
      * apply Qle_trans with x; [apply IH; now left | now apply Qltb_ge].
      * apply IH. now right.
Qed.

Lemma py_max_In (l : list Q) : forall x, In (py_max x l) (x :: l).
Proof.
  unfold py_max. induction l as [| y l IH]; intros x; simpl.
  - now left.
  - destruct (Qltb x y); destruct (IH y) as [H | H], (IH x) as [H' | H'];
      simpl in *; auto.
Qed.

Lemma py_max_ge (l : list Q) :
  forall x d, In d (x :: l) -> (d <= py_max x l)%Q.
Proof.
  unfold py_max. induction l as [| y l IH]; intros x d Hd; simpl.
  - destruct Hd as [<- | []]. apply Qle_refl.
  - destruct (Qltb x y) eqn:Hxy.
    + destruct Hd as [<- | Hd].
      * apply Qle_trans with y; [| apply IH; now left].
        apply Qlt_le_weak. now apply Qltb_lt.
      * apply IH. exact Hd.
    + destruct Hd as [<- | [<- | Hd]].
      * apply IH. now left.
      * apply Qle_trans with x; [now apply Qltb_ge | apply IH; now left].
      * apply IH. now right.
Qed.

(** The sampler on runs that all go well and print [a]: the statistics are
    those of exactly the [R] measured durations. *)
Lemma benchmark_summary {S : Statistics} (E : env) (cmd : list string)
    (R W k : nat) (a : string) (avg sd : Q) :
  (1 <= R)%nat ->
  (forall i, (k <= i < k + W)%nat -> output_of E cmd i <> None) ->
  (forall i, (k + W <= i < k + W + R)%nat -> output_of E cmd i = Some a) ->
  statistics_mean (durations E cmd (k + W) R) = Ok avg ->
  (if (2 <=? R)%nat then statistics_stdev (durations E cmd (k + W) R)
   else Ok 0%Q) = Ok sd ->
  exists st : stats,
    benchmark E cmd R W k = (Ok st, (k + W + R)%nat)
    /\ s_avg st = avg
    /\ In (s_min st) (durations E cmd (k + W) R)
    /\ (forall d, In d (durations E cmd (k + W) R) -> (s_min st <= d)%Q)
    /\ In (s_max st) (durations E cmd (k + W) R)
    /\ (forall d, In d (durations E cmd (k + W) R) -> (d <= s_max st)%Q)
    /\ s_stdev st = sd
    /\ s_answer st = output_of E cmd (k + W)
    /\ s_answer st = Some a.
Proof.
  intros HR Hwarm Hrun Hmean Hsd.
  unfold benchmark. rewrite (warmup_loop_ok E cmd W k Hwarm).
  destruct R as [| R]; [lia |].
  assert (H0 : output_of E cmd (k + W) = Some a) by (apply Hrun; lia).
  cbn [measure_loop]. rewrite (run_command_output E cmd _ a H0).
  rewrite measure_loop_latched by (intros i Hi; apply Hrun; lia).
  cbn [app]. unfold durations at 1. cbn [seq map].
  change (map (fun i => elapsed (spawn E cmd i)) (seq (Datatypes.S (k + W)) R))
    with (durations E cmd (Datatypes.S (k + W)) R).
  set (t := elapsed (spawn E cmd (k + W))).
  set (ts := durations E cmd (Datatypes.S (k + W)) R).
  assert (Hds : durations E cmd (k + W) (Datatypes.S R) = t :: ts) by reflexivity.
  rewrite Hds in *. cbn [summarise]. rewrite Hmean.
  replace (1 <? List.length (t :: ts))%nat with (2 <=? Datatypes.S R)%nat
    by (cbn [List.length]; unfold ts, durations;
        rewrite length_map, length_seq; destruct R; reflexivity).
  rewrite Hsd.
  eexists. split; [f_equal; lia |]. cbn [s_avg s_min s_max s_stdev s_answer].
  repeat split.
  - apply py_min_In.
  - apply py_min_le.
  - apply py_max_In.
  - apply py_max_ge.
  - now rewrite H0.
Qed.

(** C6.  When the [W] warm-up processes and the [R >= 1] measured ones all
    exit with status 0, the measured ones all print [a], and the measured
    durations are non-negative floats (differences of two readings of a
    monotonic clock), [benchmark] with the functions of the [statistics]
    module returns statistics over exactly the [R] measured durations:
    [avg] is their arithmetic mean converted to a float, a binary64 number
    nearest to it; [min] and [max] are their least and greatest element;
    [stdev] is, when [R >= 2], the correctly rounded square root of their
    sample variance (the sum of the squared deviations from the mean divided
    by [R - 1]), a binary64 number nearest to that root, and 0.0 when
    [R = 1]; [answer] is the output of the first measured run. *)
Theorem benchmark_consistent_runs (E : env) (cmd : list string)
    (R W k : nat) (a : string) :
  (1 <= R)%nat ->
  (forall i, (k <= i < k + W)%nat -> output_of E cmd i <> None) ->
  (forall i, (k + W <= i < k + W + R)%nat -> output_of E cmd i = Some a) ->
  (forall d, In d (durations E cmd (k + W) R) -> (0 <= d <= max_float)%Q) ->
  exists st : stats,
    benchmark (S := python_statistics) E cmd R W k = (Ok st, (k + W + R)%nat)
    /\ List.length (durations E cmd (k + W) R) = R
    /\ Float.of_fraction (exact_mean (durations E cmd (k + W) R))
       = Ok (s_avg st)
    /\ nearest_binary64 (exact_mean (durations E cmd (k + W) R)) (s_avg st)
    /\ In (s_min st) (durations E cmd (k + W) R)
    /\ (forall d, In d (durations E cmd (k + W) R) -> (s_min st <= d)%Q)
    /\ In (s_max st) (durations E cmd (k + W) R)
    /\ (forall d, In d (durations E cmd (k + W) R) -> (d <= s_max st)%Q)
    /\ (if (2 <=? R)%nat
        then Float.sqrt_of_frac (sample_variance (durations E cmd (k + W) R))
             = Ok (s_stdev st)
             /\ nearest_binary64_sqrt
                  (sample_variance (durations E cmd (k + W) R)) (s_stdev st)
        else s_stdev st = 0%Q)
    /\ s_answer st = output_of E cmd (k + W)
    /\ s_answer st = Some a.
Proof.
  intros HR Hwarm Hrun Hd.
  set (ds := durations E cmd (k + W) R) in *.
  assert (Hlen : List.length ds = R)
    by (unfold ds, durations; now rewrite length_map, length_seq).
  assert (Hne : ds <> []) by (destruct ds; [simpl in Hlen; lia | discriminate]).
  destruct (mean_spec ds Hne Hd) as [avg [Hmean [Havg Hnear]]].
  assert (Hsd : exists sd,
            (if (2 <=? R)%nat then PyStatistics.stdev ds else Ok 0%Q) = Ok sd
            /\ (if (2 <=? R)%nat
                then Float.sqrt_of_frac (sample_variance ds) = Ok sd
                     /\ nearest_binary64_sqrt (sample_variance ds) sd
                else sd = 0%Q)).
  { destruct (2 <=? R)%nat eqn:H2.
    - apply Nat.leb_le in H2. rewrite <- Hlen in H2.
      destruct (stdev_spec ds H2 Hd) as [sd [H1 [H3 H4]]].
      exists sd. auto.
    - exists 0%Q. split; reflexivity. }
  destruct Hsd as [sd [Hsd Hsdspec]].
  destruct (benchmark_summary (S := python_statistics) E cmd R W k a avg sd
              HR Hwarm Hrun Hmean Hsd)
    as [st [Hb [Hsavg [Hmin1 [Hmin2 [Hmax1 [Hmax2 [Hssd [Ha1 Ha2]]]]]]]]].
  exists st. rewrite Hsavg, Hssd. fold ds in Hmin1, Hmin2, Hmax1, Hmax2.
  repeat (split; [assumption |]). assumption.
Qed.

Lemma benchmark_consistent_runs_witness :
  exists st : stats,
    benchmark (S := python_statistics) (halving " 6857 ") ["main.py"] 3 2 0
    = (Ok st, 5%nat)
    /\ durations (halving " 6857 ") ["main.py"] 2 3
       = [(1 # 4)%Q; (1 # 8)%Q; (1 # 16)%Q]
    /\ s_avg st = (5254199565265579 # 36028797018963968)%Q
    /\ s_min st = (1 # 16)%Q
    /\ s_max st = (1 # 4)%Q
    /\ s_stdev st = (3439681032033369 # 36028797018963968)%Q
    /\ s_answer st = Some "6857".
Proof.
  destruct (benchmark_consistent_runs (halving " 6857 ") ["main.py"] 3 2 0 "6857")
    as [st [Hrun [_ [Havg [_ [Hmin [Hminle [Hmax [Hmaxle [[Hsd _] [_ Hanswer]]]]]]]]]]].
  - lia.
  - intros i _. discriminate.
  - intros i _. reflexivity.
  - intros d [<- | [<- | [<- | []]]]; split; vm_compute; discriminate.
  - exists st. split; [exact Hrun |]. split; [reflexivity |].
    assert (Ha : Float.of_fraction (exact_mean (durations (halving " 6857 ") ["main.py"] 2 3))
                 = Ok (5254199565265579 # 36028797018963968)%Q)
      by (vm_compute; reflexivity).
    assert (Hs : Float.sqrt_of_frac
                   (sample_variance (durations (halving " 6857 ") ["main.py"] 2 3))
                 = Ok (3439681032033369 # 36028797018963968)%Q)
      by (vm_compute; reflexivity).
    change (0 + 2)%nat with 2%nat in *.
    rewrite Ha in Havg. rewrite Hs in Hsd.
    injection Havg as <-. injection Hsd as <-.
    split; [reflexivity |].
    assert (Henum : forall x, In x [(1 # 4)%Q; (1 # 8)%Q; (1 # 16)%Q] ->
              x = (1 # 4)%Q \/ x = (1 # 8)%Q \/ x = (1 # 16)%Q)
      by (intros x [<- | [<- | [<- | []]]]; auto).
    assert (Hmin16 : (s_min st <= 1 # 16)%Q) by (apply Hminle; simpl; auto).
    assert (Hmax4 : (1 # 4 <= s_max st)%Q) by (apply Hmaxle; simpl; auto).
    split; [| split; [| split; [reflexivity | exact Hanswer]]].
    + destruct (Henum _ Hmin) as [H | [H | H]]; rewrite H in *;
        [exfalso; now apply Hmin16 | exfalso; now apply Hmin16 | reflexivity].
    + destruct (Henum _ Hmax) as [H | [H | H]]; rewrite H in *;
        [reflexivity | exfalso; now apply Hmax4 | exfalso; now apply Hmax4].
Defined.

(** The sampler at the first measured run whose output is not the latched
    one. *)
Lemma benchmark_first_mismatch {S : Statistics} (E : env) (cmd : list string)
    (R W k j : nat) (a b : string) :
  (1 <= j < R)%nat ->
  (forall i, (k <= i < k + W)%nat -> output_of E cmd i <> None) ->
  (forall i, (k + W <= i < k + W + j)%nat -> output_of E cmd i = Some a) ->
  output_of E cmd (k + W + j) = Some b ->
  a <> b ->
  benchmark E cmd R W k
  = (Raise (ValueError (inconsistent_output a b)), (k + W + j + 1)%nat)
  /\ forall st k', benchmark E cmd R W k <> (Ok st, k').
Proof.
  intros Hj Hwarm Hsame Hb Hab.
  assert (Hres : benchmark E cmd R W k
    = (Raise (ValueError (inconsistent_output a b)), (k + W + j + 1)%nat)).
  { unfold benchmark. rewrite (warmup_loop_ok E cmd W k Hwarm).
    destruct R as [| R]; [lia |]. destruct j as [| j]; [lia |].
    cbn [measure_loop].
    rewrite (run_command_output E cmd _ a) by (apply Hsame; lia).
    rewrite (measure_loop_mismatch E cmd R j _ a b).
    - f_equal. lia.
    - lia.
    - intros i Hi. apply Hsame. lia.
    - rewrite <- Hb. f_equal. lia.
    - exact Hab. }
  split; [exact Hres |]. intros st k'. rewrite Hres. discriminate.
Qed.

(** The least index below [n] at which a decidable property holds. *)
Lemma first_such (P : nat -> Prop) (dec : forall i, {P i} + {~ P i}) (n : nat) :
  (exists i, (i < n)%nat /\ P i) ->
  exists j, (j < n)%nat /\ P j /\ forall i, (i < j)%nat -> ~ P i.
Proof.
  induction n as [| n IH]; intros [i [Hi HP]]; [lia |].
  destruct (dec n) as [Hn | Hn].
  - assert (Hlt : {exists i', (i' < n)%nat /\ P i'} + {forall i', (i' < n)%nat -> ~ P i'}).
    { clear -dec. induction n as [| n IHn].
      - right. intros i' Hi'. lia.
      - destruct IHn as [He | Ha].
        + left. destruct He as [i' [Hi' HP']]. exists i'. split; [lia | exact HP'].
        + destruct (dec n) as [Hn | Hn].
          * left. exists n. split; [lia | exact Hn].
          * right. intros i' Hi'. destruct (Nat.eq_dec i' n) as [-> | Hne];
              [exact Hn | apply Ha; lia]. }
    destruct Hlt as [He | Ha].
    + destruct (IH He) as [j [Hj [HPj Hmin]]]. exists j. repeat split; auto.
    + exists n. repeat split; auto.
  - assert (Hi' : (i < n)%nat).
    { destruct (Nat.eq_dec i n) as [-> | Hne]; [contradiction | lia]. }
    destruct (IH (ex_intro _ i (conj Hi' HP))) as [j [Hj [HPj Hmin]]].
    exists j. repeat split; auto.
Qed.

Lemma option_string_dec (x y : option string) : {x = y} + {x <> y}.
Proof. decide equality. apply string_dec. Qed.

(** C7.  When the warm-up processes exit with status 0 and some measured
    run, reached through runs that all exit with status 0, prints something
    else than the first measured run, [benchmark] raises the inconsistency
    error at the first such run [j], naming the latched output [a] and the
    deviating one [b]; no process is spawned after that run, and no
    statistics are returned. *)
Theorem benchmark_inconsistent_runs {S : Statistics} (E : env) (cmd : list string)
    (R W k : nat) :
  (forall i, (k <= i < k + W)%nat -> output_of E cmd i <> None) ->
  (exists i, (i < R)%nat
     /\ (forall i', (i' <= i)%nat -> output_of E cmd (k + W + i') <> None)
     /\ output_of E cmd (k + W + i) <> output_of E cmd (k + W)) ->
  exists (j : nat) (a b : string),
    (1 <= j < R)%nat
    /\ output_of E cmd (k + W) = Some a
    /\ output_of E cmd (k + W + j) = Some b
    /\ a <> b
    /\ (forall i, (i < j)%nat -> output_of E cmd (k + W + i) = Some a)
    /\ benchmark E cmd R W k
       = (Raise (ValueError (inconsistent_output a b)), (k + W + j + 1)%nat)
    /\ forall st k', benchmark E cmd R W k <> (Ok st, k').
Proof.
  intros Hwarm [i [Hi [Hout Hdiff]]].
  destruct (first_such
              (fun n => output_of E cmd (k + W + n) <> output_of E cmd (k + W))
              (fun n => match option_string_dec (output_of E cmd (k + W + n))
                                (output_of E cmd (k + W)) with
                        | left e => right (fun H => H e)
                        | right ne => left ne
                        end)
              (Datatypes.S i)) as [j [Hj [Hjd Hmin]]].
  { exists i. split; [lia | exact Hdiff]. }
  assert (Hj0 : j <> 0%nat).
  { intros ->. apply Hjd. f_equal. lia. }
  destruct (output_of E cmd (k + W)) as [a |] eqn:Ha.
  2:{ exfalso. apply (Hout 0%nat); [lia |]. rewrite Nat.add_0_r. exact Ha. }
  destruct (output_of E cmd (k + W + j)) as [b |] eqn:Hb.
  2:{ exfalso. apply (Hout j); [lia | exact Hb]. }
  assert (Hsame : forall n, (n < j)%nat -> output_of E cmd (k + W + n) = Some a).
  { intros n Hn.
    destruct (option_string_dec (output_of E cmd (k + W + n)) (Some a)) as [e | ne];
      [exact e | exfalso; exact (Hmin n Hn ne)]. }
  assert (Hab : a <> b) by congruence.
  exists j, a, b.
  destruct (benchmark_first_mismatch E cmd R W k j a b) as [Hres Hno]; auto.
  - lia.
  - intros n Hn. replace n with (k + W + (n - (k + W)))%nat by lia.
    apply Hsame. lia.
  - repeat split; auto; lia.
Qed.

Lemma benchmark_inconsistent_runs_witness :
  exists (j : nat) (a b : string),
    benchmark (S := rational_statistics) (drifting "42" "43" 4) ["main.py"] 5 2 0
    = (Raise (ValueError (inconsistent_output a b)), (0 + 2 + j + 1)%nat).
Proof.
  destruct (benchmark_inconsistent_runs (S := rational_statistics)
              (drifting "42" "43" 4) ["main.py"] 5 2 0)
    as [j [a [b [_ [_ [_ [_ [_ [H _]]]]]]]]].
  - intros i _. unfold output_of. simpl. destruct (i <? 4)%nat; discriminate.
  - exists 3%nat. split; [lia |]. split.
    + intros i' _. unfold output_of. simpl. destruct (i' <? 2)%nat; discriminate.
    + discriminate.
  - exists j, a, b. exact H.
Defined.

(** Whatever the machine does, statistics returned by [benchmark] carry an
    answer: [statistics.mean] rejects the empty list of durations, and a
    non-empty list means a first measured run that latched its output. *)
Lemma measure_loop_answer {S : Statistics} (E : env) (cmd : list string) (n : nat) :
  forall times answer k times' answer' k',
  measure_loop E cmd n times answer k = (Ok (times', answer'), k') ->
  (answer = None -> times = []) ->
  answer' = None -> times' = [].
Proof.
  induction n as [| n IH]; intros times answer k times' answer' k' H Hinv; simpl in H.
  - inversion H; subst. exact Hinv.
  - destruct (run_command E cmd k) as [[o | e] k1]; [| discriminate].
    destruct answer as [a |].
    + destruct (negb (String.eqb a o)); [discriminate |].
      eapply IH; [exact H | discriminate].
    + eapply IH; [exact H | discriminate].
Qed.

(** What [summarise] returns, when it returns. *)
Lemma summarise_ok {S : Statistics} (times : list Q) (answer : option string)
    (st : stats) :
  summarise times answer = Ok st ->
  exists t ts,
    times = t :: ts
    /\ statistics_mean times = Ok (s_avg st)
    /\ (if (1 <? List.length times)%nat then statistics_stdev times else Ok 0%Q)
       = Ok (s_stdev st)
    /\ s_min st = py_min t ts
    /\ s_max st = py_max t ts
    /\ s_answer st = answer.
Proof.
  unfold summarise. destruct times as [| t ts]; [discriminate |].
  destruct (statistics_mean (t :: ts)) as [avg | e]; [| discriminate].
  destruct (if (1 <? List.length (t :: ts))%nat
            then statistics_stdev (t :: ts) else Ok 0%Q) as [sd | e];
    [| discriminate].
  intros H. inversion H. exists t, ts. cbn. repeat split; reflexivity.
Qed.

Lemma benchmark_answer_some {S : Statistics} (E : env) (cmd : list string)
    (R W k k' : nat) (st : stats) :
  benchmark E cmd R W k = (Ok st, k') -> s_answer st <> None.
Proof.
  unfold benchmark. intros H.
  destruct (warmup_loop E cmd W k) as [[[] | e] k1]; [| discriminate].
  destruct (measure_loop E cmd R [] None k1) as [[[times answer] | e] k2] eqn:Hm;
    [| discriminate].
  pose proof (measure_loop_answer E cmd R _ _ _ _ _ _ Hm (fun _ => eq_refl)) as Hinv.
  inversion H as [[Hs Hk]]. apply summarise_ok in Hs.
  destruct Hs as [t [ts [-> [_ [_ [_ [_ Ha]]]]]]].
  rewrite Ha. intros Hnone. specialize (Hinv Hnone). discriminate.
Qed.

(** ** Result store *)

Lemma Qltb_iff (x y : Q) : Qltb x y = true <-> (x < y)%Q.
Proof.
  split; [apply Qltb_lt |].
  intros H. destruct (Qltb x y) eqn:E; [reflexivity |].
  apply Qltb_ge in E. exfalso. exact (Qlt_not_le _ _ H E).
Qed.

Lemma ascii_compare_refl (c : ascii) : Ascii.compare c c = Eq.
Proof. unfold Ascii.compare. apply N.compare_refl. Qed.

Lemma string_leb_trans (a : string) :
  forall b c, String.leb a b = true -> String.leb b c = true -> String.leb a c = true.
Proof.
  unfold String.leb.
  induction a as [| x a IH]; intros [| y b] [| z c]; simpl; try easy.
  destruct (Ascii.compare x y) eqn:Exy; try easy;
    destruct (Ascii.compare y z) eqn:Eyz; try easy.
  - apply Ascii.compare_eq_iff in Exy, Eyz. subst.
    rewrite ascii_compare_refl. apply IH.
  - apply Ascii.compare_eq_iff in Exy. subst. now rewrite Eyz.
  - apply Ascii.compare_eq_iff in Eyz. subst. now rewrite Exy.
  - unfold Ascii.compare in *. rewrite N.compare_lt_iff in *.
    assert (H : (N_of_ascii x < N_of_ascii z)%N) by lia.
    apply N.compare_lt_iff in H. now rewrite H.
Qed.

(** A stored problem number fits a signed 64-bit integer. *)
Lemma row_in_range (r : row) : in_int64 (problem r) = true.
Proof. exact (int64_range (problem_col r)). Qed.

Lemma to_int64_val (z : Z) : in_int64 z = true -> int64_val (to_int64 z) = z.
Proof.
  intros H. unfold to_int64.
  destruct (Bool.bool_dec (in_int64 z) true); [reflexivity | contradiction].
Qed.

Lemma problem_row_of (p : Z) (l : string) (s : stats) (ts : string) :
  in_int64 p = true -> problem (row_of p l s ts) = p.
Proof. intros H. unfold problem, row_of. cbn [problem_col]. now apply to_int64_val. Qed.

Lemma string_ltb_leb (a b : string) : String.ltb a b = negb (String.leb b a).
Proof.
  unfold String.ltb, String.leb. rewrite (String.compare_antisym b a).
  destruct (String.compare a b); reflexivity.
Qed.

Lemma first_answered_some (p : Z) (t : table) (r : row) :
  first_answered p t = Some r -> In r t /\ answered p r = true.
Proof.
  revert r. induction t as [| x t IH]; intros r; cbn [first_answered];
    [discriminate |].
  destruct (answered p x) eqn:Hx.
  - destruct (first_answered p t) as [r' |].
    + destruct (String.ltb (language r') (language x)); intros H; inversion H; subst.
      * destruct (IH r eq_refl) as [Hin Ha]. split; [now right | exact Ha].
      * split; [now left | exact Hx].
    + intros H; inversion H; subst. split; [now left | exact Hx].
  - intros H. destruct (IH r H) as [Hin Ha]. split; [now right | exact Ha].
Qed.

Lemma first_answered_none (p : Z) (t : table) :
  first_answered p t = None -> forall r, In r t -> answered p r = false.
Proof.
  induction t as [| x t IH]; cbn [first_answered]; intros H r Hin; [contradiction |].
  destruct (answered p x) eqn:Hx.
  - destruct (first_answered p t) as [r' |];
      [destruct (String.ltb (language r') (language x)) |]; discriminate.
  - destruct Hin as [<- | Hin]; [exact Hx | now apply IH].
Qed.

(** The search stops at a row of least language. *)
Lemma first_answered_least (p : Z) (t : table) (r : row) :
  first_answered p t = Some r ->
  forall r', In r' t -> answered p r' = true ->
  String.leb (language r) (language r') = true.
Proof.
  revert r. induction t as [| x t IH]; intros r; cbn [first_answered];
    [discriminate |].
  intros H r' Hin Ha.
  destruct (answered p x) eqn:Hx.
  - destruct (first_answered p t) as [b |] eqn:Hb.
    + rewrite string_ltb_leb in H.
      destruct (String.leb (language x) (language b)) eqn:Hxb;
        cbn [negb] in H; inversion H; subst.
      * destruct Hin as [<- | Hin].
        -- destruct (String.leb_total (language r) (language r)); assumption.
        -- apply string_leb_trans with (language b); [exact Hxb |].
           now apply (IH b eq_refl).
      * destruct Hin as [Heq | Hin]; [| now apply (IH r eq_refl)].
        subst r'.
        destruct (String.leb_total (language r) (language x)) as [Hl | Hl];
          [exact Hl | congruence].
    + inversion H; subst. destruct Hin as [<- | Hin].
      * destruct (String.leb_total (language r) (language r)); assumption.
      * rewrite (first_answered_none p t Hb r' Hin) in Ha. discriminate.
  - destruct Hin as [<- | Hin]; [congruence | now apply (IH r H)].
Qed.

Lemma answered_iff (p : Z) (r : row) :
  answered p r = true <-> problem r = p /\ answer r <> None.
Proof.
  unfold answered. rewrite andb_true_iff, Z.eqb_eq.
  destruct (answer r); simpl; split; intros [H1 H2]; split;
    congruence || discriminate || auto.
Qed.

Lemma select_answer_some (p : Z) (t : table) (a : string) :
  select_answer p t = Some a ->
  exists r, In r t /\ problem r = p /\ answer r = Some a.
Proof.
  unfold select_answer.
  destruct (first_answered p t) as [r |] eqn:F; [| discriminate].
  intros H. apply first_answered_some in F. destruct F as [Hin Hf].
  apply answered_iff in Hf. destruct Hf as [Hp _].
  exists r. repeat split; assumption.
Qed.

Lemma select_answer_none (p : Z) (t : table) :
  select_answer p t = None ->
  forall r, In r t -> problem r = p -> answer r = None.
Proof.
  unfold select_answer. intros H r Hin Hp.
  destruct (first_answered p t) as [r0 |] eqn:F.
  - apply first_answered_some in F. destruct F as [_ Hf].
    apply answered_iff in Hf. destruct Hf as [_ Hs]. congruence.
  - pose proof (first_answered_none p t F r Hin) as Hn.
    destruct (answer r) as [x |] eqn:Hx; [| reflexivity].
    assert (answered p r = true) by (apply answered_iff; split; congruence).
    congruence.
Qed.

Lemma option_string_eqb_eq (a b : option string) :
  option_string_eqb a b = true <-> a = b.
Proof.
  destruct a as [x |], b as [y |]; simpl; split; intros H;
    try discriminate; try reflexivity.
  - apply String.eqb_eq in H. now subst.
  - inversion H. apply String.eqb_refl.
Qed.

Lemma has_key_iff (p : Z) (l : string) (r : row) :
  has_key p l r = true <-> problem r = p /\ language r = l.
Proof.
  unfold has_key. rewrite andb_true_iff, Z.eqb_eq, String.eqb_eq. tauto.
Qed.

(** A key that some row holds is in range. *)
Lemma find_key_in_range (p : Z) (l : string) (t : table) (old : row) :
  find (has_key p l) t = Some old -> in_int64 p = true.
Proof.
  intros H. apply find_some in H. destruct H as [_ Hk].
  apply has_key_iff in Hk. destruct Hk as [<- _]. apply row_in_range.
Qed.

(** A problem number outside the signed 64-bit range: on a live connection
    and an existing table the first statement raises [OverflowError] when the
    number is bound, and nothing is written. *)
Lemma update_database_overflow (p : Z) (l : string) (s : stats) (ts : string)
    (t : table) :
  in_int64 p = false ->
  update_database Connection p l s ts (Some t) = (Raise OverflowError, Some t).
Proof.
  intros H. unfold update_database, bind, cursor, ret, bound. now rewrite H.
Qed.

(** The body of [update_database] on a live connection and an existing
    table, for a problem number in range, as one case analysis. *)
Lemma update_database_unfold (p : Z) (l : string) (s : stats) (ts : string)
    (t : table) :
  in_int64 p = true ->
  update_database Connection p l s ts (Some t)
  = match select_answer p t with
    | Some a =>
        if option_string_eqb (s_answer s) (Some a)
        then match select_min_time p l t with
             | None =>
                 match insert (row_of p l s ts) t with
                 | Ok t' => (Ok (true, "new"), Some t')
                 | Raise e => (Raise e, Some t)
                 end
             | Some m =>
                 if Qltb (s_min s) m
                 then (Ok (true, "improved"),
                       Some (replace_row p l (row_of p l s ts) t))
                 else (Ok (false, "slower"), Some t)
             end
        else (Raise (ValueError (answer_mismatch p a (s_answer s))), Some t)
    | None =>
        match select_min_time p l t with
        | None =>
            match insert (row_of p l s ts) t with
            | Ok t' => (Ok (true, "new"), Some t')
            | Raise e => (Raise e, Some t)
            end
        | Some m =>
            if Qltb (s_min s) m
            then (Ok (true, "improved"),
                  Some (replace_row p l (row_of p l s ts) t))
            else (Ok (false, "slower"), Some t)
        end
    end.
Proof.
  intros Hp.
  unfold update_database, bind, cursor, ret, raise, bound, query, execute,
    update, replace_row.
  rewrite Hp, (problem_row_of p l s ts Hp). cbn [language row_of].
  destruct (select_answer p t) as [a |].
  - destruct (option_string_eqb (s_answer s) (Some a)); cbn [negb].
    + destruct (select_min_time p l t) as [m |].
      * destruct (Qltb (s_min s) m); reflexivity.
      * destruct (insert (row_of p l s ts) t); reflexivity.
    + reflexivity.
  - destruct (select_min_time p l t) as [m |].
    + destruct (Qltb (s_min s) m); reflexivity.
    + destruct (insert (row_of p l s ts) t); reflexivity.
Qed.

(** A call that succeeds was made with a problem number in range. *)
Lemma update_database_in_range (p : Z) (l : string) (s : stats) (ts : string)
    (t : table) (status : bool * string) (db : database) :
  update_database Connection p l s ts (Some t) = (Ok status, db) ->
  in_int64 p = true.
Proof.
  destruct (in_int64 p) eqn:Hp; [reflexivity |].
  rewrite (update_database_overflow p l s ts t Hp). discriminate.
Qed.

Lemma insert_row_of (p : Z) (l : string) (s : stats) (ts : string) (t : table) :
  in_int64 p = true ->
  insert (row_of p l s ts) t
  = if existsb (has_key p l) t then Raise IntegrityError
    else Ok (t ++ [row_of p l s ts]).
Proof.
  intros Hp. unfold insert. rewrite (problem_row_of p l s ts Hp).
  reflexivity.
Qed.

Lemma has_key_row_of (p : Z) (l : string) (s : stats) (ts : string) :
  in_int64 p = true -> has_key p l (row_of p l s ts) = true.
Proof.
  intros Hp. apply has_key_iff. split; [now apply problem_row_of | reflexivity].
Qed.

Lemma has_key_row_of_iff (p' p : Z) (l' l : string) (s : stats) (ts : string) :
  in_int64 p = true ->
  has_key p' l' (row_of p l s ts) = true -> p' = p /\ l' = l.
Proof.
  intros Hp Hk. apply has_key_iff in Hk. rewrite (problem_row_of p l s ts Hp) in Hk.
  cbn [language row_of] in Hk. destruct Hk; split; congruence.
Qed.

Lemma no_conflict_check (p : Z) (s : stats) (t : table) (a : string) :
  no_conflict p s t -> select_answer p t = Some a -> s_answer s = Some a.
Proof.
  intros Hnc Hsel. apply select_answer_some in Hsel.
  destruct Hsel as [r [Hin [Hp Ha]]].
  rewrite <- Ha. symmetry. apply Hnc; [exact Hin | exact Hp | congruence].
Qed.

Lemma select_min_time_none (p : Z) (l : string) (t : table) :
  (forall r, In r t -> ~ (problem r = p /\ language r = l)) ->
  select_min_time p l t = None /\ existsb (has_key p l) t = false.
Proof.
  intros H. assert (Hall : forall r, In r t -> has_key p l r = false).
  { intros r Hin. destruct (has_key p l r) eqn:Hk; [| reflexivity].
    apply has_key_iff in Hk. exfalso. exact (H r Hin Hk). }
  split.
  - unfold select_min_time. destruct (find (has_key p l) t) as [r |] eqn:F.
    + apply find_some in F. destruct F as [Hin Hk]. rewrite Hall in Hk by exact Hin.
      discriminate.
    + reflexivity.
  - destruct (existsb (has_key p l) t) eqn:Ex; [| reflexivity].
    apply existsb_exists in Ex. destruct Ex as [r [Hin Hk]].
    rewrite Hall in Hk by exact Hin. discriminate.
Qed.

Lemma filter_none {A} (f : A -> bool) (l : list A) :
  (forall x, In x l -> f x = false) -> filter f l = [].
Proof.
  induction l as [| x l IH]; intros H; simpl; [reflexivity |].
  rewrite (H x) by now left. apply IH. intros y Hy. apply H. now right.
Qed.

(** C8, as the code has it.  For a problem number that fits a signed 64-bit
    integer: when the table holds no row for the key [(p, l)] and no stored
    answer of problem [p] conflicts with the answer of [s], the call inserts
    the row made of [p], [l], the five values of [s] and the current
    timestamp, returns [(True, "new")], and the table then holds exactly one
    row for that key. *)
Theorem update_database_new (p : Z) (l : string) (s : stats) (ts : string)
    (t : table) :
  in_int64 p = true ->
  (forall r, In r t -> ~ (problem r = p /\ language r = l)) ->
  no_conflict p s t ->
  update_database Connection p l s ts (Some t)
  = (Ok (true, "new"), Some (t ++ [row_of p l s ts]))
  /\ filter (has_key p l) (t ++ [row_of p l s ts]) = [row_of p l s ts]
  /\ problem (row_of p l s ts) = p
  /\ language (row_of p l s ts) = l
  /\ min_time (row_of p l s ts) = s_min s
  /\ avg_time (row_of p l s ts) = s_avg s
  /\ max_time (row_of p l s ts) = s_max s
  /\ stdev (row_of p l s ts) = s_stdev s
  /\ timestamp (row_of p l s ts) = ts
  /\ answer (row_of p l s ts) = s_answer s.
Proof.
  intros Hp Hkey Hnc.
  destruct (select_min_time_none p l t Hkey) as [Hmin Hex].
  assert (Hins : insert (row_of p l s ts) t = Ok (t ++ [row_of p l s ts])).
  { rewrite insert_row_of by exact Hp. now rewrite Hex. }
  split; [| split; [| split; [now apply problem_row_of | repeat split]]].
  - rewrite update_database_unfold by exact Hp. rewrite Hmin, Hins.
    destruct (select_answer p t) as [a |] eqn:Hsel; [| reflexivity].
    rewrite (no_conflict_check p s t a Hnc Hsel).
    replace (option_string_eqb (Some a) (Some a)) with true
      by (symmetry; now apply option_string_eqb_eq).
    reflexivity.
  - rewrite filter_app. rewrite filter_none.
    + simpl. now rewrite has_key_row_of.
    + intros r Hin. destruct (has_key p l r) eqn:Hk; [| reflexivity].
      apply has_key_iff in Hk. exfalso. exact (Hkey r Hin Hk).
Qed.

Lemma update_database_new_witness :
  update_database Connection 1 "python" (sample_stats (1 # 2) "42")
    "2025-01-01T00:00:00" (Some [])
  = (Ok (true, "new"), Some [sample_row 1 "python" (1 # 2) "42"]).
Proof.
  apply (update_database_new 1 "python" (sample_stats (1 # 2) "42")
           "2025-01-01T00:00:00" []).
  - reflexivity.
  - intros r [].
  - intros r [].
Defined.

(** C8, as the specification words it, fails for a problem number that does
    not fit a signed 64-bit integer: a directory named
    [problem-9223372036854775808] is discovered with the number [2 ^ 63];
    on the empty table no record exists for the key and no answer
    conflicts, and yet the call raises [OverflowError] and the table stays
    empty. *)
Lemma update_database_new_out_of_range :
  discover_problems "python"
    [("python", Dir [("problem-9223372036854775808", script_dir)])]
  = Ok [ {| number := 2 ^ 63;
            path := "python/problem-9223372036854775808" |} ]
  /\ (forall r, In r [] -> ~ (problem r = (2 ^ 63)%Z /\ language r = "python"))
  /\ no_conflict (2 ^ 63) (sample_stats (1 # 2) "42") []
  /\ update_database Connection (2 ^ 63) "python" (sample_stats (1 # 2) "42")
       "2025-01-01T00:00:00" (Some [])
     = (Raise OverflowError, Some [])
  /\ forall status t,
       update_database Connection (2 ^ 63) "python" (sample_stats (1 # 2) "42")
         "2025-01-01T00:00:00" (Some [])
       <> (Ok status, Some t).
Proof.
  split; [reflexivity |]. split; [intros r [] |]. split; [intros r [] |].
  assert (H : update_database Connection (2 ^ 63) "python"
                (sample_stats (1 # 2) "42") "2025-01-01T00:00:00" (Some [])
              = (Raise OverflowError, Some []))
    by (now apply update_database_overflow).
  split; [exact H |]. intros status t. rewrite H. discriminate.
Qed.

(** C1, as the code has it.  When the first row found for the key [(p, l)]
    is [old] and no stored answer of problem [p] conflicts with the answer of
    [s]: if the new [min] is strictly below the stored one, the rows with
    that key are overwritten in place with the values of [s] and the current
    timestamp, and the call returns [(True, "improved")]; otherwise the table
    is left as it is and the call returns [(False, "slower")]. *)
Theorem update_database_existing (p : Z) (l : string) (s : stats) (ts : string)
    (t : table) (old : row) :
  find (has_key p l) t = Some old ->
  no_conflict p s t ->
  ((s_min s < min_time old)%Q ->
     update_database Connection p l s ts (Some t)
     = (Ok (true, "improved"), Some (replace_row p l (row_of p l s ts) t)))
  /\ (~ (s_min s < min_time old)%Q ->
     update_database Connection p l s ts (Some t)
     = (Ok (false, "slower"), Some t)).
Proof.
  intros Hfind Hnc.
  pose proof (find_key_in_range p l t old Hfind) as Hp.
  assert (Hmin : select_min_time p l t = Some (min_time old)).
  { unfold select_min_time. now rewrite Hfind. }
  assert (Hcheck : forall a, select_answer p t = Some a ->
            option_string_eqb (s_answer s) (Some a) = true).
  { intros a Ha. apply option_string_eqb_eq. now apply no_conflict_check with p t. }
  split; intros Hlt; rewrite update_database_unfold by exact Hp; rewrite Hmin.
  - apply Qltb_iff in Hlt. rewrite Hlt.
    destruct (select_answer p t) as [a |]; [rewrite Hcheck |]; reflexivity.
  - assert (Hf : Qltb (s_min s) (min_time old) = false).
    { destruct (Qltb _ _) eqn:E; [| reflexivity].
      apply Qltb_iff in E. contradiction. }
    rewrite Hf.
    destruct (select_answer p t) as [a |]; [rewrite Hcheck |]; reflexivity.
Qed.

Lemma update_database_existing_witness :
  update_database Connection 1 "python" (sample_stats (2 # 5) "42")
    "2025-02-02T00:00:00" (Some [sample_row 1 "python" (1 # 2) "42"])
  = (Ok (true, "improved"),
     Some [row_of 1 "python" (sample_stats (2 # 5) "42") "2025-02-02T00:00:00"]).
Proof.
  apply (update_database_existing 1 "python" (sample_stats (2 # 5) "42")
           "2025-02-02T00:00:00" [sample_row 1 "python" (1 # 2) "42"]
           (sample_row 1 "python" (1 # 2) "42")).
  - reflexivity.
  - intros r [<- | []] _ _. reflexivity.
  - reflexivity.
Defined.

(** C1, as the specification words it, fails: with [min = 0.5] stored for
    (1, python) and a new [min = 0.6], the status returned is not
    ["unchanged"]. *)
Lemma update_database_status_not_unchanged :
  find (has_key 1 "python") [sample_row 1 "python" (1 # 2) "42"]
  = Some (sample_row 1 "python" (1 # 2) "42")
  /\ ~ (s_min (sample_stats (3 # 5) "42")
        < min_time (sample_row 1 "python" (1 # 2) "42"))%Q
  /\ update_database Connection 1 "python" (sample_stats (3 # 5) "42")
       "2025-02-02T00:00:00" (Some [sample_row 1 "python" (1 # 2) "42"])
     = (Ok (false, "slower"), Some [sample_row 1 "python" (1 # 2) "42"])
  /\ forall accepted db,
       update_database Connection 1 "python" (sample_stats (3 # 5) "42")
         "2025-02-02T00:00:00" (Some [sample_row 1 "python" (1 # 2) "42"])
       <> (Ok (accepted, "unchanged"), db).
Proof.
  split; [reflexivity |]. split; [intros H; discriminate H |].
  split; [reflexivity |]. intros accepted db. vm_compute. discriminate.
Qed.

(** C2.  When the non-NULL answers stored for problem [p] agree with one
    another, as they do in every table that the calls of [update_database]
    build (lemma [written_agree_on] below), and some row of problem [p],
    whatever its language, holds a non-NULL answer [a] other than the answer
    of [s], the call raises the answer-mismatch error and leaves the table
    exactly as it was: no row is inserted, none is changed. *)
Theorem update_database_mismatch (p : Z) (l : string) (s : stats) (ts : string)
    (t : table) (r : row) (a : string) :
  agree_on p t ->
  In r t -> problem r = p -> answer r = Some a ->
  s_answer s <> Some a ->
  update_database Connection p l s ts (Some t)
  = (Raise (ValueError (answer_mismatch p a (s_answer s))), Some t).
Proof.
  intros Hagree Hin Hp Ha Hdiff.
  assert (Hrange : in_int64 p = true) by (rewrite <- Hp; apply row_in_range).
  rewrite update_database_unfold by exact Hrange.
  destruct (select_answer p t) as [a' |] eqn:Hsel.
  - destruct (select_answer_some p t a' Hsel) as [r' [Hin' [Hp' Ha']]].
    assert (a' = a) by (apply (Hagree r' r a' a); assumption). subst a'.
    destruct (option_string_eqb (s_answer s) (Some a)) eqn:Heq; [| reflexivity].
    apply option_string_eqb_eq in Heq. contradiction.
  - pose proof (select_answer_none p t Hsel r Hin Hp). congruence.
Qed.

Lemma update_database_mismatch_witness :
  update_database Connection 1 "go" (sample_stats (1 # 2) "43")
    "2025-02-02T00:00:00" (Some [sample_row 1 "python" (1 # 2) "42"])
  = (Raise (ValueError (answer_mismatch 1 "42" (Some "43"))),
     Some [sample_row 1 "python" (1 # 2) "42"]).
Proof.
  apply (update_database_mismatch 1 "go" (sample_stats (1 # 2) "43")
           "2025-02-02T00:00:00" [sample_row 1 "python" (1 # 2) "42"]
           (sample_row 1 "python" (1 # 2) "42") "42").
  - intros r r' a a' [<- | []] [<- | []] _ _ H H'. simpl in H, H'. congruence.
  - now left.
  - reflexivity.
  - reflexivity.
  - discriminate.
Defined.

(** What a successful call does to the table. *)
Lemma update_database_ok (p : Z) (l : string) (s : stats) (ts : string)
    (t t' : table) (status : bool * string) :
  update_database Connection p l s ts (Some t) = (Ok status, Some t') ->
  (forall a, select_answer p t = Some a -> s_answer s = Some a)
  /\ (t' = t \/ t' = t ++ [row_of p l s ts]
      \/ t' = replace_row p l (row_of p l s ts) t).
Proof.
  intros H. pose proof (update_database_in_range _ _ _ _ _ _ _ H) as Hp.
  rewrite update_database_unfold in H by exact Hp.
  assert (Hshape :
    match select_min_time p l t with
    | None =>
        match insert (row_of p l s ts) t with
        | Ok t0 => (Ok (true, "new"), Some t0)
        | Raise e => (Raise e, Some t)
        end
    | Some m =>
        if Qltb (s_min s) m
        then (Ok (true, "improved"), Some (replace_row p l (row_of p l s ts) t))
        else (Ok (false, "slower"), Some t)
    end = (Ok status, Some t') ->
    t' = t \/ t' = t ++ [row_of p l s ts]
    \/ t' = replace_row p l (row_of p l s ts) t).
  { destruct (select_min_time p l t) as [m |].
    - destruct (Qltb (s_min s) m); intros E; inversion E; auto.
    - unfold insert. destruct (existsb _ t); intros E; inversion E; auto. }
  destruct (select_answer p t) as [a |].
  - destruct (option_string_eqb (s_answer s) (Some a)) eqn:Heq; [| discriminate].
    apply option_string_eqb_eq in Heq. split; [| now apply Hshape].
    intros a0 Ha0. congruence.
  - split; [discriminate | now apply Hshape].
Qed.

(** Every row of the table after a successful call is a row of the table
    before it, or carries the problem and the answer of the call. *)
Lemma update_database_rows (p : Z) (l : string) (s : stats) (ts : string)
    (t t' : table) (status : bool * string) :
  update_database Connection p l s ts (Some t) = (Ok status, Some t') ->
  forall r, In r t' -> In r t \/ (problem r = p /\ answer r = s_answer s).
Proof.
  intros H r Hin. pose proof (update_database_in_range _ _ _ _ _ _ _ H) as Hp.
  apply update_database_ok in H.
  destruct H as [_ [-> | [-> | ->]]].
  - now left.
  - apply in_app_or in Hin. destruct Hin as [Hin | [<- | []]]; [now left |].
    right. split; [now apply problem_row_of | reflexivity].
  - unfold replace_row in Hin. apply in_map_iff in Hin.
    destruct Hin as [old [Hr Hold]].
    destruct (has_key p l old); subst; [| now left].
    right. split; [now apply problem_row_of | reflexivity].
Qed.

(** A successful call keeps the stored answers in agreement, whatever the
    statistics. *)
Lemma update_database_agree (p : Z) (l : string) (s : stats) (ts : string)
    (t t' : table) (status : bool * string) :
  answers_agree t ->
  update_database Connection p l s ts (Some t) = (Ok status, Some t') ->
  answers_agree t'.
Proof.
  intros Hagree H.
  pose proof (update_database_rows p l s ts t t' status H) as Hrows.
  apply update_database_ok in H. destruct H as [Hcheck _].
  assert (Hold : forall r a, In r t -> problem r = p -> answer r = Some a ->
                   s_answer s = Some a).
  { intros r a Hin Hp Ha.
    destruct (select_answer p t) as [a' |] eqn:Hsel.
    - destruct (select_answer_some p t a' Hsel) as [r' [Hin' [Hp' Ha']]].
      rewrite (Hcheck a' eq_refl). f_equal.
      apply (Hagree r' r a' a); congruence.
    - pose proof (select_answer_none p t Hsel r Hin Hp). congruence. }
  intros r1 r2 a1 a2 H1 H2 Hp Ha1 Ha2.
  destruct (Hrows r1 H1) as [Hin1 | [Hp1 Hs1]], (Hrows r2 H2) as [Hin2 | [Hp2 Hs2]].
  - now apply (Hagree r1 r2).
  - pose proof (Hold r1 a1 Hin1 (eq_trans Hp Hp2) Ha1). congruence.
  - assert (Hp2 : problem r2 = p) by congruence.
    pose proof (Hold r2 a2 Hin2 Hp2 Ha2). congruence.
  - congruence.
Qed.

(** The premise of C2 holds of the code: in every table built from the
    empty one by successful calls, whatever their statistics, the non-NULL
    answers of each problem agree. *)
Lemma written_agree (t : table) : written t -> answers_agree t.
Proof.
  induction 1 as [| t t' p l s ts status Hw IH Hcall].
  - intros r r' a a' [].
  - exact (update_database_agree p l s ts t t' status IH Hcall).
Qed.

Lemma written_agree_on (t : table) (p : Z) : written t -> agree_on p t.
Proof.
  intros Hw r r' a a' Hin Hin' Hp Hp' Ha Ha'.
  apply (written_agree t Hw r r' a a'); congruence.
Qed.

(** On a table edited from outside the program, whose rows for one problem
    already disagree, the answer compared is the one the index search meets
    first, the row of least language, wherever the rows lie in the table:
    with "42" stored for (1, python) and "43" for (1, go), a call with "43"
    is accepted and a call with "42" is refused with "43" as the expected
    answer. *)
Lemma update_database_index_order :
  update_database Connection 1 "rust" (sample_stats (1 # 2) "43")
    "2025-02-02T00:00:00"
    (Some [sample_row 1 "python" (1 # 2) "42"; sample_row 1 "go" (1 # 2) "43"])
  = (Ok (true, "new"),
     Some [sample_row 1 "python" (1 # 2) "42"; sample_row 1 "go" (1 # 2) "43";
           row_of 1 "rust" (sample_stats (1 # 2) "43") "2025-02-02T00:00:00"])
  /\ update_database Connection 1 "rust" (sample_stats (1 # 2) "42")
       "2025-02-02T00:00:00"
       (Some [sample_row 1 "python" (1 # 2) "42"; sample_row 1 "go" (1 # 2) "43"])
     = (Raise (ValueError (answer_mismatch 1 "43" (Some "42"))),
        Some [sample_row 1 "python" (1 # 2) "42"; sample_row 1 "go" (1 # 2) "43"])
  /\ select_answer 1
       [sample_row 1 "go" (1 # 2) "43"; sample_row 1 "python" (1 # 2) "42"]
     = Some "43".
Proof. repeat split; reflexivity. Qed.

Lemma reachable_invariant (t : table) :
  reachable t ->
  answers_agree t /\ forall r, In r t -> answer r <> None.
Proof.
  induction 1 as [| t t' p l s ts status Hreach [IHa IHn] Hs Hcall
                  | t t' Hreach [IHa IHn] Hperm].
  - split; [intros r r' a a' [] | intros r []].
  - split; [now apply (update_database_agree p l s ts t t' status) |].
    intros r Hin.
    destruct (update_database_rows p l s ts t t' status Hcall r Hin)
      as [Hold | [_ Hnew]]; [now apply IHn | congruence].
  - assert (Hin : forall r, In r t' -> In r t).
    { intros r Hr. apply Permutation_in with t'; [now apply Permutation_sym | exact Hr]. }
    split; [| intros r Hr; apply IHn; auto].
    intros r r' a a' Hr Hr'. apply IHa; auto.
Qed.

(** C5.  In every table reachable from the empty one by successful calls of
    [update_database], all rows of one problem carry the same answer. *)
Theorem reachable_one_answer_per_problem (t : table) :
  reachable t -> one_answer_per_problem t.
Proof.
  intros Hreach. destruct (reachable_invariant t Hreach) as [Hagree Hnn].
  intros r r' Hin Hin' Hp.
  destruct (answer r) as [a |] eqn:Ha; [| exfalso; now apply (Hnn r Hin)].
  destruct (answer r') as [a' |] eqn:Ha'; [| exfalso; now apply (Hnn r' Hin')].
  f_equal. now apply (Hagree r r').
Qed.

Lemma reachable_one_answer_per_problem_witness :
  one_answer_per_problem
    [sample_row 1 "python" (1 # 2) "42"; sample_row 1 "go" (1 # 3) "42"].
Proof.
  apply reachable_one_answer_per_problem.
  apply (reach_call [sample_row 1 "python" (1 # 2) "42"] _ 1 "go"
           (sample_stats (1 # 3) "42") "2025-01-01T00:00:00" (true, "new")).
  - apply (reach_call [] _ 1 "python" (sample_stats (1 # 2) "42")
             "2025-01-01T00:00:00" (true, "new")).
    + apply reach_empty.
    + discriminate.
    + reflexivity.
  - discriminate.
  - reflexivity.
Defined.

(** The premise that statistics carry an answer matters: a row inserted
    with a NULL answer is skipped by the check, and a later call of the same
    problem with an answer is accepted next to it. *)
Lemma update_database_null_answer :
  update_database Connection 1 "go" (sample_stats (1 # 2) "42")
    "2025-02-02T00:00:00"
    (Some [row_of 1 "python"
             {| s_avg := 1 # 2; s_min := 1 # 2; s_max := 1 # 2;
                s_stdev := 0%Q; s_answer := None |} "2025-01-01T00:00:00"])
  = (Ok (true, "new"),
     Some [row_of 1 "python"
             {| s_avg := 1 # 2; s_min := 1 # 2; s_max := 1 # 2;
                s_stdev := 0%Q; s_answer := None |} "2025-01-01T00:00:00";
           row_of 1 "go" (sample_stats (1 # 2) "42") "2025-02-02T00:00:00"]).
Proof. reflexivity. Qed.

Lemma filter_permutation {A} (f : A -> bool) (l l' : list A) :
  Permutation l l' -> Permutation (filter f l) (filter f l').
Proof.
  induction 1 as [| x l l' H IH | x y l | l l' l'' H1 IH1 H2 IH2]; simpl.
  - constructor.
  - destruct (f x); [now constructor | exact IH].
  - destruct (f x), (f y); try apply Permutation_refl. apply perm_swap.
  - now apply Permutation_trans with (filter f l').
Qed.

Lemma filter_map_same {A} (f : A -> bool) (g : A -> A) (l : list A) :
  (forall x, f (g x) = f x) -> filter f (map g l) = map g (filter f l).
Proof.
  intros H. induction l as [| x l IH]; [reflexivity |]. simpl.
  rewrite H. destruct (f x); simpl; now rewrite IH.
Qed.

Lemma has_key_replace (p l : _) (p0 : Z) (l0 : string) (s : stats) (ts : string)
    (r : row) :
  in_int64 p0 = true ->
  has_key p l (if has_key p0 l0 r then row_of p0 l0 s ts else r) = has_key p l r.
Proof.
  intros Hr. destruct (has_key p0 l0 r) eqn:Hk; [| reflexivity].
  apply has_key_iff in Hk. destruct Hk as [Hp Hl].
  unfold has_key. rewrite (problem_row_of p0 l0 s ts Hr). cbn [language row_of].
  now rewrite Hp, Hl.
Qed.

Lemma find_none_existsb {A} (f : A -> bool) (l : list A) :
  find f l = None -> existsb f l = false.
Proof.
  induction l as [| x l IH]; [reflexivity |]. simpl.
  destruct (f x); [discriminate | exact IH].
Qed.

(** The three ways a call succeeds. *)
Lemma update_database_cases (p : Z) (l : string) (s : stats) (ts : string)
    (t t' : table) (status : bool * string) :
  update_database Connection p l s ts (Some t) = (Ok status, Some t') ->
  (find (has_key p l) t = None
   /\ status = (true, "new") /\ t' = t ++ [row_of p l s ts])
  \/ (exists old, find (has_key p l) t = Some old
        /\ (s_min s < min_time old)%Q
        /\ status = (true, "improved")
        /\ t' = replace_row p l (row_of p l s ts) t)
  \/ (exists old, find (has_key p l) t = Some old
        /\ ~ (s_min s < min_time old)%Q
        /\ status = (false, "slower") /\ t' = t).
Proof.
  intros H. pose proof (update_database_in_range _ _ _ _ _ _ _ H) as Hp.
  rewrite update_database_unfold in H by exact Hp.
  assert (Hbody :
    match select_min_time p l t with
    | None =>
        match insert (row_of p l s ts) t with
        | Ok t0 => (Ok (true, "new"), Some t0)
        | Raise e => (Raise e, Some t)
        end
    | Some m =>
        if Qltb (s_min s) m
        then (Ok (true, "improved"), Some (replace_row p l (row_of p l s ts) t))
        else (Ok (false, "slower"), Some t)
    end = (Ok status, Some t')).
  { destruct (select_answer p t) as [x |]; [| exact H].
    destruct (option_string_eqb (s_answer s) (Some x)); [exact H | discriminate]. }
  clear H. unfold select_min_time in Hbody.
  destruct (find (has_key p l) t) as [old |] eqn:Hfind; cbn [option_map] in Hbody.
  - right. destruct (Qltb (s_min s) (min_time old)) eqn:Hlt; inversion Hbody; subst.
    + left. exists old. apply Qltb_iff in Hlt. auto.
    + right. exists old. repeat split; auto.
      intros Hc. apply Qltb_iff in Hc. congruence.
  - left. rewrite insert_row_of in Hbody by exact Hp.
    rewrite (find_none_existsb _ _ Hfind) in Hbody. inversion Hbody. auto.
Qed.

Lemma find_none_filter {A} (f : A -> bool) (l : list A) :
  find f l = None -> filter f l = [].
Proof.
  induction l as [| x l IH]; [reflexivity |]. simpl.
  destruct (f x); [discriminate | exact IH].
Qed.

(** A successful call keeps the primary key: at most one row per key. *)
Lemma update_database_unique (p : Z) (l : string) (s : stats)
    (ts : string) (t t' : table) (status : bool * string) :
  (forall p' l', (List.length (filter (has_key p' l') t) <= 1)%nat) ->
  update_database Connection p l s ts (Some t) = (Ok status, Some t') ->
  forall p' l', (List.length (filter (has_key p' l') t') <= 1)%nat.
Proof.
  intros Hkey H p' l'.
  pose proof (update_database_in_range _ _ _ _ _ _ _ H) as Hp.
  apply update_database_cases in H.
  destruct H as [[Hf [_ ->]] | [[old [Hf [Hlt [_ ->]]]] | [old [Hf [Hge [_ ->]]]]]].
  - rewrite filter_app, length_app. simpl.
    destruct (has_key p' l' (row_of p l s ts)) eqn:Hk; simpl;
      [| specialize (Hkey p' l'); lia].
    apply has_key_row_of_iff in Hk; [| exact Hp].
    destruct Hk as [-> ->]. rewrite (find_none_filter _ _ Hf). simpl. lia.
  - unfold replace_row.
    rewrite filter_map_same by (intros r; now apply has_key_replace).
    rewrite length_map. apply Hkey.
  - apply Hkey.
Qed.

(** A reachable table holds at most one row per key. *)
Lemma reachable_primary_key (t : table) :
  reachable t ->
  forall p l, (List.length (filter (has_key p l) t) <= 1)%nat.
Proof.
  induction 1 as [| t t' p0 l0 s ts status Hreach IH Hs Hcall
                  | t t' Hreach IH Hperm]; intros p l.
  - simpl. lia.
  - exact (update_database_unique p0 l0 s ts t t' status IH Hcall p l).
  - rewrite <- (Permutation_length (filter_permutation _ _ _ Hperm)). apply IH.
Qed.

(** ** Problem discovery *)

Lemma prefix_app (s1 : string) :
  forall s2, String.prefix s1 s2 = true -> exists r, s2 = (s1 ++ r)%string.
Proof.
  induction s1 as [| c s1 IH]; intros s2 H.
  - exists s2. reflexivity.
  - destruct s2 as [| c2 s2]; simpl in H; [discriminate |].
    destruct (ascii_dec c c2); [| discriminate]. subst.
    destruct (IH s2 H) as [r ->]. exists r. reflexivity.
Qed.

(** A name matched by the pattern [problem-*] has a second field, so
    [split("-")[1]] does not raise. *)
Lemma split_second_field (name : string) :
  String.prefix "problem-" name = true ->
  exists field, nth_error (Py.split "-" name) 1 = Some field.
Proof.
  intros H. apply prefix_app in H. destruct H as [r ->].
  unfold Py.split. simpl. destruct (Py.split_fields "-" r) as [h t].
  simpl. now exists h.
Qed.

Lemma int_raises_value_error (s : string) (e : exn) :
  Py.int s = Raise e -> exists msg, e = ValueError msg.
Proof.
  unfold Py.int. intros H.
  destruct (match Py.skip_trailing (Py.skip_leading s) with
            | String "+" r => Py.parse_digits r 0 false
            | String "-" r => option_map Z.opp (Py.parse_digits r 0 false)
            | _ => Py.parse_digits (Py.skip_trailing (Py.skip_leading s)) 0 false
            end); inversion H. eauto.
Qed.

Lemma discover_step_candidate (config : language_config)
    (problems : list problem_entry) (e : string * node) :
  String.prefix "problem-" (fst e) = true ->
  discover_step config problems e
  = Ok (problems ++ match candidate config e with Some p => [p] | None => [] end).
Proof.
  destruct e as [name nd]. cbn [fst]. intros H.
  destruct (split_second_field name H) as [field Hf].
  unfold discover_step, candidate. cbn [fst snd]. rewrite Hf.
  destruct nd as [| children]; [now rewrite app_nil_r |].
  destruct (Py.int field) as [n | x] eqn:Hint.
  - destruct (lookup (file_pattern config) children); [reflexivity |].
    now rewrite app_nil_r.
  - destruct (int_raises_value_error field x Hint) as [msg ->].
    now rewrite app_nil_r.
Qed.

Lemma discover_loop_candidates (config : language_config)
    (l : list (string * node)) :
  forall problems,
  (forall e, In e l -> String.prefix "problem-" (fst e) = true) ->
  discover_loop config problems l = Ok (problems ++ candidates config l).
Proof.
  induction l as [| e l IH]; intros problems H; simpl.
  - now rewrite app_nil_r.
  - rewrite discover_step_candidate by (apply H; now left).
    rewrite IH by (intros x Hx; apply H; now right).
    now rewrite <- app_assoc.
Qed.

(** [discover_problems] raises nothing. *)
Lemma discover_problems_total (language : string) (root : directory) :
  exists es, discover_problems language root = Ok es
             /\ (es <> [] -> lookup language LANGUAGE_CONFIGS <> None).
Proof.
  unfold discover_problems.
  destruct (lookup language LANGUAGE_CONFIGS) as [config |].
  - destruct (lookup (dir config) root) as [[| d] |].
    + exists []. split; [reflexivity | congruence].
    + rewrite discover_loop_candidates.
      * eexists. split; [reflexivity | discriminate].
      * intros e He. unfold sorted_paths in He.
        apply (Permutation_in _ (Permutation_sym (NameSort.Permuted_sort _))) in He.
        unfold glob_problems in He. apply filter_In in He. tauto.
    + exists []. split; [reflexivity | congruence].
  - exists []. split; [reflexivity | congruence].
Qed.

(** C9, as the code has it.  An unknown language and an absent language
    directory give the empty list.  Otherwise the result is made of the
    candidates among the entries named [problem-*], one entry each, taken in
    ascending lexical order of the entry name; nothing is raised.  On
    [problem-3], [problem-4] and [problem-abc] the result is the entries 3
    and 4, in this order. *)
Theorem discover_problems_candidates (language : string) (root : directory) :
  (lookup language LANGUAGE_CONFIGS = None ->
     discover_problems language root = Ok [])
  /\ (forall config, lookup language LANGUAGE_CONFIGS = Some config ->
        (lookup (dir config) root = None ->
           discover_problems language root = Ok [])
        /\ (forall d, lookup (dir config) root = Some (Dir d) ->
              exists l,
                Permutation l (glob_problems d)
                /\ StronglySorted
                     (fun x y => String.leb (fst x) (fst y) = true) l
                /\ discover_problems language root = Ok (candidates config l)))
  /\ discover_problems "python" sample_root
     = Ok [ {| number := 3; path := "python/problem-3" |};
            {| number := 4; path := "python/problem-4" |} ].
Proof.
  split; [| split].
  - intros H. unfold discover_problems. now rewrite H.
  - intros config Hc. split.
    + intros H. unfold discover_problems. now rewrite Hc, H.
    + intros d Hd. exists (sorted_paths (glob_problems d)).
      split; [| split].
      * apply Permutation_sym, NameSort.Permuted_sort.
      * apply NameSort.StronglySorted_sort.
        intros x y z Hxy Hyz. unfold is_true in *.
        now apply string_leb_trans with (fst y).
      * unfold discover_problems. rewrite Hc, Hd.
        rewrite discover_loop_candidates; [reflexivity |].
        intros e He. unfold sorted_paths in He.
        apply (Permutation_in _ (Permutation_sym (NameSort.Permuted_sort _))) in He.
        unfold glob_problems in He. apply filter_In in He. tauto.
  - reflexivity.
Qed.

(** What makes a directory entry a candidate. *)
Lemma candidate_iff (config : language_config) (name : string) (nd : node)
    (p : problem_entry) :
  candidate config (name, nd) = Some p
  <-> exists children field,
        nd = Dir children
        /\ nth_error (Py.split "-" name) 1 = Some field
        /\ Py.int field = Ok (number p)
        /\ lookup (file_pattern config) children <> None
        /\ path p = join (dir config) name.
Proof.
  unfold candidate. cbn [fst snd]. split.
  - destruct nd as [| children]; [discriminate |].
    destruct (nth_error (Py.split "-" name) 1) as [field |]; [| discriminate].
    destruct (Py.int field) as [n |] eqn:Hint; [| discriminate].
    destruct (lookup (file_pattern config) children) eqn:Hl; [| discriminate].
    intros H. inversion H; subst. exists children, field. cbn.
    repeat split; try assumption. congruence.
  - intros [children [field [-> [-> [-> [Hl Hp]]]]]].
    destruct (lookup (file_pattern config) children); [| congruence].
    destruct p as [m q]. cbn in *. now subst.
Qed.

Lemma discover_problems_candidates_witness :
  exists l,
    Permutation l
      [("problem-abc", script_dir); ("problem-4", script_dir);
       ("problem-3", script_dir)]
    /\ StronglySorted (fun x y => String.leb (fst x) (fst y) = true) l
    /\ discover_problems "python" sample_root
       = Ok (candidates
               {| dir := "python"; command_prefix := ["uv"; "run"; "python"];
                  file_pattern := "main.py" |} l).
Proof.
  destruct (discover_problems_candidates "python" sample_root) as [_ [H _]].
  destruct (H {| dir := "python"; command_prefix := ["uv"; "run"; "python"];
                 file_pattern := "main.py" |} eq_refl) as [_ Hd].
  exact (Hd _ eq_refl).
Defined.

(** C9, as the specification words it, fails: a directory [problem-3-old]
    is not named [problem-<integer>] and yet gives entry 3, and it comes
    after [problem-10], whose entry is 10. *)
Lemma discover_problems_not_by_convention :
  problem_integer_name "problem-3-old" = false
  /\ discover_problems "python" odd_root
     = Ok [ {| number := 10; path := "python/problem-10" |};
            {| number := 3; path := "python/problem-3-old" |} ].
Proof. split; reflexivity. Qed.

(** ** Orchestrator *)

Lemma update_database_none (p : Z) (l : string) (s : stats) (ts : string)
    (db : database) :
  update_database PyNone p l s ts db
  = (Raise (AttributeError "'NoneType' object has no attribute 'cursor'"), db).
Proof. reflexivity. Qed.

Lemma get_all_results_none (db : database) :
  get_all_results PyNone db
  = (Raise (AttributeError "'NoneType' object has no attribute 'cursor'"), db).
Proof. reflexivity. Qed.

Lemma no_report_print (e : event) (r : run) :
  no_report r ->
  match e with WroteCsv _ | WroteMarkdown _ => False | _ => True end ->
  no_report (print e r).
Proof.
  intros Hr He x Hx. unfold print in Hx. cbn [printed] in Hx.
  apply in_app_or in Hx. destruct Hx as [Hx | [<- | []]]; [now apply Hr | exact He].
Qed.

Lemma no_report_exported (r : run) : no_report r -> exported r = false.
Proof.
  unfold no_report, exported. intros H.
  destruct (existsb _ (printed r)) eqn:Ex; [| reflexivity].
  apply existsb_exists in Ex. destruct Ex as [e [Hin He]].
  specialize (H e Hin). destruct e; try discriminate; contradiction.
Qed.

Section OrchestratorFacts.
Context {S : Statistics}.
Variable E : env.
Variable project_root : directory.
Variable a : args.
Variable conn : handle.

Lemma attempt_no_report (language : string) (config : language_config)
    (r : run) (p : problem_entry) :
  no_report r -> no_report (attempt E conn language config r p).
Proof.
  intros Hr. unfold attempt.
  assert (H0 : no_report (print (Running (number p) language) (count_benchmark r))).
  { apply no_report_print; [exact Hr | exact I]. }
  set (r0 := print (Running (number p) language) (count_benchmark r)) in *.
  destruct (benchmark E (command language config p) RUNS WARMUP (spawned r0))
    as [[st | e] k].
  - destruct (update_database conn (number p) language st (now E k) (store r0))
      as [[[accepted status] | e] db].
    + destruct (String.eqb status "new"); [| destruct (String.eqb status "improved")];
        apply no_report_print; try exact I; exact H0.
    + apply no_report_print; [exact H0 | exact I].
  - apply no_report_print; [exact H0 | exact I].
Qed.

(** A failure on one problem does not stop the loop: every problem handed to
    the loop is attempted. *)
Lemma attempt_counts (language : string) (config : language_config)
    (r : run) (p : problem_entry) :
  total_benchmarks (attempt E conn language config r p)
  = Datatypes.S (total_benchmarks r).
Proof.
  unfold attempt.
  destruct (benchmark E _ RUNS WARMUP _) as [[st | e] k]; [| reflexivity].
  destruct (update_database conn _ _ _ _ _) as [[[accepted status] | e] db];
    [| reflexivity].
  destruct (String.eqb status "new"); [| destruct (String.eqb status "improved")];
    reflexivity.
Qed.

Lemma attempts_all (language : string) (config : language_config)
    (ps : list problem_entry) :
  forall r,
  total_benchmarks (fold_left (attempt E conn language config) ps r)
  = (total_benchmarks r + List.length ps)%nat.
Proof.
  induction ps as [| p ps IH]; intros r; simpl.
  - lia.
  - rewrite IH, attempt_counts. lia.
Qed.

Lemma attempts_no_report (language : string) (config : language_config)
    (ps : list problem_entry) :
  forall r, no_report r ->
  no_report (fold_left (attempt E conn language config) ps r).
Proof.
  induction ps as [| p ps IH]; intros r Hr; simpl; [exact Hr |].
  apply IH. now apply attempt_no_report.
Qed.

Lemma language_loop_no_report (ls : list string) :
  forall r, no_report r ->
  no_report (snd (language_loop E project_root a conn ls r)).
Proof.
  induction ls as [| language ls IH]; intros r Hr; cbn [language_loop];
    [exact Hr |].
  destruct (discover_problems language project_root) as [problems | e];
    [| exact Hr].
  destruct (select a problems) as [| p ps].
  - apply IH. apply no_report_print; [exact Hr | exact I].
  - destruct (lookup language LANGUAGE_CONFIGS) as [config |]; [| exact Hr].
    apply IH. now apply attempts_no_report.
Qed.

End OrchestratorFacts.

(** C3.  [init_database] leaves the file with table [benchmarks] created
    (kept as it was when it existed) and returns [None]; [main] binds that
    value to [conn] once, so the whole run goes with [conn = None]. *)
Theorem init_database_returns_none {S : Statistics} (db : database) :
  fst (init_database db) = PyNone
  /\ snd (init_database db)
     = Some (match db with Some t => t | None => [] end)
  /\ forall (E : env) (project_root : directory) (a : args),
       main E project_root a db
       = orchestrate E project_root a PyNone (snd (init_database db)).
Proof.
  split; [reflexivity |]. split; [now destruct db |].
  intros E project_root a. reflexivity.
Qed.

(** C4 on the code.  On every machine, file tree, argument list and database
    file, [main] ends with an exception at top level, hence with exit status
    1, and neither report has been written.  (With [conn = None], [get_all_results]
    at line 328 raises outside the [try] block, when nothing earlier did.) *)
Theorem main_raises_before_export {S : Statistics} (E : env)
    (project_root : directory) (a : args) (db : database) :
  exists (e : exn) (r : run),
    main E project_root a db = (Raise e, r)
    /\ exit_code (fst (main E project_root a db)) = 1%Z
    /\ exported r = false.
Proof.
  unfold main. cbn [init_database]. unfold orchestrate.
  set (db' := match db with Some t => Some t | None => Some [] end).
  pose proof (language_loop_no_report E project_root a PyNone
                (languages a) (start db')) as Hn.
  destruct (language_loop E project_root a PyNone (languages a) (start db'))
    as [[[] | e] r]; cbn [snd] in Hn.
  - rewrite get_all_results_none. eexists. eexists.
    split; [reflexivity |]. split; [reflexivity |].
    apply no_report_exported. intros x Hx. apply Hn; [intros y [] | exact Hx].
  - exists e, r. split; [reflexivity |]. split; [reflexivity |].
    apply no_report_exported. apply Hn. intros y [].
Qed.

(** The run on the tree with [problem-3], [problem-4] and [problem-abc], no
    argument, a fresh database file and well-behaved scripts: both problems
    are attempted, both fail on [conn.cursor()], and the run ends on the same
    error at line 328. *)
Lemma main_on_sample_tree :
  fst (main (S := rational_statistics) (steady "6857" (1 # 2)) sample_root
         {| arg_language := None; arg_problem := None |} None)
  = Raise (AttributeError "'NoneType' object has no attribute 'cursor'")
  /\ printed (snd (main (S := rational_statistics) (steady "6857" (1 # 2))
                     sample_root
                     {| arg_language := None; arg_problem := None |} None))
     = [ Running 3 "python";
         ReportFailed (AttributeError "'NoneType' object has no attribute 'cursor'");
         Running 4 "python";
         ReportFailed (AttributeError "'NoneType' object has no attribute 'cursor'") ].
Proof. split; vm_compute; reflexivity. Qed.

(** With a live connection in [conn] the orchestrator does what C4 says:
    the loop completes, both reports are written and the exit status is 0. *)
Lemma update_database_keeps_table (p : Z) (l : string) (s : stats) (ts : string)
    (t : table) :
  exists t', snd (update_database Connection p l s ts (Some t)) = Some t'.
Proof.
  destruct (in_int64 p) eqn:Hp;
    [| rewrite update_database_overflow by exact Hp; eexists; reflexivity].
  rewrite update_database_unfold by exact Hp.
  destruct (select_answer p t) as [x |];
    [destruct (option_string_eqb (s_answer s) (Some x)) |];
    try (destruct (select_min_time p l t) as [m |];
         [destruct (Qltb (s_min s) m)
         | destruct (insert (row_of p l s ts) t)]);
    eexists; reflexivity.
Qed.

Section LiveConnection.
Context {S : Statistics}.
Variable E : env.
Variable project_root : directory.
Variable a : args.

Lemma attempt_keeps_table (language : string) (config : language_config)
    (r : run) (p : problem_entry) :
  (exists t, store r = Some t) ->
  exists t, store (attempt E Connection language config r p) = Some t.
Proof.
  intros [t Ht]. unfold attempt.
  cbn [store print count_benchmark spawned].
  destruct (benchmark E _ RUNS WARMUP _) as [[st | e] k];
    [| exists t; exact Ht].
  rewrite Ht.
  destruct (update_database_keeps_table (number p) language st (now E k) t)
    as [t' Ht'].
  destruct (update_database Connection _ _ _ _ _) as [[[accepted status] | e] db];
    cbn [snd] in Ht'; subst db.
  - destruct (String.eqb status "new"); [| destruct (String.eqb status "improved")];
      exists t'; reflexivity.
  - exists t'. reflexivity.
Qed.

Lemma attempts_keep_table (language : string) (config : language_config)
    (ps : list problem_entry) :
  forall r, (exists t, store r = Some t) ->
  exists t, store (fold_left (attempt E Connection language config) ps r) = Some t.
Proof.
  induction ps as [| p ps IH]; intros r Hr; simpl; [exact Hr |].
  apply IH. now apply attempt_keeps_table.
Qed.

Lemma language_loop_live (ls : list string) :
  forall r, (exists t, store r = Some t) ->
  exists r', language_loop E project_root a Connection ls r = (Ok tt, r')
             /\ exists t, store r' = Some t.
Proof.
  induction ls as [| language ls IH]; intros r Hr; cbn [language_loop].
  - exists r. split; [reflexivity | exact Hr].
  - destruct (discover_problems_total language project_root) as [es [-> Hes]].
    destruct (select a es) as [| p ps] eqn:Hsel.
    + apply IH. exact Hr.
    + assert (Hne : es <> []).
      { intros ->. unfold select in Hsel. destruct (arg_problem a); discriminate. }
      destruct (lookup language LANGUAGE_CONFIGS) as [config |];
        [| exfalso; now apply Hes].
      apply IH. now apply attempts_keep_table.
Qed.

Lemma orchestrate_live (t : table) :
  exists r, orchestrate E project_root a Connection (Some t) = (Ok tt, r)
            /\ exported r = true.
Proof.
  unfold orchestrate.
  destruct (language_loop_live (languages a) (start (Some t))) as [r [-> [t' Ht']]];
    [now exists t |].
  unfold get_all_results, bind, cursor, ret, query, close. rewrite Ht'.
  cbn [store print set_external export_markdown export_csv]. eexists.
  split; [reflexivity |].
  unfold exported, export_markdown, export_csv, print, set_external.
  cbn [printed spawned store total_benchmarks improved_count new_count].
  repeat rewrite existsb_app. cbn [existsb].
  repeat match goal with
    | |- context [existsb ?f (printed r)] => destruct (existsb f (printed r))
    end; reflexivity.
Qed.

End LiveConnection.

(** ** The two scripts *)

Section RangeLoop.
Variable factor stop : Z.

Lemma pow2_succ (d : nat) : (2 ^ Z.of_nat (S d) = 2 * 2 ^ Z.of_nat d)%Z.
Proof. rewrite Nat2Z.inj_succ. apply Z.pow_succ_r. lia. Qed.

Lemma pow2_pos (d : nat) : (0 < 2 ^ Z.of_nat d)%Z.
Proof. apply Z.pow_pos_nonneg; lia. Qed.

(** When the budget of [2 ^ d] steps ends before the loop does, the loop has
    stepped over [2 ^ d] values, none of which divides [factor]. *)
Lemma iterate_range_inl (d : nat) :
  forall n n',
  Problem3.iterate (Problem3.range_step factor stop) d n = inl n' ->
  (n' = n + 2 ^ Z.of_nat d
   /\ n' <= stop
   /\ forall i, n <= i < n' -> factor mod i <> 0)%Z.
Proof.
  induction d as [| d IH]; intros n n' H.
  - cbn [Problem3.iterate] in H. unfold Problem3.range_step in H.
    destruct (stop <=? n)%Z eqn:Hs; [discriminate |].
    destruct (factor mod n =? 0)%Z eqn:Hm; [discriminate |].
    inversion H; subst. apply Z.leb_gt in Hs. apply Z.eqb_neq in Hm.
    change (2 ^ Z.of_nat 0)%Z with 1%Z. repeat split; try lia.
    intros i Hi. assert (i = n) by lia. now subst.
  - cbn [Problem3.iterate] in H.
    destruct (Problem3.iterate (Problem3.range_step factor stop) d n)
      as [m | r] eqn:H1; [| discriminate].
    apply IH in H1. apply IH in H. rewrite pow2_succ.
    destruct H1 as [-> [H1s H1d]], H as [-> [Hs Hd]].
    repeat split; try lia.
    intros i Hi. pose proof (pow2_pos d).
    destruct (Z_lt_le_dec i (n + 2 ^ Z.of_nat d)); [apply H1d | apply Hd]; lia.
Qed.

(** When the loop ends within the budget, it ends as the [for] loop does: at
    the least [m >= n] below [stop] that divides [factor], or at [stop] when
    there is none. *)
Lemma iterate_range_inr (d : nat) :
  forall n r,
  Problem3.iterate (Problem3.range_step factor stop) d n = inr r ->
  match r with
  | Some m =>
      (n <= m < stop /\ factor mod m = 0
       /\ forall i, n <= i < m -> factor mod i <> 0)%Z
  | None => forall i, (n <= i < stop -> factor mod i <> 0)%Z
  end.
Proof.
  induction d as [| d IH]; intros n r H.
  - cbn [Problem3.iterate] in H. unfold Problem3.range_step in H.
    destruct (stop <=? n)%Z eqn:Hs.
    + inversion H; subst. apply Z.leb_le in Hs. intros i Hi. lia.
    + destruct (factor mod n =? 0)%Z eqn:Hm; [| discriminate].
      inversion H; subst. apply Z.leb_gt in Hs. apply Z.eqb_eq in Hm.
      repeat split; try lia.
  - cbn [Problem3.iterate] in H.
    destruct (Problem3.iterate (Problem3.range_step factor stop) d n)
      as [m | r0] eqn:H1.
    + apply iterate_range_inl in H1. destruct H1 as [Hm [Hms Hmd]].
      apply IH in H. pose proof (pow2_pos d).
      destruct r as [m' |].
      * destruct H as [Hr [Hz Hd]]. repeat split; try lia.
        intros i Hi. destruct (Z_lt_le_dec i m); [apply Hmd | apply Hd]; lia.
      * intros i Hi. destruct (Z_lt_le_dec i m); [apply Hmd | apply H]; lia.
    + inversion H; subst. now apply IH.
Qed.

Lemma iterate_range_total (d : nat) (n : Z) :
  (stop - n < 2 ^ Z.of_nat d)%Z ->
  exists r, Problem3.iterate (Problem3.range_step factor stop) d n = inr r.
Proof.
  intros Hd.
  destruct (Problem3.iterate (Problem3.range_step factor stop) d n)
    as [n' | r] eqn:H; [| now exists r].
  apply iterate_range_inl in H. lia.
Qed.

End RangeLoop.

(** The inner loop of problem 3, lines 9-14, stops at the least
    [n] in [range(2, int(factor/2))] dividing [factor]; it runs to the end
    of the range when there is none. *)
Lemma first_divisor_spec (factor : Z) :
  match Problem3.first_divisor factor with
  | Some m =>
      (2 <= m < Problem3.int_truediv factor 2 /\ factor mod m = 0
       /\ forall i, 2 <= i < m -> factor mod i <> 0)%Z
  | None =>
      forall i, (2 <= i < Problem3.int_truediv factor 2 -> factor mod i <> 0)%Z
  end.
Proof.
  unfold Problem3.first_divisor.
  set (stop := Problem3.int_truediv factor 2).
  destruct (iterate_range_total factor stop (Z.to_nat (Z.log2_up stop)) 2)
    as [r Hr].
  - rewrite Z2Nat.id by apply Z.log2_up_nonneg.
    destruct (Z_le_gt_dec stop 1) as [Hs | Hs].
    + pose proof (Z.pow_pos_nonneg 2 (Z.log2_up stop) ltac:(lia)
                    (Z.log2_up_nonneg stop)). lia.
    + pose proof (Z.log2_up_spec stop ltac:(lia)). lia.
  - rewrite Hr. now apply iterate_range_inr in Hr.
Qed.

(** More fuel does not change the outcome of the outer loop. *)
Lemma while_loop_more (fuel : nat) :
  forall factors r fuel',
  Problem3.while_loop fuel factors = Some r ->
  (fuel <= fuel')%nat ->
  Problem3.while_loop fuel' factors = Some r.
Proof.
  induction fuel as [| fuel IH]; intros factors r fuel' H Hle; [discriminate |].
  destruct fuel' as [| fuel']; [lia |].
  cbn [Problem3.while_loop] in *.
  destruct (fold_left Problem3.visit factors ([], false)) as [updated found].
  destruct found; [| exact H].
  apply IH; [exact H | lia].
Qed.

(** C10.  Problem 3: the outer loop exits on its fourth turn, the one in
    which no factor is found among [{1471, 6857}], and the script prints the
    single line [6857] and ends normally, for every fuel of at least 4.
    Problem 4: the script (two bounded loops) prints the single line
    [906609] and ends normally. *)
Theorem scripts_terminate :
  (Problem3.while_loop 4 [600851475143%Z] = Some [1471%Z; 6857%Z]
   /\ fold_left Problem3.visit [1471%Z; 6857%Z] ([], false) = ([], false)
   /\ forall fuel, (4 <= fuel)%nat ->
        Problem3.main fuel = Some (Ok tt, ["6857"]))
  /\ Problem4.main = (Ok tt, ["906609"]).
Proof.
  assert (H4 : Problem3.while_loop 4 [600851475143%Z] = Some [1471%Z; 6857%Z])
    by (vm_compute; reflexivity).
  split; [split; [exact H4 | split] |].
  - vm_compute. reflexivity.
  - intros fuel Hfuel. unfold Problem3.main.
    rewrite (while_loop_more 4 _ _ fuel H4 Hfuel). vm_compute. reflexivity.
  - vm_compute. reflexivity.
Qed.

Lemma scripts_terminate_witness :
  Problem3.main 4 = Some (Ok tt, ["6857"]).
Proof.
  destruct scripts_terminate as [[_ [_ H]] _]. apply (H 4%nat). lia.
Defined.

(** * Further properties *)

(** ** Process runner and timing sampler *)

Section SamplerInversion.
Context {S : Statistics}.
Variable E : env.
Variable cmd : list string.

Lemma run_command_inv (k k' : nat) (r : result string) :
  run_command E cmd k = (r, k') ->
  k' = Datatypes.S k
  /\ match r with
     | Ok o => output_of E cmd k = Some o
     | Raise e => subprocess_run (process (spawn E cmd k)) = Raise e
     end.
Proof.
  unfold run_command, output_of.
  destruct (subprocess_run (process (spawn E cmd k))) as [out | e];
    intros H; inversion H; subst; auto.
Qed.

Lemma warmup_loop_inv (n : nat) :
  forall k k' u,
  warmup_loop E cmd n k = (Ok u, k') ->
  k' = (k + n)%nat
  /\ forall i, (k <= i < k + n)%nat -> output_of E cmd i <> None.
Proof.
  induction n as [| n IH]; intros k k' u H; simpl in H.
  - inversion H; subst. split; [lia | intros i Hi; lia].
  - destruct (run_command E cmd k) as [[o | e] k1] eqn:Hr; [| discriminate].
    apply run_command_inv in Hr. destruct Hr as [-> Ho].
    apply IH in H. destruct H as [-> Hall].
    split; [lia |]. intros i Hi.
    destruct (Nat.eq_dec i k) as [-> | Hne]; [congruence | apply Hall; lia].
Qed.

Lemma measure_loop_inv (n : nat) :
  forall times answer k times' answer' k',
  measure_loop E cmd n times answer k = (Ok (times', answer'), k') ->
  k' = (k + n)%nat
  /\ times' = times ++ durations E cmd k n
  /\ match answer with
     | Some a => answer' = Some a
     | None => n = 0%nat -> answer' = None
     end
  /\ forall a, answer' = Some a ->
       forall i, (k <= i < k + n)%nat -> output_of E cmd i = Some a.
Proof.
  induction n as [| n IH]; intros times answer k times' answer' k' H; simpl in H.
  - inversion H; subst. unfold durations. simpl. rewrite app_nil_r.
    split; [lia |]. split; [reflexivity |]. split.
    + destruct answer'; auto.
    + intros a _ i Hi. lia.
  - destruct (run_command E cmd k) as [[o | e] k1] eqn:Hr; [| discriminate].
    apply run_command_inv in Hr. destruct Hr as [-> Ho].
    assert (Hd : forall ts, (ts ++ [elapsed (spawn E cmd k)])
                            ++ durations E cmd (Datatypes.S k) n
                            = ts ++ durations E cmd k (Datatypes.S n)).
    { intros ts. unfold durations. simpl. now rewrite <- app_assoc. }
    destruct answer as [a |].
    + destruct (String.eqb a o) eqn:Hao; [| discriminate]. simpl in H.
      apply String.eqb_eq in Hao. subst o.
      apply IH in H. destruct H as [-> [-> [Ha Hall]]].
      rewrite Hd. split; [lia |]. split; [reflexivity |]. split; [exact Ha |].
      intros a' Ha' i Hi. rewrite Ha in Ha'. inversion Ha'; subst a'.
      destruct (Nat.eq_dec i k) as [-> | Hne]; [exact Ho | apply Hall; auto; lia].
    + apply IH in H. destruct H as [-> [-> [Ha Hall]]].
      rewrite Hd. split; [lia |]. split; [reflexivity |]. split; [intros; lia |].
      intros a' Ha' i Hi. rewrite Ha in Ha'. inversion Ha'; subst a'.
      destruct (Nat.eq_dec i k) as [-> | Hne]; [exact Ho | apply Hall; auto; lia].
Qed.

End SamplerInversion.

(** Statistics are returned only for runs that all went well: when
    [benchmark] returns [st], at least one run was measured, exactly
    [W + R] processes were spawned, each of them exited with status 0, every
    measured run printed the answer held by [st], and [st] summarises the
    [R] measured durations. *)
Theorem benchmark_sound {S : Statistics} (E : env) (cmd : list string)
    (R W k k' : nat) (st : stats) :
  benchmark E cmd R W k = (Ok st, k') ->
  (1 <= R)%nat
  /\ k' = (k + W + R)%nat
  /\ (forall i, (k <= i < k + W + R)%nat -> output_of E cmd i <> None)
  /\ (exists a, s_answer st = Some a
        /\ forall i, (k + W <= i < k + W + R)%nat -> output_of E cmd i = Some a)
  /\ summarise (durations E cmd (k + W) R) (s_answer st) = Ok st.
Proof.
  unfold benchmark. intros H.
  destruct (warmup_loop E cmd W k) as [[u | e] k1] eqn:Hw; [| discriminate].
  apply warmup_loop_inv in Hw. destruct Hw as [-> Hwarm].
  destruct (measure_loop E cmd R [] None (k + W)) as [[[times answer] | e] k2] eqn:Hm;
    [| discriminate].
  pose proof (measure_loop_answer E cmd R _ _ _ _ _ _ Hm (fun _ => eq_refl)) as Hnone.
  apply measure_loop_inv in Hm. destruct Hm as [-> [Ht [_ Hall]]].
  cbn [app] in Ht. subst times.
  inversion H as [[Hs Hk]]. clear H.
  assert (Hans : s_answer st = answer).
  { destruct (summarise_ok _ _ _ Hs) as [t [ts [_ [_ [_ [_ [_ Ha]]]]]]]. exact Ha. }
  assert (HR : (1 <= R)%nat).
  { destruct R as [| R]; [| lia]. unfold durations in Hs. simpl in Hs. discriminate. }
  destruct answer as [a |].
  2:{ specialize (Hnone eq_refl). unfold durations in Hnone.
      destruct R; [lia | simpl in Hnone; discriminate]. }
  repeat split; auto.
  - intros i Hi. destruct (le_lt_dec (k + W) i) as [Hge | Hlt].
    + rewrite (Hall a eq_refl i) by lia. discriminate.
    + apply Hwarm. lia.
  - exists a. split; [exact Hans |]. intros i Hi. now apply Hall.
  - now rewrite Hans.
Qed.

Lemma benchmark_sound_witness :
  exists a, s_answer (sample_stats (1 # 2) "6857") = Some a
            /\ output_of (steady " 6857 " (1 # 2)) ["main.py"] 2 = Some a.
Proof.
  destruct (benchmark_sound (S := rational_statistics) (steady " 6857 " (1 # 2))
              ["main.py"] 1 2 0 3
              {| s_avg := exact_mean [(1 # 2)%Q]; s_min := (1 # 2)%Q;
                 s_max := (1 # 2)%Q; s_stdev := 0%Q; s_answer := Some "6857" |}
              eq_refl)
    as [_ [_ [_ [[a [Ha Hall]] _]]]].
  exists a. split; [exact Ha | apply Hall; lia].
Defined.

Lemma py_min_le_max (l : list Q) (x : Q) : (py_min x l <= py_max x l)%Q.
Proof.
  apply Qle_trans with x; [apply py_min_le | apply py_max_ge]; now left.
Qed.

Lemma benchmark_ok_summarise {S : Statistics} (E : env) (cmd : list string)
    (R W k k' : nat) (st : stats) :
  benchmark E cmd R W k = (Ok st, k') ->
  exists times answer, summarise times answer = Ok st.
Proof.
  unfold benchmark. intros H.
  destruct (warmup_loop E cmd W k) as [[u | e] k1]; [| discriminate].
  destruct (measure_loop E cmd R [] None k1) as [[[times answer] | e] k2];
    [| discriminate].
  inversion H. eauto.
Qed.

(** Whatever the machine does, statistics returned by [benchmark] have
    [min <= max]. *)
Theorem benchmark_min_le_max {S : Statistics} (E : env) (cmd : list string)
    (R W k k' : nat) (st : stats) :
  benchmark E cmd R W k = (Ok st, k') -> (s_min st <= s_max st)%Q.
Proof.
  intros H. apply benchmark_ok_summarise in H. destruct H as [times [answer H]].
  apply summarise_ok in H. destruct H as [t [ts [_ [_ [_ [-> [-> _]]]]]]].
  apply py_min_le_max.
Qed.

Lemma benchmark_min_le_max_witness :
  (s_min {| s_avg := exact_mean [(1 # 2)%Q]; s_min := (1 # 2)%Q;
            s_max := (1 # 2)%Q; s_stdev := 0%Q; s_answer := Some "6857" |}
   <= (1 # 2))%Q.
Proof.
  exact (benchmark_min_le_max (S := rational_statistics) (steady " 6857 " (1 # 2))
           ["main.py"] 1 2 0 3 _ eq_refl).
Defined.

Section SamplerFailures.
Context {S : Statistics}.
Variable E : env.
Variable cmd : list string.

Lemma run_command_raise (k : nat) (e : exn) :
  subprocess_run (process (spawn E cmd k)) = Raise e ->
  run_command E cmd k = (Raise e, Datatypes.S k).
Proof. unfold run_command. now intros ->. Qed.

Lemma warmup_loop_fail (j : nat) :
  forall n k e,
  (j < n)%nat ->
  (forall i, (k <= i < k + j)%nat -> output_of E cmd i <> None) ->
  subprocess_run (process (spawn E cmd (k + j))) = Raise e ->
  warmup_loop E cmd n k = (Raise e, (k + j + 1)%nat).
Proof.
  induction j as [| j IH]; intros n k e Hj Hok Hfail;
    (destruct n as [| n]; [lia |]); simpl.
  - rewrite Nat.add_0_r in Hfail. rewrite (run_command_raise k e Hfail).
    f_equal. lia.
  - destruct (run_command_some E cmd k) as [o Ho]; [apply Hok; lia |].
    rewrite Ho. rewrite (IH n (Datatypes.S k) e).
    + f_equal. lia.
    + lia.
    + intros i Hi. apply Hok. lia.
    + rewrite <- Hfail. do 3 f_equal. lia.
Qed.

Lemma measure_loop_fail (j : nat) :
  forall n times answer a k e,
  (j < n)%nat ->
  (forall i, (k <= i < k + j)%nat -> output_of E cmd i = Some a) ->
  answer = None \/ answer = Some a ->
  subprocess_run (process (spawn E cmd (k + j))) = Raise e ->
  measure_loop E cmd n times answer k = (Raise e, (k + j + 1)%nat).
Proof.
  induction j as [| j IH]; intros n times answer a k e Hj Hok Hans Hfail;
    (destruct n as [| n]; [lia |]); simpl.
  - rewrite Nat.add_0_r in Hfail. rewrite (run_command_raise k e Hfail).
    f_equal. lia.
  - rewrite (run_command_output E cmd k a) by (apply Hok; lia).
    assert (Hnext : forall ts,
              measure_loop E cmd n ts (Some a) (Datatypes.S k)
              = (Raise e, (k + Datatypes.S j + 1)%nat)).
    { intros ts. rewrite (IH n ts (Some a) a (Datatypes.S k) e).
      - f_equal. lia.
      - lia.
      - intros i Hi. apply Hok. lia.
      - now right.
      - rewrite <- Hfail. do 3 f_equal. lia. }
    destruct Hans as [-> | ->]; [apply Hnext |].
    rewrite String.eqb_refl. simpl. apply Hnext.
Qed.

Lemma warmup_loop_bound (n : nat) :
  forall k, (k <= snd (warmup_loop E cmd n k) <= k + n)%nat.
Proof.
  induction n as [| n IH]; intros k; simpl; [lia |].
  destruct (run_command E cmd k) as [[o | e] k1] eqn:Hr;
    apply run_command_inv in Hr; destruct Hr as [-> _].
  - specialize (IH (Datatypes.S k)). lia.
  - simpl. lia.
Qed.

Lemma measure_loop_bound (n : nat) :
  forall times answer k,
  (k <= snd (measure_loop E cmd n times answer k) <= k + n)%nat.
Proof.
  induction n as [| n IH]; intros times answer k; simpl; [lia |].
  destruct (run_command E cmd k) as [[o | e] k1] eqn:Hr;
    apply run_command_inv in Hr; destruct Hr as [-> _].
  - destruct answer as [a |].
    + destruct (negb (String.eqb a o)); simpl; [lia |].
      specialize (IH (times ++ [elapsed (spawn E cmd k)]) (Some a) (Datatypes.S k)).
      lia.
    + specialize (IH (times ++ [elapsed (spawn E cmd k)]) (Some o) (Datatypes.S k)).
      lia.
  - simpl. lia.
Qed.

End SamplerFailures.

(** No retry, no swallowing: when the [j]-th process of a sampling (warm-up
    or measured) is the first that cannot be launched or exits with a
    non-zero status, and the measured runs before it agree, [benchmark]
    raises that process's exception and spawns no further process. *)
Theorem benchmark_process_failure {S : Statistics} (E : env) (cmd : list string)
    (R W k j : nat) (a : string) (e : exn) :
  (j < W + R)%nat ->
  (forall i, (k <= i < k + j)%nat -> output_of E cmd i <> None) ->
  (forall i, (k + W <= i < k + j)%nat -> output_of E cmd i = Some a) ->
  subprocess_run (process (spawn E cmd (k + j))) = Raise e ->
  benchmark E cmd R W k = (Raise e, (k + j + 1)%nat).
Proof.
  intros Hj Hok Hsame Hfail. unfold benchmark.
  destruct (le_lt_dec W j) as [Hge | Hlt].
  - rewrite warmup_loop_ok by (intros i Hi; apply Hok; lia).
    rewrite (measure_loop_fail E cmd (j - W) R [] None a (k + W) e).
    + f_equal. lia.
    + lia.
    + intros i Hi. apply Hsame. lia.
    + now left.
    + rewrite <- Hfail. do 3 f_equal. lia.
  - now rewrite (warmup_loop_fail E cmd j W k e).
Qed.

(** A machine on which the processes exit with status 0 until the [n]-th
    one, which exits with status 1, as do the later ones. *)
Lemma benchmark_process_failure_witness :
  benchmark (S := rational_statistics)
    {| spawn := fun _ i =>
         {| process := Completed (if (i <? 3)%nat then 0 else 1) "42";
            elapsed := (1 # 2)%Q |};
       now := fun _ => "2025-01-01T00:00:00" |}
    ["main.py"] 4 2 0
  = (Raise (CalledProcessError 1), 4%nat).
Proof.
  apply (benchmark_process_failure (S := rational_statistics) _ ["main.py"]
           4 2 0 3 "42" (CalledProcessError 1)).
  - lia.
  - intros i Hi. assert (Hi' : i = 0%nat \/ i = 1%nat \/ i = 2%nat) by lia.
    destruct Hi' as [-> | [-> | ->]]; discriminate.
  - intros i Hi. assert (i = 2%nat) by lia. subst. reflexivity.
  - reflexivity.
Defined.

(** A sampling spawns at most [W + R] processes, whatever its outcome. *)
Theorem benchmark_spawn_bound {S : Statistics} (E : env) (cmd : list string)
    (R W k : nat) :
  (k <= snd (benchmark E cmd R W k) <= k + W + R)%nat.
Proof.
  unfold benchmark.
  pose proof (warmup_loop_bound E cmd W k) as Hw.
  destruct (warmup_loop E cmd W k) as [[u | e] k1]; cbn [snd] in *; [| lia].
  pose proof (measure_loop_bound E cmd R [] None k1) as Hm.
  destruct (measure_loop E cmd R [] None k1) as [[[times answer] | e] k2];
    cbn [snd] in *; lia.
Qed.

(** With no measured run there is nothing to summarise: after the warm-up
    runs, [statistics.mean] raises on the empty list of durations. *)
Theorem benchmark_no_runs {S : Statistics} (E : env) (cmd : list string)
    (W k : nat) :
  (forall i, (k <= i < k + W)%nat -> output_of E cmd i <> None) ->
  benchmark E cmd 0 W k = (Raise StatisticsError, (k + W)%nat).
Proof.
  intros Hwarm. unfold benchmark. now rewrite warmup_loop_ok.
Qed.

Lemma benchmark_no_runs_witness :
  benchmark (S := rational_statistics) (steady "42" (1 # 2)) ["main.py"] 0 5 0
  = (Raise StatisticsError, 5%nat).
Proof.
  apply (benchmark_no_runs (S := rational_statistics) (steady "42" (1 # 2))
           ["main.py"] 5 0).
  intros i _. discriminate.
Defined.

Lemma rstrip_cons (c : ascii) (s : string) :
  Py.rstrip (String c s)
  = match Py.rstrip s with
    | EmptyString => if Py.isspace c then EmptyString else String c EmptyString
    | r => String c r
    end.
Proof. reflexivity. Qed.

Lemma rstrip_idempotent (s : string) : Py.rstrip (Py.rstrip s) = Py.rstrip s.
Proof.
  induction s as [| c s IH]; [reflexivity |]. rewrite rstrip_cons.
  destruct (Py.rstrip s) as [| d r] eqn:Hr.
  - destruct (Py.isspace c) eqn:Hc; [reflexivity |].
    rewrite rstrip_cons. cbn [Py.rstrip]. now rewrite Hc.
  - rewrite rstrip_cons, IH. reflexivity.
Qed.

Lemma lstrip_head (s : string) :
  match Py.lstrip s with
  | EmptyString => True
  | String c _ => Py.isspace c = false
  end.
Proof.
  induction s as [| c s IH]; [exact I |]. cbn [Py.lstrip].
  destruct (Py.isspace c) eqn:Hc; [exact IH | exact Hc].
Qed.

Lemma rstrip_head (s : string) :
  match s with
  | EmptyString => True
  | String c _ => Py.isspace c = false
  end ->
  match Py.rstrip s with
  | EmptyString => True
  | String c _ => Py.isspace c = false
  end.
Proof.
  destruct s as [| c s]; [auto |]. intros Hc. cbn [Py.rstrip].
  destruct (Py.rstrip s); [now rewrite Hc | exact Hc].
Qed.

(** The output returned by [run_command] is trimmed: it neither starts nor
    ends with whitespace, so stripping it again on either side changes
    nothing. *)
Theorem run_command_stripped (E : env) (cmd : list string) (k k' : nat)
    (o : string) :
  run_command E cmd k = (Ok o, k') ->
  Py.lstrip o = o /\ Py.rstrip o = o.
Proof.
  unfold run_command.
  destruct (subprocess_run (process (spawn E cmd k))) as [out | e];
    intros H; inversion H; subst. unfold Py.strip. split.
  - pose proof (rstrip_head (Py.lstrip out) (lstrip_head out)) as Hh.
    destruct (Py.rstrip (Py.lstrip out)) as [| c r]; [reflexivity |].
    cbn [Py.lstrip]. now rewrite Hh.
  - apply rstrip_idempotent.
Qed.

Lemma run_command_stripped_witness :
  Py.lstrip "6857" = "6857" /\ Py.rstrip "6857" = "6857".
Proof.
  exact (run_command_stripped (steady "  6857  " (1 # 2)) ["main.py"] 0 1 "6857"
           eq_refl).
Defined.

(** ** Result store, further *)

Lemma find_app {A} (f : A -> bool) (l l' : list A) :
  find f (l ++ l')
  = match find f l with Some x => Some x | None => find f l' end.
Proof.
  induction l as [| x l IH]; [reflexivity |]. simpl.
  destruct (f x); [reflexivity | exact IH].
Qed.

Lemma find_replace_row (p : Z) (l : string) (new old : row) (t : table) :
  has_key p l new = true ->
  find (has_key p l) t = Some old ->
  find (has_key p l) (replace_row p l new t) = Some new.
Proof.
  intros Hnew. unfold replace_row.
  induction t as [| r t IH]; [discriminate |]. simpl.
  destruct (has_key p l r) eqn:Hr.
  - intros _. now rewrite Hnew.
  - rewrite Hr. exact IH.
Qed.

(** A call that raises has written nothing, and raises one of four errors:
    [AttributeError] when [conn] is [None]; on a live connection,
    [OperationalError] when the table is missing, [OverflowError] when the
    table exists and the problem number does not fit a signed 64-bit
    integer, and [ValueError] when the number fits and the answer at which
    the index search stops is not the answer of the statistics.  The
    insertion is never refused by the primary key. *)
Theorem update_database_failure (conn : handle) (p : Z) (l : string)
    (s : stats) (ts : string) (db db' : database) (e : exn) :
  update_database conn p l s ts db = (Raise e, db') ->
  db' = db
  /\ ((conn = PyNone
       /\ e = AttributeError "'NoneType' object has no attribute 'cursor'")
      \/ (conn = Connection /\ db = None /\ e = OperationalError)
      \/ (conn = Connection
          /\ (exists t, db = Some t)
          /\ in_int64 p = false
          /\ e = OverflowError)
      \/ (conn = Connection
          /\ in_int64 p = true
          /\ exists t a, db = Some t
               /\ select_answer p t = Some a
               /\ s_answer s <> Some a
               /\ e = ValueError (answer_mismatch p a (s_answer s)))).
Proof.
  destruct conn.
  - rewrite update_database_none. intros H. inversion H.
    split; [reflexivity |]. left. split; reflexivity.
  - destruct db as [t |].
    + destruct (in_int64 p) eqn:Hp.
      * rewrite update_database_unfold by exact Hp. intros H.
        assert (Hbody :
          match select_min_time p l t with
          | None =>
              match insert (row_of p l s ts) t with
              | Ok t0 => (Ok (true, "new"), Some t0)
              | Raise e => (Raise e, Some t)
              end
          | Some m =>
              if Qltb (s_min s) m
              then (Ok (true, "improved"),
                    Some (replace_row p l (row_of p l s ts) t))
              else (Ok (false, "slower"), Some t)
          end <> (Raise e, db')).
        { unfold select_min_time.
          destruct (find (has_key p l) t) as [old |] eqn:Hfind; cbn [option_map].
          - destruct (Qltb (s_min s) (min_time old)); discriminate.
          - rewrite insert_row_of by exact Hp.
            rewrite (find_none_existsb _ _ Hfind). discriminate. }
        destruct (select_answer p t) as [a |] eqn:Hsel; [| contradiction].
        destruct (option_string_eqb (s_answer s) (Some a)) eqn:Heq;
          [contradiction |].
        inversion H; subst. split; [reflexivity |]. right. right. right.
        split; [reflexivity |]. split; [reflexivity |].
        exists t, a. repeat split; auto.
        intros Hc. apply option_string_eqb_eq in Hc. congruence.
      * rewrite update_database_overflow by exact Hp. intros H.
        inversion H; subst. split; [reflexivity |]. right. right. left.
        split; [reflexivity |]. split; [now exists t |]. split; reflexivity.
    + intros H. unfold update_database, bind, cursor, ret, bound, query in H.
      inversion H; subst. split; [reflexivity |]. right. left. auto.
Qed.

Lemma update_database_failure_witness :
  Some [sample_row 1 "python" (1 # 2) "42"]
  = Some [sample_row 1 "python" (1 # 2) "42"].
Proof.
  exact (proj1 (update_database_failure Connection 1 "go"
                  (sample_stats (1 # 2) "43") "2025-02-02T00:00:00"
                  (Some [sample_row 1 "python" (1 # 2) "42"])
                  (Some [sample_row 1 "python" (1 # 2) "42"])
                  (ValueError (answer_mismatch 1 "42" (Some "43"))) eq_refl)).
Defined.

Lemma filter_other_replace (p : Z) (l : string) (new : row) (t : table) :
  has_key p l new = true ->
  filter (fun r => negb (has_key p l r)) (replace_row p l new t)
  = filter (fun r => negb (has_key p l r)) t.
Proof.
  intros Hnew. unfold replace_row.
  induction t as [| r t IH]; [reflexivity |]. simpl.
  destruct (has_key p l r) eqn:Hr; simpl.
  - rewrite Hnew. simpl. exact IH.
  - rewrite Hr. simpl. now rewrite IH.
Qed.

(** A successful call for the key [(p, l)] deletes no row and leaves the
    rows of every other key as they were, in the same order. *)
Theorem update_database_frame (p : Z) (l : string) (s : stats) (ts : string)
    (t t' : table) (status : bool * string) :
  update_database Connection p l s ts (Some t) = (Ok status, Some t') ->
  filter (fun r => negb (has_key p l r)) t'
  = filter (fun r => negb (has_key p l r)) t
  /\ (List.length t <= List.length t')%nat.
Proof.
  intros H. pose proof (update_database_in_range _ _ _ _ _ _ _ H) as Hp.
  apply update_database_cases in H.
  destruct H as [[_ [_ ->]] | [[old [_ [_ [_ ->]]]] | [old [_ [_ [_ ->]]]]]].
  - split.
    + rewrite filter_app. simpl. rewrite has_key_row_of by exact Hp.
      simpl. apply app_nil_r.
    + rewrite length_app. simpl. lia.
  - split.
    + apply filter_other_replace. now apply has_key_row_of.
    + unfold replace_row. rewrite length_map. lia.
  - split; [reflexivity | lia].
Qed.

Lemma update_database_frame_witness :
  filter (fun r => negb (has_key 1 "go" r))
    [sample_row 1 "python" (1 # 2) "42"; sample_row 1 "go" (1 # 3) "42"]
  = filter (fun r => negb (has_key 1 "go" r))
      [sample_row 1 "python" (1 # 2) "42"].
Proof.
  exact (proj1 (update_database_frame 1 "go" (sample_stats (1 # 3) "42")
                  "2025-01-01T00:00:00" [sample_row 1 "python" (1 # 2) "42"]
                  _ (true, "new") eq_refl)).
Defined.

(** The store keeps the best time: after a successful call the first row
    found for the key holds a [min_time] that is at most the new [min] and at
    most the [min_time] stored before. *)
Theorem update_database_best (p : Z) (l : string) (s : stats) (ts : string)
    (t t' : table) (status : bool * string) :
  update_database Connection p l s ts (Some t) = (Ok status, Some t') ->
  exists new,
    find (has_key p l) t' = Some new
    /\ (min_time new <= s_min s)%Q
    /\ forall old, find (has_key p l) t = Some old ->
         (min_time new <= min_time old)%Q.
Proof.
  intros H. pose proof (update_database_in_range _ _ _ _ _ _ _ H) as Hp.
  apply update_database_cases in H.
  destruct H as [[Hf [_ ->]] | [[old [Hf [Hlt [_ ->]]]] | [old [Hf [Hge [_ ->]]]]]].
  - exists (row_of p l s ts). rewrite find_app, Hf. simpl.
    rewrite has_key_row_of by exact Hp.
    repeat split; [apply Qle_refl | intros old Hold; discriminate].
  - exists (row_of p l s ts).
    rewrite (find_replace_row p l _ old t (has_key_row_of p l s ts Hp) Hf).
    repeat split; [apply Qle_refl |].
    intros old' Hold. rewrite Hf in Hold. inversion Hold; subst.
    now apply Qlt_le_weak.
  - exists old. repeat split; [exact Hf | | ].
    + apply Qnot_lt_le. exact Hge.
    + intros old' Hold. rewrite Hf in Hold. inversion Hold. apply Qle_refl.
Qed.

Lemma update_database_best_witness :
  exists new,
    find (has_key 1 "python") [sample_row 1 "python" (1 # 2) "42"] = Some new
    /\ (min_time new <= 3 # 5)%Q.
Proof.
  destruct (update_database_best 1 "python" (sample_stats (3 # 5) "42")
              "2025-02-02T00:00:00" [sample_row 1 "python" (1 # 2) "42"]
              _ (false, "slower") eq_refl) as [new [Hf [Hle _]]].
  exists new. split; [exact Hf | exact Hle].
Defined.

Lemma string_leb_refl (a : string) : String.leb a a = true.
Proof. destruct (String.leb_total a a); assumption. Qed.

Lemma string_ltb_irrefl (a : string) : String.ltb a a = false.
Proof. now rewrite string_ltb_leb, string_leb_refl. Qed.

Lemma first_answered_cons (p : Z) (r : row) (t : table) :
  first_answered p (r :: t)
  = if answered p r
    then match first_answered p t with
         | Some r' => if String.ltb (language r') (language r)
                      then Some r' else Some r
         | None => Some r
         end
    else first_answered p t.
Proof. reflexivity. Qed.

(** The search after one more row [new] has been appended stops at [new] or
    where it stopped before. *)
Lemma first_answered_insert (p : Z) (new : row) (t : table) (b : row) :
  first_answered p (t ++ [new]) = Some b ->
  b = new \/ first_answered p t = Some b.
Proof.
  revert b. induction t as [| r t IH]; intros b.
  - cbn [app first_answered]. destruct (answered p new); [| discriminate].
    intros H. inversion H. now left.
  - cbn [app]. rewrite !first_answered_cons.
    destruct (answered p r) eqn:Hr; [| apply IH].
    destruct (first_answered p (t ++ [new])) as [r' |] eqn:Hnew.
    + destruct (String.ltb (language r') (language r)) eqn:Hlt;
        intros H; inversion H; subst.
      * destruct (IH b eq_refl) as [-> | Hold]; [now left |].
        right. now rewrite Hold, Hlt.
      * right. destruct (first_answered p t) as [b0 |] eqn:Hold; [| reflexivity].
        destruct (first_answered_some p t b0 Hold) as [Hin0 Ha0].
        pose proof (first_answered_least p (t ++ [new]) r' Hnew b0
                      (in_or_app _ _ _ (or_introl Hin0)) Ha0) as Hle.
        rewrite string_ltb_leb in Hlt. apply negb_false_iff in Hlt.
        rewrite string_ltb_leb.
        now rewrite (string_leb_trans _ _ _ Hlt Hle).
    + intros H. inversion H; subst. right.
      destruct (first_answered p t) as [b0 |] eqn:Hold; [| reflexivity].
      destruct (first_answered_some p t b0 Hold) as [Hin0 Ha0].
      rewrite (first_answered_none p (t ++ [new]) Hnew b0
                 (in_or_app _ _ _ (or_introl Hin0))) in Ha0.
      discriminate.
Qed.

Lemma replace_row_cons (p : Z) (l : string) (new r : row) (t : table) :
  replace_row p l new (r :: t)
  = (if has_key p l r then new else r) :: replace_row p l new t.
Proof. reflexivity. Qed.

Lemma replace_row_In (p : Z) (l : string) (new r : row) (t : table) :
  In r t -> In (if has_key p l r then new else r) (replace_row p l new t).
Proof.
  intros Hin. unfold replace_row.
  apply (in_map (fun old => if has_key p l old then new else old)). exact Hin.
Qed.

Section Replace.
Variables (p : Z) (l : string) (new : row).
Hypothesis new_language : language new = l.
Hypothesis new_answered : answered p new = true.

Lemma first_answered_replace_none (t : table) :
  first_answered p (replace_row p l new t) = None -> first_answered p t = None.
Proof.
  intros Hn. destruct (first_answered p t) as [b0 |] eqn:Hold; [| reflexivity].
  destruct (first_answered_some p t b0 Hold) as [Hin0 Ha0].
  pose proof (first_answered_none p _ Hn _ (replace_row_In p l new b0 t Hin0)) as Hf.
  destruct (has_key p l b0); congruence.
Qed.

Lemma first_answered_replace_least (t : table) (b' b0 : row) :
  first_answered p (replace_row p l new t) = Some b' ->
  first_answered p t = Some b0 ->
  String.leb (language b') (language b0) = true.
Proof.
  intros Hb' Hold.
  destruct (first_answered_some p t b0 Hold) as [Hin0 Ha0].
  pose proof (first_answered_least p _ b' Hb' _
                (replace_row_In p l new b0 t Hin0)) as Hle.
  destruct (has_key p l b0) eqn:Hk0.
  - apply has_key_iff in Hk0. destruct Hk0 as [_ Hl0].
    rewrite Hl0, <- new_language. now apply Hle.
  - now apply Hle.
Qed.

(** The search after the rows of one key have been overwritten with a row
    [new] of that key, which holds an answer, stops at [new] or where it
    stopped before. *)
Lemma first_answered_replace (t : table) :
  forall b,
  first_answered p (replace_row p l new t) = Some b ->
  b = new \/ first_answered p t = Some b.
Proof.
  induction t as [| r t IH]; intros b; [discriminate |].
  rewrite replace_row_cons, !first_answered_cons.
  destruct (has_key p l r) eqn:Hkr.
  - rewrite new_answered. apply has_key_iff in Hkr. destruct Hkr as [_ Hlr].
    destruct (first_answered p (replace_row p l new t)) as [r' |] eqn:Hsub.
    + destruct (String.ltb (language r') (language new)) eqn:Hlt;
        intros H; injection H as <-; [| now left].
      destruct (IH r' eq_refl) as [Heq | Hold]; [now left |].
      right. rewrite Hold, Hlr, <- new_language, Hlt.
      destruct (answered p r); reflexivity.
    + intros H. injection H as <-. now left.
  - destruct (answered p r) eqn:Hr; [| now apply IH].
    destruct (first_answered p (replace_row p l new t)) as [r' |] eqn:Hsub.
    + destruct (String.ltb (language r') (language r)) eqn:Hlt;
        intros H; injection H as <-.
      * destruct (IH r' eq_refl) as [Heq | Hold]; [now left |].
        right. now rewrite Hold, Hlt.
      * right. destruct (first_answered p t) as [b0 |] eqn:Hold; [| reflexivity].
        pose proof (first_answered_replace_least t r' b0 Hsub Hold) as Hle.
        rewrite string_ltb_leb in Hlt. apply negb_false_iff in Hlt.
        rewrite string_ltb_leb.
        now rewrite (string_leb_trans _ _ _ Hlt Hle).
    + intros H. injection H as <-. right.
      now rewrite (first_answered_replace_none t Hsub).
Qed.

End Replace.

Lemma first_answered_not_answered (p : Z) (t : table) :
  (forall r, In r t -> answered p r = false) -> first_answered p t = None.
Proof.
  intros H. destruct (first_answered p t) as [b |] eqn:Hb; [| reflexivity].
  destruct (first_answered_some p t b Hb) as [Hin Ha].
  rewrite (H b Hin) in Ha. discriminate.
Qed.

Lemma answered_row_of (p : Z) (l : string) (s : stats) (ts : string) :
  in_int64 p = true ->
  answered p (row_of p l s ts) = is_some (s_answer s).
Proof.
  intros Hp. unfold answered. rewrite (problem_row_of p l s ts Hp), Z.eqb_refl.
  reflexivity.
Qed.

Lemma select_none_not_answered (p : Z) (t : table) :
  select_answer p t = None -> forall r, In r t -> answered p r = false.
Proof.
  intros H r Hin. destruct (answered p r) eqn:Ha; [| reflexivity].
  apply answered_iff in Ha. destruct Ha as [Hp Hn].
  pose proof (select_answer_none p t H r Hin Hp). contradiction.
Qed.

Lemma check_after_insert (p : Z) (l : string) (s : stats) (ts : string) (t : table) :
  in_int64 p = true ->
  (forall a, select_answer p t = Some a -> s_answer s = Some a) ->
  forall a, select_answer p (t ++ [row_of p l s ts]) = Some a -> s_answer s = Some a.
Proof.
  intros Hp Hcheck a. unfold select_answer at 1.
  destruct (first_answered p (t ++ [row_of p l s ts])) as [b |] eqn:Hb;
    [| discriminate].
  intros Ha. destruct (first_answered_insert p _ t b Hb) as [-> | Hold].
  - exact Ha.
  - apply Hcheck. unfold select_answer. now rewrite Hold.
Qed.

Lemma check_after_replace (p : Z) (l : string) (s : stats) (ts : string) (t : table) :
  in_int64 p = true ->
  (forall a, select_answer p t = Some a -> s_answer s = Some a) ->
  forall a, select_answer p (replace_row p l (row_of p l s ts) t) = Some a ->
            s_answer s = Some a.
Proof.
  intros Hp Hcheck a.
  destruct (s_answer s) as [x |] eqn:Hs.
  - unfold select_answer at 1.
    destruct (first_answered p (replace_row p l (row_of p l s ts) t)) as [b |] eqn:Hb;
      [| discriminate].
    intros Ha.
    assert (Hnew : answered p (row_of p l s ts) = true)
      by (rewrite answered_row_of by exact Hp; now rewrite Hs).
    destruct (first_answered_replace p l (row_of p l s ts) eq_refl Hnew t b Hb)
      as [-> | Hold].
    + cbn [answer row_of] in Ha. congruence.
    + apply Hcheck. unfold select_answer. now rewrite Hold.
  - assert (Hnone : select_answer p t = None).
    { destruct (select_answer p t) as [y |]; [| reflexivity].
      specialize (Hcheck y eq_refl). discriminate. }
    unfold select_answer. rewrite first_answered_not_answered; [discriminate |].
    intros r Hin. unfold replace_row in Hin. apply in_map_iff in Hin.
    destruct Hin as [old [Hr Hold]].
    destruct (has_key p l old); subst r.
    + rewrite answered_row_of by exact Hp. now rewrite Hs.
    + now apply (select_none_not_answered p t Hnone).
Qed.

Lemma Qltb_irrefl (x : Q) : Qltb x x = false.
Proof.
  destruct (Qltb x x) eqn:H; [| reflexivity].
  apply Qltb_iff in H. exfalso. exact (Qlt_irrefl x H).
Qed.

(** Recording the same measurement again changes nothing: after a
    successful call, a second call with the same statistics (at whatever
    time) returns [(False, "slower")] and leaves the table as it is. *)
Theorem update_database_idempotent (p : Z) (l : string) (s : stats)
    (ts ts' : string) (t t' : table) (status : bool * string) :
  update_database Connection p l s ts (Some t) = (Ok status, Some t') ->
  update_database Connection p l s ts' (Some t')
  = (Ok (false, "slower"), Some t').
Proof.
  intros H. pose proof (update_database_in_range _ _ _ _ _ _ _ H) as Hp.
  destruct (update_database_ok p l s ts t t' status H) as [Hcheck _].
  apply update_database_cases in H.
  assert (Hgoal : forall m,
            (forall a, select_answer p t' = Some a -> s_answer s = Some a) ->
            select_min_time p l t' = Some m ->
            Qltb (s_min s) m = false ->
            update_database Connection p l s ts' (Some t')
            = (Ok (false, "slower"), Some t')).
  { intros m Hc Hm Hlt. rewrite update_database_unfold by exact Hp.
    rewrite Hm, Hlt.
    destruct (select_answer p t') as [a |]; [| reflexivity].
    rewrite (Hc a eq_refl).
    replace (option_string_eqb (Some a) (Some a)) with true
      by (symmetry; now apply option_string_eqb_eq).
    reflexivity. }
  destruct H as [[Hf [_ ->]] | [[old [Hf [Hlt [_ ->]]]] | [old [Hf [Hge [_ ->]]]]]].
  - apply (Hgoal (s_min s)).
    + now apply check_after_insert.
    + unfold select_min_time. rewrite find_app, Hf. simpl.
      now rewrite has_key_row_of by exact Hp.
    + apply Qltb_irrefl.
  - apply (Hgoal (s_min s)).
    + now apply check_after_replace.
    + unfold select_min_time.
      now rewrite (find_replace_row p l _ old t (has_key_row_of p l s ts Hp) Hf).
    + apply Qltb_irrefl.
  - apply (Hgoal (min_time old)).
    + exact Hcheck.
    + unfold select_min_time. now rewrite Hf.
    + destruct (Qltb (s_min s) (min_time old)) eqn:E; [| reflexivity].
      apply Qltb_iff in E. contradiction.
Qed.

Lemma update_database_idempotent_witness :
  update_database Connection 1 "python" (sample_stats (1 # 2) "42")
    "2025-03-03T00:00:00" (Some [sample_row 1 "python" (1 # 2) "42"])
  = (Ok (false, "slower"), Some [sample_row 1 "python" (1 # 2) "42"]).
Proof.
  exact (update_database_idempotent 1 "python" (sample_stats (1 # 2) "42")
           "2025-01-01T00:00:00" "2025-03-03T00:00:00" [] _ (true, "new") eq_refl).
Defined.

(** The primary key is kept: on a table holding at most one row per key, a
    successful call gives a table holding at most one row per key. *)
Theorem update_database_primary_key (p : Z) (l : string) (s : stats)
    (ts : string) (t t' : table) (status : bool * string) :
  (forall p' l', (List.length (filter (has_key p' l') t) <= 1)%nat) ->
  update_database Connection p l s ts (Some t) = (Ok status, Some t') ->
  forall p' l', (List.length (filter (has_key p' l') t') <= 1)%nat.
Proof.
  intros Hkey H. exact (update_database_unique p l s ts t t' status Hkey H).
Qed.

Lemma update_database_primary_key_witness :
  (List.length
     (filter (has_key 1 "go")
        [sample_row 1 "python" (1 # 2) "42"; sample_row 1 "go" (1 # 3) "42"])
   <= 1)%nat.
Proof.
  apply (update_database_primary_key 1 "go" (sample_stats (1 # 3) "42")
           "2025-01-01T00:00:00" [sample_row 1 "python" (1 # 2) "42"]
           _ (true, "new")).
  - intros p' l'. simpl. destruct (has_key p' l' _); simpl; lia.
  - reflexivity.
Defined.

Lemma key_leb_trans (x y z : row) :
  key_leb x y = true -> key_leb y z = true -> key_leb x z = true.
Proof.
  unfold key_leb.
  rewrite !orb_true_iff, !andb_true_iff, !Z.ltb_lt, !Z.eqb_eq.
  intros [Hxy | [Hxy Lxy]] [Hyz | [Hyz Lyz]].
  - left. lia.
  - left. lia.
  - left. lia.
  - right. split; [lia |]. now apply string_leb_trans with (language y).
Qed.

(** Reading the store: on a live connection [get_all_results] returns the
    seven columns of every stored row, each row once, in ascending order of
    (problem, language), and leaves the table as it is. *)
Theorem get_all_results_sorted (t : table) :
  exists rows,
    get_all_results Connection (Some t) = (Ok (map columns rows), Some t)
    /\ Permutation rows t
    /\ StronglySorted (fun x y => key_leb x y = true) rows.
Proof.
  exists (KeySort.sort t). split; [reflexivity |]. split.
  - apply Permutation_sym, KeySort.Permuted_sort.
  - apply KeySort.StronglySorted_sort.
    intros x y z Hxy Hyz. unfold is_true in *. now apply key_leb_trans with y.
Qed.

(** Write, then read: after a call that returns [True] (a new or an improved
    record), [get_all_results] lists the key with the four values of the
    statistics and the timestamp of that call. *)
Theorem update_then_read (p : Z) (l : string) (s : stats) (ts : string)
    (t t' : table) (label : string) :
  update_database Connection p l s ts (Some t) = (Ok (true, label), Some t') ->
  exists results,
    get_all_results Connection (Some t') = (Ok results, Some t')
    /\ In (p, l, s_min s, s_avg s, s_max s, s_stdev s, ts) results.
Proof.
  intros H. pose proof (update_database_in_range _ _ _ _ _ _ _ H) as Hp.
  exists (map columns (KeySort.sort t')). split; [reflexivity |].
  replace (p, l, s_min s, s_avg s, s_max s, s_stdev s, ts)
    with (columns (row_of p l s ts))
    by (unfold columns; now rewrite (problem_row_of p l s ts Hp)).
  apply in_map. apply (Permutation_in _ (KeySort.Permuted_sort t')).
  apply update_database_cases in H.
  destruct H as [[Hf [_ ->]] | [[old [Hf [Hlt [_ ->]]]] | [old [_ [_ [Hs _]]]]]].
  - apply in_or_app. right. now left.
  - apply find_some in Hf. destruct Hf as [Hin Hk].
    unfold replace_row. apply in_map_iff. exists old. now rewrite Hk.
  - discriminate.
Qed.

Lemma update_then_read_witness :
  exists results,
    get_all_results Connection (Some [sample_row 1 "python" (1 # 2) "42"])
    = (Ok results, Some [sample_row 1 "python" (1 # 2) "42"])
    /\ In (1%Z, "python", (1 # 2)%Q, (1 # 2)%Q, (1 # 2)%Q, 0%Q,
           "2025-01-01T00:00:00") results.
Proof.
  exact (update_then_read 1 "python" (sample_stats (1 # 2) "42")
           "2025-01-01T00:00:00" [] _ "new" eq_refl).
Defined.

(** Agreement of the stored answers is kept from any table, by any
    successful call: on a table whose non-NULL answers agree per problem
    (rows with a NULL answer included), whatever the statistics, the table
    after the call has non-NULL answers that agree per problem. *)
Theorem update_database_keeps_agreement (p : Z) (l : string) (s : stats)
    (ts : string) (t t' : table) (status : bool * string) :
  answers_agree t ->
  update_database Connection p l s ts (Some t) = (Ok status, Some t') ->
  answers_agree t'.
Proof.
  intros Hagree H. exact (update_database_agree p l s ts t t' status Hagree H).
Qed.

Lemma update_database_keeps_agreement_witness :
  answers_agree
    [ row_of 1 "python"
        {| s_avg := 1 # 2; s_min := 1 # 2; s_max := 1 # 2;
           s_stdev := 0%Q; s_answer := None |} "2025-01-01T00:00:00";
      row_of 1 "go" (sample_stats (1 # 3) "42") "2025-01-01T00:00:00" ].
Proof.
  apply (update_database_keeps_agreement 1 "go" (sample_stats (1 # 3) "42")
           "2025-01-01T00:00:00"
           [row_of 1 "python"
              {| s_avg := 1 # 2; s_min := 1 # 2; s_max := 1 # 2;
                 s_stdev := 0%Q; s_answer := None |} "2025-01-01T00:00:00"]
           _ (true, "new")).
  - intros r r' a a' [<- | []] _ _ Ha. discriminate Ha.
  - reflexivity.
Defined.

(** ** Problem discovery, further *)

Lemma split_fields_no_sep (sep : ascii) (s : string) :
  contains sep (fst (Py.split_fields sep s)) = false
  /\ Forall (fun f => contains sep f = false) (snd (Py.split_fields sep s)).
Proof.
  induction s as [| c s [IHh IHt]]; simpl; [split; [reflexivity | constructor] |].
  destruct (Py.split_fields sep s) as [h t]. cbn [fst snd] in *.
  destruct (Ascii.eqb c sep) eqn:Hc; cbn [fst snd].
  - split; [reflexivity | now constructor].
  - split; [| exact IHt]. simpl. now rewrite Hc, IHh.
Qed.

Lemma split_field_no_sep (sep : ascii) (s : string) (n : nat) (f : string) :
  nth_error (Py.split sep s) n = Some f -> contains sep f = false.
Proof.
  unfold Py.split. pose proof (split_fields_no_sep sep s) as [Hh Ht].
  destruct (Py.split_fields sep s) as [h t]. cbn [fst snd] in *.
  intros H. apply nth_error_In in H. destruct H as [<- | H]; [exact Hh |].
  rewrite Forall_forall in Ht. now apply Ht.
Qed.

Lemma digit_val_nonneg (c : ascii) (d : Z) :
  Py.digit_val c = Some d -> (0 <= d)%Z.
Proof.
  unfold Py.digit_val.
  destruct ((48 <=? N_of_ascii c)%N && (N_of_ascii c <=? 57)%N) eqn:H;
    [| discriminate].
  apply andb_true_iff in H. destruct H as [H _]. apply N.leb_le in H.
  intros E. inversion E. lia.
Qed.

Lemma parse_digits_nonneg (s : string) :
  forall acc b z, Py.parse_digits s acc b = Some z -> (0 <= acc)%Z -> (0 <= z)%Z.
Proof.
  induction s as [| c s IH]; intros acc b z H Hacc; cbn [Py.parse_digits] in H.
  - destruct b; inversion H. now subst.
  - destruct (Py.digit_val c) as [d |] eqn:Hd.
    + apply IH in H; [exact H |]. apply digit_val_nonneg in Hd. lia.
    + destruct (Ascii.eqb c "_"); [| discriminate].
      destruct b; [| discriminate]. now apply IH in H.
Qed.

Lemma skip_leading_contains (c : ascii) (s : string) :
  contains c (Py.skip_leading s) = true -> contains c s = true.
Proof.
  induction s as [| a s IH]; [auto |]. cbn [Py.skip_leading].
  destruct (Py.int_space a); [| auto].
  intros H. simpl. rewrite (IH H). apply orb_true_r.
Qed.

Lemma skip_trailing_cons (c : ascii) (s : string) :
  Py.skip_trailing (String c s)
  = match Py.skip_trailing s with
    | EmptyString => if Py.int_space c then EmptyString else String c EmptyString
    | r => String c r
    end.
Proof. reflexivity. Qed.

Lemma skip_trailing_contains (c : ascii) (s : string) :
  contains c (Py.skip_trailing s) = true -> contains c s = true.
Proof.
  induction s as [| a s IH]; [auto |]. rewrite skip_trailing_cons.
  destruct (Py.skip_trailing s) as [| d r].
  - destruct (Py.int_space a); [discriminate |]. simpl.
    rewrite orb_false_r. intros ->. reflexivity.
  - simpl in *. destruct (Ascii.eqb a c); [reflexivity |]. exact IH.
Qed.

(** [int] gives a negative number only for a text that holds a minus sign. *)
Lemma int_negative_has_minus (s : string) (n : Z) :
  Py.int s = Ok n -> (n < 0)%Z -> contains "-" s = true.
Proof.
  unfold Py.int. intros H Hn.
  apply skip_leading_contains, skip_trailing_contains.
  destruct (Py.skip_trailing (Py.skip_leading s)) as [| a r]; [discriminate |].
  destruct (Ascii.eqb a "-") eqn:Ha; [simpl; now rewrite Ha |].
  exfalso.
  assert (Hpos : forall body,
            body = Py.parse_digits r 0 false
            \/ body = Py.parse_digits (String a r) 0 false ->
            match body with
            | Some z => Ok z
            | None => Raise (ValueError
                               ("invalid literal for int() with base 10: " ++ s))
            end = Ok n -> False).
  { intros body Hb Hres. destruct body as [z |]; [| discriminate].
    inversion Hres; subst z.
    destruct Hb as [Hb | Hb]; symmetry in Hb;
      apply parse_digits_nonneg in Hb; lia. }
  destruct a as [[] [] [] [] [] [] [] []];
    try discriminate Ha;
    (apply (Hpos _ (or_introl eq_refl) H) || apply (Hpos _ (or_intror eq_refl) H)).
Qed.

Lemma discover_problems_shape (language : string) (root : directory)
    (es : list problem_entry) :
  discover_problems language root = Ok es ->
  es = []
  \/ exists config d,
       lookup language LANGUAGE_CONFIGS = Some config
       /\ lookup (dir config) root = Some (Dir d)
       /\ es = candidates config (sorted_paths (glob_problems d)).
Proof.
  unfold discover_problems.
  destruct (lookup language LANGUAGE_CONFIGS) as [config |] eqn:Hc;
    [| intros H; inversion H; now left].
  destruct (lookup (dir config) root) as [[| d] |] eqn:Hd;
    try (intros H; inversion H; now left).
  rewrite discover_loop_candidates.
  - intros H. inversion H. right. exists config, d. auto.
  - intros e He. unfold sorted_paths in He.
    apply (Permutation_in _ (Permutation_sym (NameSort.Permuted_sort _))) in He.
    unfold glob_problems in He. apply filter_In in He. tauto.
Qed.

Lemma candidates_In (config : language_config) (l : list (string * node))
    (e : problem_entry) :
  In e (candidates config l) <->
  exists x, In x l /\ candidate config x = Some e.
Proof.
  unfold candidates. rewrite in_flat_map. split.
  - intros [x [Hx He]]. exists x. split; [exact Hx |].
    destruct (candidate config x) as [q |]; [| contradiction].
    destruct He as [-> | []]. reflexivity.
  - intros [x [Hx He]]. exists x. split; [exact Hx |]. rewrite He. now left.
Qed.

(** The number of a discovered problem is never negative: the text handed to
    [int] is cut at the dashes, so it holds no minus sign. *)
Theorem discover_problems_nonnegative (language : string) (root : directory)
    (es : list problem_entry) :
  discover_problems language root = Ok es ->
  forall e, In e es -> (0 <= number e)%Z.
Proof.
  intros H e He. apply discover_problems_shape in H.
  destruct H as [-> | [config [d [_ [_ ->]]]]]; [contradiction |].
  apply candidates_In in He. destruct He as [[name nd] [_ Hc]].
  apply candidate_iff in Hc.
  destruct Hc as [children [field [_ [Hf [Hint _]]]]].
  destruct (Z_lt_le_dec (number e) 0) as [Hneg | Hpos]; [| exact Hpos].
  pose proof (int_negative_has_minus field (number e) Hint Hneg) as Hminus.
  rewrite (split_field_no_sep "-" name 1 field Hf) in Hminus. discriminate.
Qed.

Lemma discover_problems_nonnegative_witness :
  (0 <= number {| number := 3; path := "python/problem-3" |})%Z.
Proof.
  apply (discover_problems_nonnegative "python" sample_root _ eq_refl).
  now left.
Defined.

Lemma names_injective (l : list (string * node)) (x y : string * node) :
  NoDup (map fst l) -> In x l -> In y l -> fst x = fst y -> x = y.
Proof.
  induction l as [| z l IH]; intros Hnd Hx Hy Hxy; [contradiction |].
  simpl in Hnd. inversion Hnd as [| ? ? Hnotin Hnd']; subst.
  destruct Hx as [-> | Hx], Hy as [-> | Hy].
  - reflexivity.
  - exfalso. apply Hnotin. rewrite Hxy. now apply in_map.
  - exfalso. apply Hnotin. rewrite <- Hxy. now apply in_map.
  - now apply IH.
Qed.

(** Two sorted lists with the same elements, no two of which compare equal,
    are the same list. *)
Lemma sorted_permutation_unique {A} (R : A -> A -> Prop) (l1 : list A) :
  forall l2,
  StronglySorted R l1 -> StronglySorted R l2 -> Permutation l1 l2 ->
  (forall x y, In x l1 -> In y l1 -> R x y -> R y x -> x = y) ->
  l1 = l2.
Proof.
  induction l1 as [| x l1 IH]; intros l2 S1 S2 Hperm Hanti.
  - apply Permutation_nil in Hperm. now subst.
  - destruct l2 as [| y l2].
    + apply Permutation_sym, Permutation_nil in Hperm. discriminate.
    + inversion S1 as [| ? ? S1' F1]; subst. inversion S2 as [| ? ? S2' F2]; subst.
      rewrite Forall_forall in F1, F2.
      assert (Hy : In y (x :: l1)).
      { apply (Permutation_in _ (Permutation_sym Hperm)). now left. }
      assert (Hx : In x (y :: l2)).
      { apply (Permutation_in _ Hperm). now left. }
      assert (Heq : x = y).
      { destruct Hy as [Hy | Hy]; [exact Hy |].
        destruct Hx as [Hx | Hx]; [now symmetry |].
        apply Hanti; [now left | now right | now apply F1 | now apply F2]. }
      subst y. f_equal. apply IH; auto.
      * now apply Permutation_cons_inv with x.
      * intros a b Ha Hb. apply Hanti; now right.
Qed.

(** Discovery does not depend on the order in which the file system lists
    the language directory: two listings of the same entries, with distinct
    names, give the same result. *)
Theorem discover_problems_listing_order (language : string)
    (config : language_config) (root root' : directory) (d d' : directory) :
  lookup language LANGUAGE_CONFIGS = Some config ->
  lookup (dir config) root = Some (Dir d) ->
  lookup (dir config) root' = Some (Dir d') ->
  Permutation d d' ->
  NoDup (map fst d) ->
  discover_problems language root = discover_problems language root'.
Proof.
  intros Hc Hd Hd' Hperm Hnd. unfold discover_problems. rewrite Hc, Hd, Hd'.
  f_equal. unfold sorted_paths.
  assert (Htrans : Relation_Definitions.transitive _
                     (fun x y : string * node => is_true (name_leb x y))).
  { intros x y z Hxy Hyz. unfold is_true, name_leb in *.
    now apply string_leb_trans with (fst y). }
  apply (sorted_permutation_unique
           (fun x y : string * node => is_true (name_leb x y))).
  - apply NameSort.StronglySorted_sort. exact Htrans.
  - apply NameSort.StronglySorted_sort. exact Htrans.
  - apply Permutation_trans with (glob_problems d);
      [apply Permutation_sym, NameSort.Permuted_sort |].
    apply Permutation_trans with (glob_problems d');
      [| apply NameSort.Permuted_sort].
    unfold glob_problems. now apply filter_permutation.
  - intros x y Hx Hy Hxy Hyx.
    assert (Hin : forall z, In z (NameSort.sort (glob_problems d)) -> In z d).
    { intros z Hz.
      apply (Permutation_in _ (Permutation_sym (NameSort.Permuted_sort _))) in Hz.
      unfold glob_problems in Hz. apply filter_In in Hz. tauto. }
    apply (names_injective d); auto.
    unfold is_true, name_leb in *. now apply String.leb_antisym.
Qed.

Lemma discover_problems_listing_order_witness :
  discover_problems "python" sample_root
  = discover_problems "python"
      [ ("python",
         Dir [ ("problem-3", script_dir);
               ("problem-abc", script_dir);
               ("problem-4", script_dir) ]) ].
Proof.
  apply (discover_problems_listing_order "python"
           {| dir := "python"; command_prefix := ["uv"; "run"; "python"];
              file_pattern := "main.py" |}
           sample_root _
           [ ("problem-abc", script_dir); ("problem-4", script_dir);
             ("problem-3", script_dir) ]
           [ ("problem-3", script_dir); ("problem-abc", script_dir);
             ("problem-4", script_dir) ]).
  - reflexivity.
  - reflexivity.
  - reflexivity.
  - apply Permutation_sym. apply perm_trans with
      [ ("problem-abc", script_dir); ("problem-3", script_dir);
        ("problem-4", script_dir) ].
    + apply perm_swap.
    + apply perm_skip. apply perm_swap.
  - simpl. repeat constructor; simpl; intuition discriminate.
Defined.

(** Which entries are discovered: an entry is in the result exactly when the
    language directory holds a directory named [problem-*], in which the text
    between the first and the second dash is accepted by [int] and gives the
    entry's number, which contains the entry-point file, and whose path is
    the entry's path. *)
Theorem discover_problems_In (language : string) (config : language_config)
    (root : directory) (d : directory) (es : list problem_entry) :
  lookup language LANGUAGE_CONFIGS = Some config ->
  lookup (dir config) root = Some (Dir d) ->
  discover_problems language root = Ok es ->
  forall e,
    In e es <->
    exists name children field,
      In (name, Dir children) d
      /\ String.prefix "problem-" name = true
      /\ nth_error (Py.split "-" name) 1 = Some field
      /\ Py.int field = Ok (number e)
      /\ lookup (file_pattern config) children <> None
      /\ path e = join (dir config) name.
Proof.
  intros Hc Hd H e.
  assert (Hes : es = candidates config (sorted_paths (glob_problems d))).
  { unfold discover_problems in H. rewrite Hc, Hd in H.
    rewrite discover_loop_candidates in H; [now inversion H |].
    intros x Hx. unfold sorted_paths in Hx.
    apply (Permutation_in _ (Permutation_sym (NameSort.Permuted_sort _))) in Hx.
    unfold glob_problems in Hx. apply filter_In in Hx. tauto. }
  subst es. rewrite candidates_In. split.
  - intros [[name nd] [Hin Hcand]].
    apply candidate_iff in Hcand.
    destruct Hcand as [children [field [-> [Hf [Hint [Hl Hp]]]]]].
    unfold sorted_paths in Hin.
    apply (Permutation_in _ (Permutation_sym (NameSort.Permuted_sort _))) in Hin.
    unfold glob_problems in Hin. apply filter_In in Hin. destruct Hin as [Hin Hpre].
    exists name, children, field. auto 10.
  - intros [name [children [field [Hin [Hpre [Hf [Hint [Hl Hp]]]]]]]].
    exists (name, Dir children). split.
    + unfold sorted_paths. apply (Permutation_in _ (NameSort.Permuted_sort _)).
      unfold glob_problems. apply filter_In. auto.
    + apply candidate_iff. exists children, field. auto 10.
Qed.

Lemma discover_problems_In_witness :
  In {| number := 4; path := "python/problem-4" |}
     [ {| number := 3; path := "python/problem-3" |};
       {| number := 4; path := "python/problem-4" |} ].
Proof.
  apply (discover_problems_In "python"
           {| dir := "python"; command_prefix := ["uv"; "run"; "python"];
              file_pattern := "main.py" |}
           sample_root
           [ ("problem-abc", script_dir); ("problem-4", script_dir);
             ("problem-3", script_dir) ]
           _ eq_refl eq_refl eq_refl).
  exists "problem-4", [("main.py", File)], "4".
  repeat split; try reflexivity.
  - right. now left.
  - discriminate.
Defined.

(** ** Orchestrator, further *)

Section OrchestratorInvariants.
Context {S : Statistics}.
Variable E : env.
Variable project_root : directory.
Variable a : args.
Variable conn : handle.

(** What one attempt does to the state of the run. *)
Lemma attempt_shape (language : string) (config : language_config)
    (r : run) (p : problem_entry) :
  exists outcome,
    printed (attempt E conn language config r p)
    = printed r ++ [Running (number p) language; outcome]
    /\ (spawned r <= spawned (attempt E conn language config r p)
        <= spawned r + WARMUP + RUNS)%nat
    /\ total_benchmarks (attempt E conn language config r p)
       = Datatypes.S (total_benchmarks r)
    /\ match outcome with
       | ReportNew _ =>
           new_count (attempt E conn language config r p)
           = Datatypes.S (new_count r)
           /\ improved_count (attempt E conn language config r p)
              = improved_count r
       | ReportImproved _ =>
           new_count (attempt E conn language config r p) = new_count r
           /\ improved_count (attempt E conn language config r p)
              = Datatypes.S (improved_count r)
       | ReportNotFaster _ | ReportFailed _ =>
           new_count (attempt E conn language config r p) = new_count r
           /\ improved_count (attempt E conn language config r p)
              = improved_count r
       | _ => False
       end
    /\ (conn = PyNone ->
        store (attempt E conn language config r p) = store r
        /\ exists e, outcome = ReportFailed e).
Proof.
  unfold attempt.
  cbn [spawned store print count_benchmark].
  pose proof (benchmark_spawn_bound E (command language config p) RUNS WARMUP
                (spawned r)) as Hb.
  destruct (benchmark E (command language config p) RUNS WARMUP (spawned r))
    as [[st | e] k]; cbn [snd] in Hb.
  - destruct (update_database conn (number p) language st (now E k) (store r))
      as [[[accepted status] | e] db] eqn:Hu.
    + assert (Hconn : conn <> PyNone).
      { intros ->. rewrite update_database_none in Hu. discriminate. }
      destruct (String.eqb status "new");
        [| destruct (String.eqb status "improved")];
        eexists; cbn; rewrite <- app_assoc; cbn;
        (split; [reflexivity |]); (split; [lia |]); (split; [reflexivity |]);
        (split; [split; reflexivity |]); intros Hc; contradiction.
    + eexists; cbn; rewrite <- app_assoc; cbn.
      split; [reflexivity |]. split; [lia |]. split; [reflexivity |].
      split; [split; reflexivity |]. intros ->.
      rewrite update_database_none in Hu. inversion Hu; subst. eauto.
  - eexists; cbn; rewrite <- app_assoc; cbn.
    split; [reflexivity |]. split; [lia |]. split; [reflexivity |].
    split; [split; reflexivity |]. intros _. eauto.
Qed.

(** A property of the run that the two kinds of turn of the language loop
    keep is kept by the loop. *)
Lemma language_loop_invariant (I : run -> Prop) (ls : list string) :
  (forall language sfx r, I r -> I (print (NoProblemsFound language sfx) r)) ->
  (forall language config r p,
     In language ls ->
     (forall n, arg_problem a = Some n -> number p = n) ->
     I r -> I (attempt E conn language config r p)) ->
  forall r, I r -> I (snd (language_loop E project_root a conn ls r)).
Proof.
  intros Hnone. induction ls as [| language ls IH]; intros Hatt r Hr;
    cbn [language_loop]; [exact Hr |].
  assert (IH' : forall r, I r -> I (snd (language_loop E project_root a conn ls r))).
  { apply IH. intros l0 c0 r0 p0 Hin. apply Hatt. now right. }
  destruct (discover_problems language project_root) as [problems | e];
    [| exact Hr].
  assert (Hsel : forall p, In p (select a problems) ->
                   forall n, arg_problem a = Some n -> number p = n).
  { intros p Hp n Hn. unfold select in Hp. rewrite Hn in Hp.
    apply filter_In in Hp. destruct Hp as [_ Hp]. now apply Z.eqb_eq. }
  destruct (select a problems) as [| p ps].
  - apply IH'. now apply Hnone.
  - destruct (lookup language LANGUAGE_CONFIGS) as [config |]; [| exact Hr].
    apply IH'.
    assert (Hfold : forall qs r0,
              (forall q, In q qs -> In q (p :: ps)) -> I r0 ->
              I (fold_left (attempt E conn language config) qs r0)).
    { induction qs as [| q qs IHq]; intros r0 Hsub Hr0; [exact Hr0 |].
      simpl. apply IHq; [intros x Hx; apply Hsub; now right |].
      apply Hatt; [now left | apply Hsel, Hsub; now left | exact Hr0]. }
    apply Hfold; auto.
Qed.

End OrchestratorInvariants.

(** The run of [main] is the run of its language loop: the exception that
    ends it is raised before anything else is printed or written. *)
Lemma main_run {S : Statistics} (E : env) (project_root : directory)
    (a : args) (db : database) :
  snd (main E project_root a db)
  = snd (language_loop E project_root a PyNone (languages a)
           (start (snd (init_database db)))).
Proof.
  unfold main. cbn [init_database snd]. unfold orchestrate.
  destruct (language_loop E project_root a PyNone (languages a) _)
    as [[[] | e] r]; [| reflexivity].
  rewrite get_all_results_none. cbn [snd]. now destruct r.
Qed.

(** As the code stands, a run records nothing: when [main] ends, the table is
    the one [init_database] left, and the counters of new and improved
    records are 0. *)
Theorem main_never_writes {S : Statistics} (E : env)
    (project_root : directory) (a : args) (db : database) :
  store (snd (main E project_root a db)) = snd (init_database db)
  /\ new_count (snd (main E project_root a db)) = 0%nat
  /\ improved_count (snd (main E project_root a db)) = 0%nat.
Proof.
  rewrite main_run.
  apply (language_loop_invariant E project_root a PyNone
           (fun r => store r = snd (init_database db)
                     /\ new_count r = 0%nat /\ improved_count r = 0%nat)).
  - intros language sfx r Hr. exact Hr.
  - intros language config r p _ _ [Hs [Hn Hi]].
    destruct (attempt_shape E PyNone language config r p)
      as [outcome [_ [_ [_ [Hcount Hnone]]]]].
    destruct (Hnone eq_refl) as [Hstore [e ->]]. destruct Hcount as [Hn' Hi'].
    rewrite Hstore, Hn', Hi'. auto.
  - repeat split.
Qed.

Lemma count_events_app (f : event -> bool) (l l' : list event) :
  count_events f (l ++ l') = (count_events f l + count_events f l')%nat.
Proof. unfold count_events. now rewrite filter_app, length_app. Qed.

(** The summary counts what was printed: when [main] ends, the three
    counters are the numbers of [Running], [NEW] and [IMPROVED] lines, and
    every [Running] line was followed by exactly one outcome line (new,
    improved, not faster or failed). *)
Theorem main_tally {S : Statistics} (E : env) (project_root : directory)
    (a : args) (db : database) :
  tally (snd (main E project_root a db)).
Proof.
  rewrite main_run.
  apply (language_loop_invariant E project_root a PyNone tally).
  - intros language sfx r. unfold tally, print. cbn [printed total_benchmarks
      new_count improved_count]. rewrite !count_events_app. cbn. lia.
  - intros language config r p _ _.
    destruct (attempt_shape E PyNone language config r p)
      as [outcome [Hp [_ [Ht [Hcount _]]]]].
    unfold tally. rewrite Hp, Ht, !count_events_app.
    destruct outcome; try contradiction; destruct Hcount as [-> ->]; cbn; lia.
  - unfold tally. cbn. lia.
Qed.

(** The command-line filters are honoured: every problem that [main] starts
    has the number given with [-p], when one is given, and belongs to the
    language given with [-l], when one is given. *)
Theorem main_filters {S : Statistics} (E : env) (project_root : directory)
    (a : args) (db : database) (m : Z) (lang : string) :
  In (Running m lang) (printed (snd (main E project_root a db))) ->
  (forall n, arg_problem a = Some n -> m = n)
  /\ (forall l, arg_language a = Some l -> l <> "" -> lang = l).
Proof.
  rewrite main_run. revert m lang.
  apply (language_loop_invariant E project_root a PyNone
           (fun r => forall m lang, In (Running m lang) (printed r) ->
              (forall n, arg_problem a = Some n -> m = n)
              /\ (forall l, arg_language a = Some l -> l <> "" -> lang = l))).
  - intros language sfx r Hr m lang Hin. unfold print in Hin. cbn [printed] in Hin.
    apply in_app_or in Hin. destruct Hin as [Hin | [Hin | []]];
      [now apply Hr | discriminate].
  - intros language config r p Hlang Hnum Hr m lang Hin.
    destruct (attempt_shape E PyNone language config r p)
      as [outcome [Hp [_ [_ [Hcount _]]]]].
    rewrite Hp in Hin. apply in_app_or in Hin.
    destruct Hin as [Hin | [Hin | [Hin | []]]]; [now apply Hr | |].
    + inversion Hin; subst. split; [intros n Hn; now apply Hnum |].
      intros l Hl Hne. unfold languages in Hlang. rewrite Hl in Hlang.
      destruct l as [| c l]; [contradiction |]. cbn [Py.truthy] in Hlang.
      destruct Hlang as [<- | []]. reflexivity.
    + subst outcome. contradiction.
  - intros m lang [].
Qed.

Lemma main_filters_witness : 3%Z = 3%Z /\ "python" = "python".
Proof.
  destruct (main_filters (S := rational_statistics) (steady "6857" (1 # 2))
              sample_root
              {| arg_language := Some "python"; arg_problem := Some 3%Z |} None
              3 "python") as [Hn Hl].
  - vm_compute. left. reflexivity.
  - split; [apply Hn; reflexivity | apply Hl; [reflexivity | discriminate]].
Defined.

(** One sampling per problem: when [main] ends, it has spawned at most
    [WARMUP + RUNS] processes for each problem it started. *)
Theorem main_spawn_bound {S : Statistics} (E : env) (project_root : directory)
    (a : args) (db : database) :
  (spawned (snd (main E project_root a db))
   <= (WARMUP + RUNS) * total_benchmarks (snd (main E project_root a db)))%nat.
Proof.
  rewrite main_run.
  apply (language_loop_invariant E project_root a PyNone
           (fun r => (spawned r <= (WARMUP + RUNS) * total_benchmarks r)%nat)).
  - intros language sfx r Hr. exact Hr.
  - intros language config r p _ _ Hr.
    destruct (attempt_shape E PyNone language config r p)
      as [outcome [_ [Hs [Ht _]]]].
    rewrite Ht. lia.
  - cbn. lia.
Qed.

(** ** The two scripts, further *)

Lemma inner_loop_spec (j : nat) :
  forall (i largest : Z),
  (0 <= i)%Z ->
  (largest <= Problem4.inner_loop j i largest)%Z
  /\ (Problem4.inner_loop j i largest = largest
      \/ exists j' : nat,
           (1 <= j' <= j)%nat
           /\ Problem4.inner_loop j i largest = (i * Z.of_nat j')%Z
           /\ Problem4.check_palindrome (i * Z.of_nat j') = true)
  /\ forall j' : nat,
       (1 <= j' <= j)%nat ->
       Problem4.check_palindrome (i * Z.of_nat j') = true ->
       (i * Z.of_nat j' <= Problem4.inner_loop j i largest)%Z.
Proof.
  induction j as [| j IH]; intros i largest Hi.
  - cbn [Problem4.inner_loop]. split; [lia |]. split; [now left |].
    intros j' Hj. lia.
  - cbn [Problem4.inner_loop].
    destruct (i * Z.of_nat (S j) <=? largest)%Z eqn:Hbreak.
    + apply Z.leb_le in Hbreak. split; [lia |]. split; [now left |].
      intros j' Hj _. apply Z.le_trans with (i * Z.of_nat (S j))%Z; [| exact Hbreak].
      apply Z.mul_le_mono_nonneg_l; lia.
    + apply Z.leb_gt in Hbreak.
      destruct (Problem4.check_palindrome (i * Z.of_nat (S j))) eqn:Hpal.
      * destruct (IH i (i * Z.of_nat (S j))%Z Hi) as [Hle [Hwit Hmax]].
        split; [lia |]. split.
        -- right. destruct Hwit as [Heq | [j' [Hj' [Heq Hp]]]].
           ++ exists (S j). split; [lia |]. now rewrite Heq.
           ++ exists j'. split; [lia |]. auto.
        -- intros j' Hj' Hp. destruct (Nat.eq_dec j' (S j)) as [-> | Hne];
             [exact Hle | apply Hmax; [lia | exact Hp]].
      * destruct (IH i largest Hi) as [Hle [Hwit Hmax]].
        split; [exact Hle |]. split.
        -- destruct Hwit as [Heq | [j' [Hj' [Heq Hp]]]]; [now left |].
           right. exists j'. split; [lia |]. auto.
        -- intros j' Hj' Hp. destruct (Nat.eq_dec j' (S j)) as [-> | Hne];
             [congruence | apply Hmax; [lia | exact Hp]].
Qed.

Lemma outer_loop_spec (n2 : nat) (i : nat) :
  forall largest : Z,
  (largest <= Problem4.outer_loop i n2 largest)%Z
  /\ (Problem4.outer_loop i n2 largest = largest
      \/ palindrome_product i n2 (Problem4.outer_loop i n2 largest))
  /\ forall v, palindrome_product i n2 v ->
       (v <= Problem4.outer_loop i n2 largest)%Z.
Proof.
  induction i as [| i IH]; intros largest.
  - cbn [Problem4.outer_loop]. split; [lia |]. split; [now left |].
    intros v [i' [j' [Hi' _]]]. lia.
  - cbn [Problem4.outer_loop].
    destruct (inner_loop_spec n2 (Z.of_nat (S i)) largest ltac:(lia))
      as [Hle1 [Hwit1 Hmax1]].
    set (mid := Problem4.inner_loop n2 (Z.of_nat (S i)) largest) in *.
    destruct (IH mid) as [Hle [Hwit Hmax]].
    split; [lia |]. split.
    + destruct Hwit as [Heq | [i' [j' [Hi' [Hj' [Hv Hp]]]]]].
      * rewrite Heq. destruct Hwit1 as [Heq1 | [j' [Hj' [Heq1 Hp1]]]];
          [now left |].
        right. exists (S i), j'. rewrite Heq1. repeat split; try lia. exact Hp1.
      * right. exists i', j'. repeat split; try lia; auto.
    + intros v [i' [j' [Hi' [Hj' [Hv Hp]]]]].
      destruct (Nat.eq_dec i' (S i)) as [-> | Hne].
      * subst v. apply Z.le_trans with mid; [| exact Hle].
        apply Hmax1; [lia | exact Hp].
      * apply Hmax. exists i', j'. repeat split; try lia; auto.
Qed.

(** What the two loops of problem 4 compute, for any two bounds: the
    greatest palindrome among the products of a number in [1..num1] and a
    number in [1..num2] (0 when there is none).  The [break] skips only
    products that cannot exceed the best found so far. *)
Theorem outer_loop_greatest_palindrome (num1 num2 : nat) :
  (Problem4.outer_loop num1 num2 0 = 0%Z
   \/ palindrome_product num1 num2 (Problem4.outer_loop num1 num2 0))
  /\ forall v, palindrome_product num1 num2 v ->
       (v <= Problem4.outer_loop num1 num2 0)%Z.
Proof.
  destruct (outer_loop_spec num2 num1 0%Z) as [_ [Hwit Hmax]]. auto.
Qed.

Lemma outer_loop_greatest_palindrome_witness :
  (9 <= Problem4.outer_loop 9 9 0)%Z.
Proof.
  apply (proj2 (outer_loop_greatest_palindrome 9 9)).
  exists 1%nat, 9%nat. repeat split; try lia.
Defined.

(** The inner loop of problem 3 stops short of [factor / 2], and so misses a
    divisor of exactly one number: for [2 <= factor < 2^53], where
    [factor / 2] is an exact float, it finds no divisor when [factor] has
    none in [2 .. factor - 1], and also when [factor] is 4. *)
Theorem first_divisor_none_iff (factor : Z) :
  (2 <= factor < 2 ^ 53)%Z ->
  (Problem3.first_divisor factor = None
   <-> factor = 4%Z
       \/ forall n, (2 <= n < factor)%Z -> (factor mod n <> 0)%Z).
Proof.
  intros [Hf _]. pose proof (first_divisor_spec factor) as Hspec.
  assert (Hstop : Problem3.int_truediv factor 2 = (factor / 2)%Z).
  { unfold Problem3.int_truediv. apply Z.quot_div_nonneg; lia. }
  rewrite Hstop in Hspec.
  assert (Hhalf : (2 * (factor / 2) <= factor < 2 * (factor / 2) + 2)%Z).
  { pose proof (Z.div_mod factor 2 ltac:(lia)).
    pose proof (Z.mod_pos_bound factor 2 ltac:(lia)). lia. }
  split.
  - intros Hnone. rewrite Hnone in Hspec.
    destruct (Z.eq_dec factor 4) as [-> | Hne4]; [now left |]. right.
    intros n Hn Hdiv.
    apply Z.mod_divide in Hdiv; [| lia]. destruct Hdiv as [q Hq].
    assert (Hq2 : (2 <= q)%Z) by nia.
    assert (Hlow : exists m, (2 <= m < factor / 2)%Z /\ (factor mod m = 0)%Z).
    { assert (Hsmall : forall u v, (2 <= u <= v)%Z -> factor = (u * v)%Z ->
                         (u < factor / 2)%Z).
      { intros u v Huv Hfac. destruct (Z.eq_dec u 2) as [-> | Hu].
        - lia.
        - assert (3 * u <= u * v)%Z by nia. lia. }
      destruct (Z_le_gt_dec n q) as [Hnq | Hnq].
      - exists n. split; [split; [lia | apply (Hsmall n q); lia] |].
        apply Z.mod_divide; [lia |]. now exists q.
      - exists q. split; [split; [lia | apply (Hsmall q n); lia] |].
        apply Z.mod_divide; [lia |]. exists n. lia. }
    destruct Hlow as [m [Hm Hdiv]]. exact (Hspec m Hm Hdiv).
  - intros [-> | Hprime]; [reflexivity |].
    destruct (Problem3.first_divisor factor) as [m |]; [| reflexivity].
    destruct Hspec as [Hm [Hdiv _]]. exfalso. apply (Hprime m); [lia | exact Hdiv].
Qed.

Lemma first_divisor_none_iff_witness : Problem3.first_divisor 4 = None.
Proof.
  apply (proj2 (first_divisor_none_iff 4 ltac:(lia))). now left.
Defined.

Lemma set_add_In (x y : Z) (s : list Z) :
  In y (Problem3.set_add x s) <-> y = x \/ In y s.
Proof.
  unfold Problem3.set_add. destruct (existsb (Z.eqb x) s) eqn:Hex.
  - split; [auto |]. intros [-> | H]; [| exact H].
    apply existsb_exists in Hex. destruct Hex as [z [Hz Hxz]].
    apply Z.eqb_eq in Hxz. now subst.
  - rewrite in_app_iff. simpl. intuition.
Qed.

Lemma visit_found (state : list Z * bool) (factor : Z) :
  snd state = true -> snd (Problem3.visit state factor) = true.
Proof.
  unfold Problem3.visit. destruct (Problem3.first_divisor factor); auto.
Qed.

Lemma fold_visit_found (factors : list Z) :
  forall state, snd state = true ->
  snd (fold_left Problem3.visit factors state) = true.
Proof.
  induction factors as [| f factors IH]; intros state H; [exact H |].
  simpl. apply IH. now apply visit_found.
Qed.

(** A turn of the outer loop that finds no factor has met only numbers in
    which the inner loop finds no divisor, and has built no new set. *)
Lemma fold_visit_not_found (factors : list Z) :
  forall state updated,
  fold_left Problem3.visit factors state = (updated, false) ->
  updated = fst state
  /\ forall x, In x factors -> Problem3.first_divisor x = None.
Proof.
  induction factors as [| f factors IH]; intros state updated H.
  - simpl in H. subst state. split; [reflexivity | intros x []].
  - simpl in H. unfold Problem3.visit at 2 in H.
    destruct (Problem3.first_divisor f) as [n |] eqn:Hf.
    + pose proof (fold_visit_found factors
                    (Problem3.set_add (Problem3.int_truediv f n)
                       (Problem3.set_add n (fst state)), true) eq_refl) as Ht.
      rewrite H in Ht. discriminate.
    + apply IH in H. destruct H as [-> Hall]. split; [reflexivity |].
      intros x [<- | Hx]; [exact Hf | now apply Hall].
Qed.

(** When the outer loop of problem 3 exits, the inner loop finds no divisor
    in any number of the final set. *)
Theorem while_loop_result (fuel : nat) :
  forall factors result,
  Problem3.while_loop fuel factors = Some result ->
  forall x, In x result -> Problem3.first_divisor x = None.
Proof.
  induction fuel as [| fuel IH]; intros factors result H; [discriminate |].
  cbn [Problem3.while_loop] in H.
  destruct (fold_left Problem3.visit factors ([], false)) as [updated found] eqn:Hfold.
  destruct found.
  - exact (IH _ _ H).
  - apply fold_visit_not_found in Hfold. destruct Hfold as [-> Hall].
    cbn [fst] in H. inversion H; subst. exact Hall.
Qed.

Lemma while_loop_result_witness : Problem3.first_divisor 6857 = None.
Proof.
  apply (while_loop_result 4 [600851475143%Z] [1471%Z; 6857%Z]).
  - vm_compute. reflexivity.
  - right. now left.
Defined.

Lemma lmax_ge (l : list Z) : forall x, In x l -> (x <= lmax l)%Z.
Proof.
  induction l as [| y l IH]; intros x []; simpl.
  - subst. lia.
  - specialize (IH x H). lia.
Qed.

Lemma lmax_nonneg (l : list Z) : (0 <= lmax l)%Z.
Proof. induction l as [| y l IH]; simpl; lia. Qed.

Lemma lmax_below (l : list Z) (b : Z) :
  (0 < b)%Z -> (forall x, In x l -> (x < b)%Z) -> (lmax l < b)%Z.
Proof.
  intros Hb. induction l as [| y l IH]; intros H; simpl; [exact Hb |].
  assert (y < b)%Z by (apply H; now left).
  assert (lmax l < b)%Z by (apply IH; intros x Hx; apply H; now right).
  lia.
Qed.

(** What a turn of the outer loop puts in the new set lies strictly between
    0 and a number of the old set. *)
Lemma visit_below (b : Z) (state : list Z * bool) (factor : Z) :
  (forall x, In x (fst state) -> (0 < x < b)%Z) ->
  (factor <= b)%Z ->
  forall x, In x (fst (Problem3.visit state factor)) -> (0 < x < b)%Z.
Proof.
  intros Hstate Hf x. unfold Problem3.visit.
  pose proof (first_divisor_spec factor) as Hspec.
  destruct (Problem3.first_divisor factor) as [n |]; [| apply Hstate].
  destruct Hspec as [Hn [Hdiv _]]. cbn [fst].
  assert (Hpos : (0 < factor)%Z).
  { unfold Problem3.int_truediv in Hn.
    destruct (Z_lt_le_dec 0 factor) as [H | H]; [exact H |].
    exfalso. pose proof (Z.quot_opp_l factor 2 ltac:(lia)).
    pose proof (Z.quot_pos (- factor) 2 ltac:(lia) ltac:(lia)). lia. }
  assert (Hstop : Problem3.int_truediv factor 2 = (factor / 2)%Z).
  { unfold Problem3.int_truediv. apply Z.quot_div_nonneg; lia. }
  rewrite Hstop in Hn.
  assert (Hhalf : (2 * (factor / 2) <= factor)%Z).
  { pose proof (Z.div_mod factor 2 ltac:(lia)).
    pose proof (Z.mod_pos_bound factor 2 ltac:(lia)). lia. }
  rewrite !set_add_In. intros [-> | [-> | Hx]]; [| lia | now apply Hstate].
  unfold Problem3.int_truediv.
  pose proof (Z.quot_lt factor n ltac:(lia) ltac:(lia)).
  pose proof (Z.quot_str_pos factor n ltac:(lia)). lia.
Qed.

Lemma fold_visit_below (b : Z) (factors : list Z) :
  forall state,
  (forall x, In x (fst state) -> (0 < x < b)%Z) ->
  (forall f, In f factors -> (f <= b)%Z) ->
  forall x, In x (fst (fold_left Problem3.visit factors state)) -> (0 < x < b)%Z.
Proof.
  induction factors as [| f factors IH]; intros state Hstate Hf; [exact Hstate |].
  simpl. apply IH.
  - apply visit_below; [exact Hstate | apply Hf; now left].
  - intros g Hg. apply Hf. now right.
Qed.

Lemma fold_visit_keeps (n : Z) (factors : list Z) :
  forall state, In n (fst state) ->
  In n (fst (fold_left Problem3.visit factors state)).
Proof.
  induction factors as [| f factors IH]; intros state H; [exact H |].
  simpl. apply IH. unfold Problem3.visit.
  destruct (Problem3.first_divisor f); [| exact H].
  cbn [fst]. rewrite !set_add_In. auto.
Qed.

Lemma fold_visit_nonempty (factors : list Z) :
  forall state updated,
  fold_left Problem3.visit factors state = (updated, true) ->
  snd state = false -> updated <> [].
Proof.
  induction factors as [| f factors IH]; intros state updated H Hs.
  - simpl in H. subst state. discriminate.
  - simpl in H. unfold Problem3.visit at 2 in H.
    destruct (Problem3.first_divisor f) as [n |] eqn:Hfd.
    + pose proof (fold_visit_keeps n factors
                    (Problem3.set_add (Problem3.int_truediv f n)
                       (Problem3.set_add n (fst state)), true)) as Hin.
      rewrite H in Hin. cbn [fst] in Hin. intros ->.
      apply Hin. rewrite !set_add_In. auto.
    + now apply IH in H.
Qed.

(** The outer loop of problem 3 ends for every starting set of numbers
    between [- 2^53] and [2^53]: each turn that finds a factor replaces the
    set by one of positive numbers whose greatest is smaller, so a fuel
    above the greatest starting number is enough, and every number that the
    loop meets stays in the range where [int(a / b)] is exact. *)
Theorem while_loop_terminates (fuel : nat) :
  forall factors,
  (forall x, In x factors -> (- 2 ^ 53 < x < 2 ^ 53)%Z) ->
  (lmax factors < Z.of_nat fuel)%Z ->
  exists result,
    Problem3.while_loop fuel factors = Some result
    /\ forall x, In x result -> (- 2 ^ 53 < x < 2 ^ 53)%Z.
Proof.
  induction fuel as [| fuel IH]; intros factors Hrange Hfuel.
  - pose proof (lmax_nonneg factors). lia.
  - cbn [Problem3.while_loop].
    destruct (fold_left Problem3.visit factors ([], false))
      as [updated found] eqn:Hfold.
    destruct found.
    + pose proof (fold_visit_nonempty factors _ _ Hfold eq_refl) as Hne.
      pose proof (fold_visit_below (lmax factors) factors ([], false)
                    (fun x (H : In x []) => match H with end)
                    (lmax_ge factors)) as Hbelow.
      rewrite Hfold in Hbelow. cbn [fst] in Hbelow.
      destruct updated as [| u updated]; [contradiction |].
      assert (Hmax : (lmax factors < 2 ^ 53)%Z).
      { apply lmax_below; [lia |]. intros x Hx. now apply Hrange. }
      apply IH.
      * intros x Hx. pose proof (Hbelow x Hx). lia.
      * assert (0 < u < lmax factors)%Z by (apply Hbelow; now left).
        assert (lmax (u :: updated) < lmax factors)%Z
          by (apply lmax_below; [lia | intros x Hx; now apply Hbelow]).
        lia.
    + apply fold_visit_not_found in Hfold. destruct Hfold as [-> _].
      cbn [fst]. exists factors. split; [reflexivity | exact Hrange].
Qed.

Lemma while_loop_terminates_witness :
  exists result,
    Problem3.while_loop 13 [12%Z] = Some result
    /\ forall x, In x result -> (- 2 ^ 53 < x < 2 ^ 53)%Z.
Proof.
  apply (while_loop_terminates 13 [12%Z]).
  - intros x [<- | []]. lia.
  - simpl. lia.
Defined.
